(** * Variable resolution over V8 context chains (src/contexts.cc)

    A shallow embedding of [ScriptContextTable::Extend],
    [ScriptContextTable::Lookup], the [Context] accessors and
    [Context::Lookup], together with the properties stated about them.

    Heap objects are addressed by integers and live in a finite map, so that
    handle identity ("the same table reference") and the back links of the
    chain are explicit.  C++ [int]s are modelled as [Z]; every quantity the
    code adds to is bounded by a backing-store length, so no wrap-around
    occurs.  [CHECK] failures, [UNREACHABLE()] and invalid casts are the
    [Fatal] outcome. *)

From Stdlib Require Import ZArith Bool String Lia.
From stdpp Require Import gmap strings list fin_maps.

Local Open Scope Z_scope.

(** ** Enumerations of globals.h, as far as contexts.cc names their members *)

Inductive VariableMode :=
  | VAR | CONST_LEGACY | LET | CONST | IMPORT
  | TEMPORARY | DYNAMIC | DYNAMIC_GLOBAL | DYNAMIC_LOCAL.

Inductive InitializationFlag := kNeedsInitialization | kCreatedInitialized.

Inductive MaybeAssignedFlag := kNotAssigned | kMaybeAssigned.

Inductive BindingFlags :=
  | MUTABLE_IS_INITIALIZED
  | MUTABLE_CHECK_INITIALIZED
  | IMMUTABLE_IS_INITIALIZED
  | IMMUTABLE_CHECK_INITIALIZED
  | IMMUTABLE_IS_INITIALIZED_HARMONY
  | IMMUTABLE_CHECK_INITIALIZED_HARMONY
  | MISSING_BINDING.

#[global] Instance VariableMode_eq_dec : EqDecision VariableMode.
Proof. solve_decision. Defined.

#[global] Instance InitializationFlag_eq_dec : EqDecision InitializationFlag.
Proof. solve_decision. Defined.

#[global] Instance BindingFlags_eq_dec : EqDecision BindingFlags.
Proof. solve_decision. Defined.

(** [PropertyAttributes] is a bit set held in an [int]. *)
Abbreviation PropertyAttributes := Z (only parsing).

(** Heap addresses: the identity of a [Handle<T>]. *)
Abbreviation Address := Z (only parsing).

(** ** Outcomes

    [Ok] is a normal return.  [Fatal] is a failed [CHECK], [UNREACHABLE()],
    a cast of an object of the wrong type or an access outside a backing
    store.  [OutOfFuel] only arises in the two loops that follow [previous]
    links, which the model bounds by a step count. *)

Inductive Result (A : Type) :=
  | Ok (a : A)
  | Fatal
  | OutOfFuel.

Arguments Ok {A} a.
Arguments Fatal {A}.
Arguments OutOfFuel {A}.

Definition bind {A B : Type} (m : Result A) (f : A -> Result B) : Result B :=
  match m with
  | Ok a => f a
  | Fatal => Fatal
  | OutOfFuel => OutOfFuel
  end.

Notation "'do' x <- m ; k" := (bind m (fun x => k))
  (at level 10, x name, m at level 100, k at level 200).
Notation "'do' ' pat <- m ; k" :=
  (bind m (fun x => match x with pat => k end))
  (at level 10, pat pattern, m at level 100, k at level 200).

(** [CHECK(cond)]: abort unless [cond] holds. *)
Definition CHECK (cond : bool) : Result unit :=
  if cond then Ok tt else Fatal.

(** ** What contexts.cc takes from headers and collaborators

    None of the following is defined in contexts.cc.  The constants are
    members of contexts.h, objects.h and property-details.h; their values are
    left open. *)

Class HeaderConstants := {
  (** [ScriptContextTable::kFirstContextSlot] *)
  kFirstContextSlot : Z;
  (** [Smi::kMaxValue] *)
  Smi_kMaxValue : Z;
  (** [Context::kNotFound] *)
  kNotFound : Z;
  (** [Context::THROWN_OBJECT_INDEX] *)
  THROWN_OBJECT_INDEX : Z;
  (** [PropertyAttributes] members *)
  NONE : PropertyAttributes;
  READ_ONLY : PropertyAttributes;
  ABSENT : PropertyAttributes;
  (** [ContextLookupFlags] masks *)
  FOLLOW_CONTEXT_CHAIN : Z;
  FOLLOW_PROTOTYPE_CHAIN : Z;
  STOP_AT_DECLARATION_SCOPE : Z;
  SKIP_WITH_CONTEXT : Z;
}.

(** The result of [ScopeInfo::ContextSlotIndex]: the returned index and the
    three out-parameters. *)
Record SlotLookup := {
  sl_slot_index : Z;
  sl_mode : VariableMode;
  sl_init_flag : InitializationFlag;
  sl_maybe_assigned_flag : MaybeAssignedFlag;
}.

(** The static scope descriptors (src/ast/scopeinfo.h): queried, never
    changed. *)
Class ScopeInfoOracle := {
  ScopeInfo : Type;
  ContextSlotIndex : ScopeInfo -> string -> SlotLookup;
  FunctionContextSlotIndex : ScopeInfo -> string -> Z * VariableMode;
  is_declaration_scope : ScopeInfo -> bool;
}.

(** The object model.  A [Maybe<T>] or [MaybeHandle<T>] is an [option]:
    [None] is [Nothing], returned with an exception pending on the
    isolate. *)
Class ObjectModel := {
  (** what a [Handle<Object>] read from a property denotes *)
  Value : Type;
  IsJSContextExtensionObject : Address -> bool;
  JSReceiver_GetOwnPropertyAttributes :
    Address -> string -> option PropertyAttributes;
  JSReceiver_GetPropertyAttributes :
    Address -> string -> option PropertyAttributes;
  (** [Object::GetProperty(receiver, unscopables_symbol)] *)
  Object_GetProperty_unscopables : Address -> option Value;
  IsSpecObject : Value -> bool;
  (** [Object::GetProperty(unscopables, name)] *)
  Object_GetProperty : Value -> string -> option Value;
  BooleanValue : Value -> bool;
}.

(** [isolate->factory()->this_string()] *)
Definition this_string : string := "this".

(** ** The binding classifier *)

(** [GetAttributesAndBindingFlags]: the two out-parameters as a pair.  The
    modes without a case of their own come to [UNREACHABLE()], taken as an
    abort here as the spec has it; where the macro expands to nothing the
    out-parameters are left as the caller set them. *)
Definition GetAttributesAndBindingFlags `{HeaderConstants}
    (mode : VariableMode) (init_flag : InitializationFlag)
  : Result (PropertyAttributes * BindingFlags) :=
  match mode with
  | VAR => Ok (NONE, MUTABLE_IS_INITIALIZED)
  | LET =>
      Ok (NONE,
          if decide (init_flag = kNeedsInitialization)
          then MUTABLE_CHECK_INITIALIZED
          else MUTABLE_IS_INITIALIZED)
  | CONST_LEGACY =>
      Ok (READ_ONLY,
          if decide (init_flag = kNeedsInitialization)
          then IMMUTABLE_CHECK_INITIALIZED
          else IMMUTABLE_IS_INITIALIZED)
  | CONST =>
      Ok (READ_ONLY,
          if decide (init_flag = kNeedsInitialization)
          then IMMUTABLE_CHECK_INITIALIZED_HARMONY
          else IMMUTABLE_IS_INITIALIZED_HARMONY)
  | IMPORT => Fatal
  | DYNAMIC | DYNAMIC_GLOBAL | DYNAMIC_LOCAL | TEMPORARY => Fatal
  end.

(** ** The heap: contexts and script context tables *)

Inductive ContextKind :=
  | NativeContext
  | ScriptContext
  | FunctionContext
  | BlockContext
  | WithContext
  | CatchContext
  | ModuleContext.

#[global] Instance ContextKind_eq_dec : EqDecision ContextKind.
Proof. solve_decision. Defined.

(** A slot of a [FixedArray]: the filler or a pointer to a heap object. *)
Inductive Element :=
  | undefined_value
  | heap_object (a : Address).

(** A [ScriptContextTable] is a [FixedArray]: [used()] and the backing
    store, whose length is [length()].  The code keeps the count in a header
    slot of the backing store, below [kFirstContextSlot], and [set_used]
    writes it there; [used()] and [set_used] are in contexts-inl.h.  Here the
    count is the field [used], and what [elements] holds below
    [kFirstContextSlot] stands for nothing: the entries are the slots from
    [kFirstContextSlot] on. *)
Record ScriptContextTable := {
  used : Z;
  elements : list Element;
}.

Definition FixedArray_length (t : ScriptContextTable) : Z :=
  Z.of_nat (length (elements t)).

Definition FixedArray_get (t : ScriptContextTable) (i : Z) : Result Element :=
  if (0 <=? i) && (i <? FixedArray_length t)
  then match elements t !! Z.to_nat i with
       | Some e => Ok e
       | None => Fatal
       end
  else Fatal.

Definition FixedArray_set (t : ScriptContextTable) (i : Z) (e : Element)
  : Result ScriptContextTable :=
  if (0 <=? i) && (i <? FixedArray_length t)
  then Ok {| used := used t; elements := <[Z.to_nat i := e]> (elements t) |}
  else Fatal.

Definition set_used (t : ScriptContextTable) (n : Z) : ScriptContextTable :=
  {| used := n; elements := elements t |}.

Section Contexts.

Context `{HC : HeaderConstants} `{SO : ScopeInfoOracle} `{OM : ObjectModel}.

(** What the extension slot of a context holds ([Object* extension()]). *)
Inductive Extension :=
  | ext_nullptr
  | ext_ScopeInfo (scope_info : ScopeInfo)
  | ext_SloppyBlockWithEvalContextExtension
      (scope_info : ScopeInfo) (extension : Address)
  | ext_JSReceiver (object : Address)
  | ext_String (s : string).

(** A context.  [closure_scope_info] is [closure()->shared()->scope_info()];
    [script_context_table] is
    [global_object()->native_context()->script_context_table()], read at
    native contexts only. *)
Record Context := {
  kind : ContextKind;
  extension : Extension;
  previous : option Address;
  closure_scope_info : ScopeInfo;
  script_context_table : Address;
}.

Inductive HeapObject :=
  | context_object (c : Context)
  | script_context_table_object (t : ScriptContextTable).

Definition context_at (h : gmap Z HeapObject) (a : Address) : Result Context :=
  match h !! a with
  | Some (context_object c) => Ok c
  | _ => Fatal
  end.

Definition table_at (h : gmap Z HeapObject) (a : Address)
  : Result ScriptContextTable :=
  match h !! a with
  | Some (script_context_table_object t) => Ok t
  | _ => Fatal
  end.

Definition IsNativeContext (c : Context) : bool :=
  bool_decide (kind c = NativeContext).
Definition IsScriptContext (c : Context) : bool :=
  bool_decide (kind c = ScriptContext).
Definition IsFunctionContext (c : Context) : bool :=
  bool_decide (kind c = FunctionContext).
Definition IsBlockContext (c : Context) : bool :=
  bool_decide (kind c = BlockContext).
Definition IsWithContext (c : Context) : bool :=
  bool_decide (kind c = WithContext).
Definition IsCatchContext (c : Context) : bool :=
  bool_decide (kind c = CatchContext).

(** ** Context accessors *)

(** [Context::is_declaration_context] *)
Definition is_declaration_context (c : Context) : Result bool :=
  if IsFunctionContext c || IsNativeContext c || IsScriptContext c
  then Ok true
  else if negb (IsBlockContext c) then Ok false
  else match extension c with
       | ext_SloppyBlockWithEvalContextExtension _ _ => Ok true
       | ext_ScopeInfo si => Ok (is_declaration_scope si)
       | _ => Fatal
       end.

(** [Context::declaration_context]: the loop follows [previous]. *)
Fixpoint declaration_context (fuel : nat) (h : gmap Z HeapObject)
    (current : Address) : Result Address :=
  match fuel with
  | O => OutOfFuel
  | S fuel' =>
      do c <- context_at h current;
      do b <- is_declaration_context c;
      if b then Ok current
      else match previous c with
           | Some p => declaration_context fuel' h p
           | None => Fatal
           end
  end.

(** [Context::extension_object]; [None] is [nullptr]. *)
Definition extension_object (c : Context) : Result (option Address) :=
  match extension c with
  | ext_nullptr => Ok None
  | object =>
      if IsBlockContext c
      then match object with
           | ext_SloppyBlockWithEvalContextExtension _ o => Ok (Some o)
           | _ => Ok None
           end
      else match object with
           | ext_JSReceiver o => Ok (Some o)
           | _ => Fatal
           end
  end.

(** [Context::extension_receiver] *)
Definition extension_receiver (c : Context) : Result (option Address) :=
  if IsWithContext c
  then match extension c with
       | ext_JSReceiver o => Ok (Some o)
       | ext_nullptr => Ok None
       | _ => Fatal
       end
  else extension_object c.

(** [Context::scope_info] *)
Definition scope_info (c : Context) : Result ScopeInfo :=
  match extension c with
  | ext_SloppyBlockWithEvalContextExtension si _ => Ok si
  | ext_ScopeInfo si => Ok si
  | _ => Fatal
  end.

(** [Context::catch_name] *)
Definition catch_name (c : Context) : Result string :=
  match extension c with
  | ext_String s => Ok s
  | _ => Fatal
  end.

(** ** The script context table *)

(** Modelled from the spec: [Factory::CopyFixedArrayAndGrow] (factory.cc) is
    the allocator's grow-and-copy.  It allocates a new backing store, copies
    the existing entries and leaves the [grow_by] added slots filled with
    the filler; the array passed in is not touched. *)
Definition CopyFixedArrayAndGrow (h : gmap Z HeapObject) (array : Address)
    (grow_by : Z) : Result (Address * gmap Z HeapObject) :=
  do t <- table_at h array;
  let copy := fresh (dom h) in
  Ok (copy,
      <[copy := script_context_table_object
                  {| used := used t;
                     elements := elements t
                                 ++ replicate (Z.to_nat grow_by) undefined_value
                  |}]> h).

(** [ScriptContextTable::Extend].  The result is the returned handle and the
    heap after the call. *)
Definition ScriptContextTable_Extend (h : gmap Z HeapObject)
    (table script_context : Address) : Result (Address * gmap Z HeapObject) :=
  do t <- table_at h table;
  let used := used t in
  let length := FixedArray_length t in
  do _ <- CHECK ((0 <=? used) && (0 <? length) && (used <? length));
  do '(result, h) <-
    (if used + kFirstContextSlot =? length
     then do _ <- CHECK (length <? Z.quot Smi_kMaxValue 2);
          CopyFixedArrayAndGrow h table length
     else Ok (table, h));
  do r <- table_at h result;
  do r <- FixedArray_set (set_used r (used + 1))
            (used + kFirstContextSlot) (heap_object script_context);
  Ok (result, <[result := script_context_table_object r]> h).

(** Modelled from the spec: [ScriptContextTable::GetContext] (contexts-inl.h)
    reads entry [i] of the table, the one [Extend] wrote when [used] was
    [i]. *)
Definition ScriptContextTable_GetContext (t : ScriptContextTable) (i : Z)
  : Result Address :=
  do e <- FixedArray_get t (i + kFirstContextSlot);
  match e with
  | heap_object a => Ok a
  | undefined_value => Fatal
  end.

(** [ScriptContextTable::LookupResult] *)
Record LookupResult := {
  context_index : Z;
  slot_index : Z;
  mode : VariableMode;
  init_flag : InitializationFlag;
  maybe_assigned_flag : MaybeAssignedFlag;
}.

(** The [for] loop of [ScriptContextTable::Lookup], from index [i] with [n]
    iterations left. *)
Fixpoint ScriptContextTable_Lookup_from (h : gmap Z HeapObject)
    (t : ScriptContextTable) (name : string) (n : nat) (i : Z)
  : Result (option LookupResult) :=
  match n with
  | O => Ok None
  | S n' =>
      do context <- ScriptContextTable_GetContext t i;
      do c <- context_at h context;
      do si <- scope_info c;
      let r := ContextSlotIndex si name in
      if 0 <=? sl_slot_index r
      then Ok (Some {| context_index := i;
                       slot_index := sl_slot_index r;
                       mode := sl_mode r;
                       init_flag := sl_init_flag r;
                       maybe_assigned_flag := sl_maybe_assigned_flag r |})
      else ScriptContextTable_Lookup_from h t name n' (i + 1)
  end.

(** [ScriptContextTable::Lookup]: [Some r] is [true] with [*result = r],
    [None] is [false]. *)
Definition ScriptContextTable_Lookup (h : gmap Z HeapObject) (table : Address)
    (name : string) : Result (option LookupResult) :=
  do t <- table_at h table;
  ScriptContextTable_Lookup_from h t name (Z.to_nat (used t)) 0.

(** ** The resolver *)

(** [UnscopableLookup], for the iterator [LookupIterator it(object, name)]. *)
Definition UnscopableLookup (object : Address) (name : string)
  : option PropertyAttributes :=
  match JSReceiver_GetPropertyAttributes object name with
  | None => None
  | Some attrs =>
      if attrs =? ABSENT then Some attrs
      else match Object_GetProperty_unscopables object with
           | None => None
           | Some unscopables =>
               if negb (IsSpecObject unscopables) then Some attrs
               else match Object_GetProperty unscopables name with
                    | None => None
                    | Some blacklist =>
                        if BooleanValue blacklist then Some ABSENT
                        else Some attrs
                    end
           end
  end.

(** [(flags & mask) != 0] *)
Definition has_flag (flags mask : Z) : bool :=
  negb (Z.land flags mask =? 0).

(** A [Handle<Object>] returned by [Context::Lookup]. *)
Inductive ObjectHandle :=
  | null_handle
  | context_handle (context : Address)
  | receiver_handle (object : Address).

(** The out-parameters [*index], [*attributes] and [*binding_flags]. *)
Record OutParams := {
  index : Z;
  attributes : PropertyAttributes;
  binding_flags : BindingFlags;
}.

(** What a call of [Context::Lookup] leaves behind: the handle returned, the
    out-parameters, and whether an exception is pending on the isolate. *)
Record LookupReturn := {
  holder : ObjectHandle;
  out : OutParams;
  has_pending_exception : bool;
}.

(** One pass through a phase of the loop body either returns from [Lookup]
    or falls through with the out-parameters as they are by then. *)
Inductive Step :=
  | Return (r : LookupReturn)
  | Continue (o : OutParams).

(** The property probe of phase 1 (the [maybe] of the source). *)
Definition Lookup_probe (c : Context) (flags : Z) (object : Address)
    (name : string) : option PropertyAttributes :=
  if negb (has_flag flags FOLLOW_PROTOTYPE_CHAIN)
     || IsJSContextExtensionObject object
  then JSReceiver_GetOwnPropertyAttributes object name
  else if IsWithContext c
  then (if String.eqb name this_string then Some ABSENT
        else UnscopableLookup object name)
  else JSReceiver_GetPropertyAttributes object name.

(** 1. Check global objects, subjects of with, and extension objects. *)
Definition Lookup_objects (h : gmap Z HeapObject) (c : Context)
    (name : string) (flags : Z) (o : OutParams) : Result Step :=
  if IsNativeContext c
     || (IsWithContext c && negb (has_flag flags SKIP_WITH_CONTEXT))
     || IsFunctionContext c || IsBlockContext c
  then
    do receiver <- extension_receiver c;
    match receiver with
    | None => Ok (Continue o)
    | Some object =>
        do r <- (if IsNativeContext c
                 then ScriptContextTable_Lookup h (script_context_table c) name
                 else Ok None);
        match r with
        | Some r =>
            do '(a, b) <- GetAttributesAndBindingFlags (mode r) (init_flag r);
            do script_contexts <- table_at h (script_context_table c);
            do found <- ScriptContextTable_GetContext script_contexts
                          (context_index r);
            Ok (Return {| holder := context_handle found;
                          out := {| index := slot_index r;
                                    attributes := a;
                                    binding_flags := b |};
                          has_pending_exception := false |})
        | None =>
            match Lookup_probe c flags object name with
            | None =>
                Ok (Return {| holder := null_handle;
                              out := o;
                              has_pending_exception := true |})
            | Some a =>
                let o := {| index := index o;
                            attributes := a;
                            binding_flags := binding_flags o |} in
                if negb (a =? ABSENT)
                then Ok (Return {| holder := receiver_handle object;
                                   out := o;
                                   has_pending_exception := false |})
                else Ok (Continue o)
            end
        end
    end
  else Ok (Continue o).

(** 2. Check the context proper if it has slots. *)
Definition Lookup_slots (context : Address) (c : Context) (name : string)
    (follow_context_chain : bool) (o : OutParams) : Result Step :=
  if IsFunctionContext c || IsBlockContext c || IsScriptContext c
  then
    do si <- (if IsFunctionContext c then Ok (closure_scope_info c)
              else scope_info c);
    let r := ContextSlotIndex si name in
    if 0 <=? sl_slot_index r
    then
      do '(a, b) <- GetAttributesAndBindingFlags (sl_mode r) (sl_init_flag r);
      Ok (Return {| holder := context_handle context;
                    out := {| index := sl_slot_index r;
                              attributes := a;
                              binding_flags := b |};
                    has_pending_exception := false |})
    else if follow_context_chain && IsFunctionContext c
    then
      let '(function_index, mode) := FunctionContextSlotIndex si name in
      if 0 <=? function_index
      then Ok (Return {| holder := context_handle context;
                         out := {| index := function_index;
                                   attributes := READ_ONLY;
                                   binding_flags :=
                                     if decide (mode = CONST_LEGACY)
                                     then IMMUTABLE_IS_INITIALIZED
                                     else IMMUTABLE_IS_INITIALIZED_HARMONY |};
                         has_pending_exception := false |})
      else Ok (Continue o)
    else Ok (Continue o)
  else if IsCatchContext c
  then
    do cn <- catch_name c;
    if String.eqb name cn
    then Ok (Return {| holder := context_handle context;
                       out := {| index := THROWN_OBJECT_INDEX;
                                 attributes := NONE;
                                 binding_flags := MUTABLE_IS_INITIALIZED |};
                       has_pending_exception := false |})
    else Ok (Continue o)
  else Ok (Continue o).

(** Whether the walk ends at this context: the condition under which the
    source clears [follow_context_chain]. *)
Definition Lookup_stops (c : Context) (flags : Z) : Result bool :=
  if IsNativeContext c then Ok true
  else if has_flag flags STOP_AT_DECLARATION_SCOPE
  then is_declaration_context c
  else Ok false.

(** [return Handle<Object>::null()] after the loop. *)
Definition no_property_or_slot_found (o : OutParams) : LookupReturn :=
  {| holder := null_handle; out := o; has_pending_exception := false |}.

(** How one pass through the loop body ends: [Lookup] returns, or the loop
    goes round again at the previous context. *)
Inductive Iteration :=
  | Finished (r : LookupReturn)
  | Advance (context : Address) (o : OutParams).

(** 3. Prepare to continue with the previous (next outermost) context, and
    the test of the [while]. *)
Definition Lookup_continuation (c : Context) (flags : Z)
    (follow_context_chain : bool) (o : OutParams) : Result Iteration :=
  do stop <- Lookup_stops c flags;
  if stop then Ok (Finished (no_property_or_slot_found o))
  else if follow_context_chain
  then match previous c with
       | Some p => Ok (Advance p o)
       | None => Fatal
       end
  else Ok (Finished (no_property_or_slot_found o)).

(** The body of the [do ... while (follow_context_chain)] loop, run at the
    context stored at address [context]. *)
Definition Lookup_iteration (h : gmap Z HeapObject) (context : Address)
    (name : string) (flags : Z) (follow_context_chain : bool) (o : OutParams)
  : Result Iteration :=
  do c <- context_at h context;
  do s <- Lookup_objects h c name flags o;
  match s with
  | Return r => Ok (Finished r)
  | Continue o =>
      do s <- Lookup_slots context c name follow_context_chain o;
      match s with
      | Return r => Ok (Finished r)
      | Continue o => Lookup_continuation c flags follow_context_chain o
      end
  end.

(** The loop itself, bounded by [fuel] iterations. *)
Fixpoint Lookup_loop (fuel : nat) (h : gmap Z HeapObject) (context : Address)
    (name : string) (flags : Z) (follow_context_chain : bool) (o : OutParams)
  : Result LookupReturn :=
  match fuel with
  | O => OutOfFuel
  | S fuel' =>
      do it <- Lookup_iteration h context name flags follow_context_chain o;
      match it with
      | Finished r => Ok r
      | Advance context o =>
          Lookup_loop fuel' h context name flags follow_context_chain o
      end
  end.

(** [Context::Lookup], called on the context at address [this]. *)
Definition Context_Lookup (fuel : nat) (h : gmap Z HeapObject) (this : Address)
    (name : string) (flags : Z) : Result LookupReturn :=
  Lookup_loop fuel h this name flags (has_flag flags FOLLOW_CONTEXT_CHAIN)
    {| index := kNotFound;
       attributes := ABSENT;
       binding_flags := MISSING_BINDING |}.

End Contexts.

(** ** Further functions of contexts.cc *)

Section Chains.

Context `{SO : ScopeInfoOracle}.

(** [Context::script_context]: the loop follows [previous]. *)
Fixpoint script_context (fuel : nat) (h : gmap Z HeapObject)
    (current : Address) : Result Address :=
  match fuel with
  | O => OutOfFuel
  | S fuel' =>
      do c <- context_at h current;
      if IsScriptContext c then Ok current
      else match previous c with
           | Some p => script_context fuel' h p
           | None => Fatal
           end
  end.

End Chains.

(** *** The lists of optimized functions and code

    The three slots of a native context that head its lists.  The lists are
    threaded through the [next_function_link] field of the functions and the
    [next_code_link] field of the code objects; either field is kept in a
    map from the address of the object to the value of its field.  Write
    barriers are not modelled. *)

Record NativeContextLists := {
  OPTIMIZED_FUNCTIONS_LIST : Element;
  OPTIMIZED_CODE_LIST : Element;
  DEOPTIMIZED_CODE_LIST : Element;
}.

(** [IsUndefined()] *)
Definition IsUndefined (e : Element) : bool :=
  match e with
  | undefined_value => true
  | heap_object _ => false
  end.

(** Reading the link field of the object at [a]. *)
Definition next_link (links : gmap Z Element) (a : Address) : Result Element :=
  match links !! a with
  | Some e => Ok e
  | None => Fatal
  end.

(** Writing the link field of the object at [a]. *)
Definition set_next_link (links : gmap Z Element) (a : Address) (e : Element)
  : Result (gmap Z Element) :=
  match links !! a with
  | Some _ => Ok (<[a := e]> links)
  | None => Fatal
  end.

(** The code flusher (mark-compact.h) keeps its candidates on a list
    threaded through the same field; what evicting one does to the links is
    left open. *)
Class CodeFlusher := {
  EvictCandidate : gmap Z Element -> Address -> gmap Z Element;
}.

(** [Context::SetOptimizedFunctionsListHead] *)
Definition SetOptimizedFunctionsListHead (s : NativeContextLists)
    (head : Element) : NativeContextLists :=
  {| OPTIMIZED_FUNCTIONS_LIST := head;
     OPTIMIZED_CODE_LIST := OPTIMIZED_CODE_LIST s;
     DEOPTIMIZED_CODE_LIST := DEOPTIMIZED_CODE_LIST s |}.

(** [Context::OptimizedFunctionsListHead] *)
Definition OptimizedFunctionsListHead (s : NativeContextLists) : Element :=
  OPTIMIZED_FUNCTIONS_LIST s.

(** [Context::SetOptimizedCodeListHead] *)
Definition SetOptimizedCodeListHead (s : NativeContextLists)
    (head : Element) : NativeContextLists :=
  {| OPTIMIZED_FUNCTIONS_LIST := OPTIMIZED_FUNCTIONS_LIST s;
     OPTIMIZED_CODE_LIST := head;
     DEOPTIMIZED_CODE_LIST := DEOPTIMIZED_CODE_LIST s |}.

(** [Context::OptimizedCodeListHead] *)
Definition OptimizedCodeListHead (s : NativeContextLists) : Element :=
  OPTIMIZED_CODE_LIST s.

(** [Context::SetDeoptimizedCodeListHead] *)
Definition SetDeoptimizedCodeListHead (s : NativeContextLists)
    (head : Element) : NativeContextLists :=
  {| OPTIMIZED_FUNCTIONS_LIST := OPTIMIZED_FUNCTIONS_LIST s;
     OPTIMIZED_CODE_LIST := OPTIMIZED_CODE_LIST s;
     DEOPTIMIZED_CODE_LIST := head |}.

(** [Context::DeoptimizedCodeListHead] *)
Definition DeoptimizedCodeListHead (s : NativeContextLists) : Element :=
  DEOPTIMIZED_CODE_LIST s.

(** [Context::AddOptimizedFunction], as compiled without
    [ENABLE_SLOW_DCHECKS].  The result is the slots and the links after the
    call. *)
Definition AddOptimizedFunction `{CodeFlusher} (s : NativeContextLists)
    (links : gmap Z Element) (function : Address)
  : Result (NativeContextLists * gmap Z Element) :=
  do link <- next_link links function;
  let links :=
    if negb (IsUndefined link) then EvictCandidate links function
    else links in
  do links <- set_next_link links function (OPTIMIZED_FUNCTIONS_LIST s);
  Ok (SetOptimizedFunctionsListHead s (heap_object function), links).

(** The [while] loop of [Context::RemoveOptimizedFunction]; [prev] is [None]
    for [NULL].  When the loop runs off the end of the list the code comes
    to [UNREACHABLE()], which in the build without [DEBUG] followed here (the
    one that drops the [DCHECK]s) expands to nothing: the function
    returns. *)
Fixpoint RemoveOptimizedFunction_loop (fuel : nat) (s : NativeContextLists)
    (links : gmap Z Element) (function : Address) (element : Element)
    (prev : option Address) : Result (NativeContextLists * gmap Z Element) :=
  match fuel with
  | O => OutOfFuel
  | S fuel' =>
      match element with
      | undefined_value => Ok (s, links)
      | heap_object element_function =>
          do next <- next_link links element_function;
          if element_function =? function
          then
            do '(s, links) <-
              match prev with
              | None => Ok (SetOptimizedFunctionsListHead s next, links)
              | Some prev =>
                  do links <- set_next_link links prev next;
                  Ok (s, links)
              end;
            do links <- set_next_link links element_function undefined_value;
            Ok (s, links)
          else
            RemoveOptimizedFunction_loop fuel' s links function next
              (Some element_function)
      end
  end.

(** [Context::RemoveOptimizedFunction] *)
Definition RemoveOptimizedFunction (fuel : nat) (s : NativeContextLists)
    (links : gmap Z Element) (function : Address)
  : Result (NativeContextLists * gmap Z Element) :=
  RemoveOptimizedFunction_loop fuel s links function
    (OPTIMIZED_FUNCTIONS_LIST s) None.

(** [Context::AddOptimizedCode]; [links] holds the [next_code_link]
    fields. *)
Definition AddOptimizedCode (s : NativeContextLists)
    (links : gmap Z Element) (code : Address)
  : Result (NativeContextLists * gmap Z Element) :=
  do links <- set_next_link links code (OPTIMIZED_CODE_LIST s);
  Ok (SetOptimizedCodeListHead s (heap_object code), links).

(** *** [Context::InitializeGlobalSlots] *)

(** What it takes from scopeinfo.h, contexts.h and the heap's roots. *)
Class GlobalSlotLayout `{SO : ScopeInfoOracle} := {
  ContextGlobalCount : ScopeInfo -> Z;
  ContextLocalCount : ScopeInfo -> Z;
  MIN_CONTEXT_SLOTS : Z;
  empty_property_cell : Address;
}.

(** [set(index, value)] on the slots of a context. *)
Definition Context_set (slots : list Element) (index : Z) (value : Element)
  : Result (list Element) :=
  if (0 <=? index) && (index <? Z.of_nat (length slots))
  then Ok (<[Z.to_nat index := value]> slots)
  else Fatal.

(** The [for] loop: [n] slots from [index] on are set to [value]. *)
Fixpoint Context_set_run (slots : list Element) (index : Z) (n : nat)
    (value : Element) : Result (list Element) :=
  match n with
  | O => Ok slots
  | S n' =>
      do slots <- Context_set slots index value;
      Context_set_run slots (index + 1) n' value
  end.

(** [Context::InitializeGlobalSlots], for the context [c] with the slots
    [slots]; the result is the slots after the call. *)
Definition InitializeGlobalSlots `{GlobalSlotLayout} (c : Context)
    (slots : list Element) : Result (list Element) :=
  do si <- scope_info c;
  let context_globals := ContextGlobalCount si in
  if 0 <? context_globals
  then
    let context_locals := ContextLocalCount si in
    let index := MIN_CONTEXT_SLOTS + context_locals in
    Context_set_run slots index (Z.to_nat context_globals)
      (heap_object empty_property_cell)
  else Ok slots.

(** *** Field indices by name *)

(** The lists [NATIVE_CONTEXT_IMPORTED_FIELDS] and
    [NATIVE_CONTEXT_INTRINSIC_FUNCTIONS] of contexts.h, as the pairs of index
    and name that [COMPARE_NAME] is applied to, in order. *)
Class NativeContextFields := {
  NATIVE_CONTEXT_IMPORTED_FIELDS : list (Z * string);
  NATIVE_CONTEXT_INTRINSIC_FUNCTIONS : list (Z * string);
}.

(** [COMPARE_NAME] applied along a list: the index of the first field whose
    name is [string]. *)
Fixpoint COMPARE_NAME (fields : list (Z * string)) (string : string)
  : option Z :=
  match fields with
  | [] => None
  | (index, name) :: fields' =>
      if String.eqb string name then Some index
      else COMPARE_NAME fields' string
  end.

(** [Context::ImportedFieldIndexForName] *)
Definition ImportedFieldIndexForName `{HeaderConstants} `{NativeContextFields}
    (string : string) : Z :=
  match COMPARE_NAME NATIVE_CONTEXT_IMPORTED_FIELDS string with
  | Some index => index
  | None => kNotFound
  end.

(** [Context::IntrinsicIndexForName] *)
Definition IntrinsicIndexForName `{HeaderConstants} `{NativeContextFields}
    (string : string) : Z :=
  match COMPARE_NAME NATIVE_CONTEXT_INTRINSIC_FUNCTIONS string with
  | Some index => index
  | None => kNotFound
  end.

(** ** A concrete platform, for running the definitions

    Constants as in a 32-bit build; descriptors as association lists;
    objects with own data properties only, some of which may be set to
    throw when probed. *)

Definition example_constants : HeaderConstants := {|
  kFirstContextSlot := 1;
  Smi_kMaxValue := 1073741823;
  kNotFound := -1;
  THROWN_OBJECT_INDEX := 4;
  NONE := 0;
  READ_ONLY := 1;
  ABSENT := 64;
  FOLLOW_CONTEXT_CHAIN := 1;
  FOLLOW_PROTOTYPE_CHAIN := 2;
  STOP_AT_DECLARATION_SCOPE := 4;
  SKIP_WITH_CONTEXT := 8;
|}.

(** A descriptor: whether it is a declaration scope, and its context
    locals with their slots. *)
Definition example_scope_info : Type :=
  bool * list (string * SlotLookup).

Fixpoint assoc {A : Type} (name : string) (l : list (string * A)) : option A :=
  match l with
  | [] => None
  | (k, v) :: l' => if String.eqb name k then Some v else assoc name l'
  end.

Definition example_slot (slot : Z) (m : VariableMode)
    (i : InitializationFlag) : SlotLookup :=
  {| sl_slot_index := slot; sl_mode := m; sl_init_flag := i;
     sl_maybe_assigned_flag := kNotAssigned |}.

Definition example_descriptors : ScopeInfoOracle := {|
  ScopeInfo := example_scope_info;
  ContextSlotIndex si name :=
    match assoc name (snd si) with
    | Some r => r
    | None => example_slot (-1) TEMPORARY kNeedsInitialization
    end;
  FunctionContextSlotIndex si name := (-1, TEMPORARY);
  is_declaration_scope si := fst si;
|}.

(** Objects given by their own properties [(object, name, attributes)];
    probing an object listed in [throwing] fails. *)
Fixpoint own_property (object : Z) (name : string)
    (props : list (Z * string * Z)) : Z :=
  match props with
  | [] => 64
  | (o, n, a) :: props' =>
      if (o =? object) && String.eqb n name then a
      else own_property object name props'
  end.

Definition example_probe (props : list (Z * string * Z)) (throwing : list Z)
    (object : Z) (name : string) : option Z :=
  if bool_decide (object ∈ throwing) then None
  else Some (own_property object name props).

Definition example_objects (props : list (Z * string * Z))
    (throwing : list Z) : ObjectModel := {|
  Value := unit;
  IsJSContextExtensionObject _ := false;
  JSReceiver_GetOwnPropertyAttributes := example_probe props throwing;
  JSReceiver_GetPropertyAttributes := example_probe props throwing;
  Object_GetProperty_unscopables _ := Some tt;
  IsSpecObject _ := false;
  Object_GetProperty _ _ := Some tt;
  BooleanValue _ := false;
|}.

(** A heap on that platform.  Object 100 has own properties ["this"] and
    ["x"], the global object 200 has ["g"], and probing object 300 throws.

    - 1: the native context, with global object 200 and the table at 2;
    - 2: a script context table of length 4 holding the script contexts 3
         and 4, which both declare ["x"];
    - 5: a function context whose closure declares ["f"];
    - 6: a block context with a plain descriptor declaring ["b"], not a
         declaration scope;
    - 7: a catch context binding ["e"];
    - 8: a with context on object 100;
    - 9: a with context on object 300;
    - 10: a script context table of length 4 that is full. *)

Section Demo.

#[local] Existing Instance example_constants.
#[local] Existing Instance example_descriptors.

Definition demo_objects : ObjectModel :=
  example_objects
    [(100, "this"%string, 0); (100, "x"%string, 0); (200, "g"%string, 0)]
    [300].

#[local] Existing Instance demo_objects.

Definition no_descriptor : example_scope_info := (false, []).

Definition demo_context (k : ContextKind) (e : Extension)
    (p : option Address) : Context :=
  {| kind := k; extension := e; previous := p;
     closure_scope_info := no_descriptor; script_context_table := 2 |}.

Definition demo_native : Context :=
  demo_context NativeContext (ext_JSReceiver 200) None.

Definition demo_table : ScriptContextTable :=
  {| used := 2;
     elements := [undefined_value; heap_object 3; heap_object 4;
                  undefined_value] |}.

Definition demo_script_1 : Context :=
  demo_context ScriptContext
    (ext_ScopeInfo (true, [("x"%string, example_slot 3 LET kNeedsInitialization)]))
    (Some 1).

Definition demo_script_2 : Context :=
  demo_context ScriptContext
    (ext_ScopeInfo (true, [("x"%string, example_slot 5 CONST kCreatedInitialized)]))
    (Some 1).

Definition demo_function : Context :=
  {| kind := FunctionContext; extension := ext_nullptr; previous := Some 4;
     closure_scope_info :=
       (true, [("f"%string, example_slot 4 VAR kCreatedInitialized)]);
     script_context_table := 2 |}.

Definition demo_block : Context :=
  demo_context BlockContext
    (ext_ScopeInfo (false, [("b"%string, example_slot 4 LET kNeedsInitialization)]))
    (Some 5).

Definition demo_catch : Context :=
  demo_context CatchContext (ext_String "e") (Some 6).

Definition demo_with : Context :=
  demo_context WithContext (ext_JSReceiver 100) (Some 7).

Definition demo_with_throwing : Context :=
  demo_context WithContext (ext_JSReceiver 300) (Some 8).

Definition demo_full_table : ScriptContextTable :=
  {| used := 3;
     elements := [undefined_value; heap_object 3; heap_object 4;
                  heap_object 3] |}.

Definition demo_heap : gmap Z HeapObject :=
  list_to_map
    [(1, context_object demo_native);
     (2, script_context_table_object demo_table);
     (3, context_object demo_script_1);
     (4, context_object demo_script_2);
     (5, context_object demo_function);
     (6, context_object demo_block);
     (7, context_object demo_catch);
     (8, context_object demo_with);
     (9, context_object demo_with_throwing);
     (10, script_context_table_object demo_full_table)].

End Demo.

(** Further objects on that platform.

    - 11: a script context table whose [used] has reached its length;
    - 12: a script context that declares ["y"];
    - 13: a script context table with the entries of the table at 2 and a
          longer backing store. *)

Section MoreDemo.

#[local] Existing Instance example_constants.
#[local] Existing Instance example_descriptors.

Definition demo_overfull_table : ScriptContextTable :=
  {| used := 4;
     elements := [undefined_value; heap_object 3; heap_object 4;
                  heap_object 3] |}.

Definition demo_script_3 : Context :=
  demo_context ScriptContext
    (ext_ScopeInfo (true, [("y"%string, example_slot 2 VAR kCreatedInitialized)]))
    (Some 1).

Definition demo_long_table : ScriptContextTable :=
  {| used := 2;
     elements := [undefined_value; heap_object 3; heap_object 4;
                  heap_object 12; undefined_value; undefined_value] |}.

Definition demo_more_heap : gmap Z HeapObject :=
  <[11 := script_context_table_object demo_overfull_table]>
    (<[12 := context_object demo_script_3]>
       (<[13 := script_context_table_object demo_long_table]> demo_heap)).

(** An object model with unscopables: an unscopables object is the list of
    the names it hides. *)
Inductive example_value :=
  | value_boolean (b : bool)
  | value_object (hidden : list string).

Definition unscopables_objects : ObjectModel := {|
  Value := example_value;
  IsJSContextExtensionObject _ := false;
  JSReceiver_GetOwnPropertyAttributes :=
    example_probe [(100, "x"%string, 0); (100, "values"%string, 0)] [];
  JSReceiver_GetPropertyAttributes :=
    example_probe [(100, "x"%string, 0); (100, "values"%string, 0)] [];
  Object_GetProperty_unscopables _ := Some (value_object ["values"%string]);
  IsSpecObject v :=
    match v with value_object _ => true | value_boolean _ => false end;
  Object_GetProperty v name :=
    match v with
    | value_object hidden => Some (value_boolean (bool_decide (name ∈ hidden)))
    | value_boolean _ => Some (value_boolean false)
    end;
  BooleanValue v :=
    match v with value_boolean b => b | value_object _ => true end;
|}.

(** A code flusher that resets the link of the candidate it evicts. *)
Definition example_flusher : CodeFlusher := {|
  EvictCandidate links function := <[function := undefined_value]> links;
|}.

(** The lists of a native context: the optimized functions 20 and 21, the
    optimized code object 30, and the function 22 and the code object 31 on
    no list. *)
Definition demo_lists : NativeContextLists :=
  {| OPTIMIZED_FUNCTIONS_LIST := heap_object 20;
     OPTIMIZED_CODE_LIST := heap_object 30;
     DEOPTIMIZED_CODE_LIST := undefined_value |}.

Definition demo_function_links : gmap Z Element :=
  list_to_map
    [(20, heap_object 21); (21, undefined_value); (22, undefined_value)].

Definition demo_code_links : gmap Z Element :=
  list_to_map [(30, undefined_value); (31, undefined_value)].

(** Slots of contexts: a descriptor counts its context locals, and a
    declaration scope has two context globals. *)
Definition example_layout : GlobalSlotLayout := {|
  ContextGlobalCount si := if fst si then 2 else 0;
  ContextLocalCount si := Z.of_nat (length (snd si));
  MIN_CONTEXT_SLOTS := 4;
  empty_property_cell := 50;
|}.

End MoreDemo.

(** Descriptors of function expressions: the descriptor is the name of the
    function, kept in slot 4. *)
Definition function_name_descriptors : ScopeInfoOracle := {|
  ScopeInfo := string;
  ContextSlotIndex _ _ := example_slot (-1) TEMPORARY kNeedsInitialization;
  FunctionContextSlotIndex si name :=
    if String.eqb name si then (4, CONST_LEGACY) else (-1, TEMPORARY);
  is_declaration_scope _ := true;
|}.

Section FunctionDemo.

#[local] Existing Instance example_constants.
#[local] Existing Instance function_name_descriptors.

(** A function context of the function expression ["fact"], above a native
    context. *)
Definition demo_function_heap : gmap Z HeapObject :=
  list_to_map
    [(1, context_object
           {| kind := NativeContext; extension := ext_nullptr;
              previous := None; closure_scope_info := "fact"%string;
              script_context_table := 2 |});
     (2, script_context_table_object
           {| used := 0; elements := [undefined_value] |});
     (3, context_object
           {| kind := FunctionContext; extension := ext_nullptr;
              previous := Some 1; closure_scope_info := "fact"%string;
              script_context_table := 2 |})].

End FunctionDemo.

(** ** Notions used to state the properties *)

Section Notions.

Context `{HC : HeaderConstants} `{SO : ScopeInfoOracle} `{OM : ObjectModel}.

(** The out-parameters as [Context::Lookup] sets them on entry. *)
Definition initial_out : OutParams :=
  {| index := kNotFound; attributes := ABSENT;
     binding_flags := MISSING_BINDING |}.

(** The table [Extend] leaves behind when there is room. *)
Definition extended_in_place (t : ScriptContextTable)
    (script_context : Address) : ScriptContextTable :=
  {| used := used t + 1;
     elements := <[Z.to_nat (used t + kFirstContextSlot)
                   := heap_object script_context]> (elements t) |}.

(** The table [Extend] allocates when the old one is full. *)
Definition extended_grown (t : ScriptContextTable)
    (script_context : Address) : ScriptContextTable :=
  {| used := used t + 1;
     elements := <[Z.to_nat (used t + kFirstContextSlot)
                   := heap_object script_context]>
                   (elements t
                    ++ replicate (Z.to_nat (FixedArray_length t))
                         undefined_value) |}.

(** What the descriptor of entry [i] of a table answers for [name]. *)
Definition entry_query (h : gmap Z HeapObject) (t : ScriptContextTable)
    (name : string) (i : Z) : Result SlotLookup :=
  do context <- ScriptContextTable_GetContext t i;
  do c <- context_at h context;
  do si <- scope_info c;
  Ok (ContextSlotIndex si name).

(** Entry [i] does not declare [name]. *)
Definition entry_misses (h : gmap Z HeapObject) (t : ScriptContextTable)
    (name : string) (i : Z) : Prop :=
  exists q, entry_query h t name i = Ok q /\ sl_slot_index q < 0.

(** Entry [i] declares [name], and [r] reports just that. *)
Definition entry_matches (h : gmap Z HeapObject) (t : ScriptContextTable)
    (name : string) (i : Z) (r : LookupResult) : Prop :=
  exists q, entry_query h t name i = Ok q /\ 0 <= sl_slot_index q
            /\ r = {| context_index := i;
                      slot_index := sl_slot_index q;
                      mode := sl_mode q;
                      init_flag := sl_init_flag q;
                      maybe_assigned_flag := sl_maybe_assigned_flag q |}.

(** The context [c] with its [previous] link replaced. *)
Definition redirect (c : Context) (p : option Address) : Context :=
  {| kind := kind c;
     extension := extension c;
     previous := p;
     closure_scope_info := closure_scope_info c;
     script_context_table := script_context_table c |}.

(** The kinds of context at which phase 1 consults the extension receiver. *)
Definition objects_consulted (c : Context) (flags : Z) : bool :=
  IsNativeContext c
  || (IsWithContext c && negb (has_flag flags SKIP_WITH_CONTEXT))
  || IsFunctionContext c || IsBlockContext c.

(** [return Handle<Object>()] after a probe that failed. *)
Definition probe_failed (o : OutParams) : LookupReturn :=
  {| holder := null_handle; out := o; has_pending_exception := true |}.

(** The four ways in which a pass of the loop body at context [c], entered
    with out-parameters [o], makes [Lookup] return. *)
Inductive finish (c : Context) (name : string) (flags : Z) (o : OutParams)
  : LookupReturn -> Prop :=
  | finish_failure object :
      objects_consulted c flags = true ->
      extension_receiver c = Ok (Some object) ->
      Lookup_probe c flags object name = None ->
      finish c name flags o (probe_failed o)
  | finish_on_object object a :
      objects_consulted c flags = true ->
      extension_receiver c = Ok (Some object) ->
      Lookup_probe c flags object name = Some a ->
      a <> ABSENT ->
      finish c name flags o
        {| holder := receiver_handle object;
           out := {| index := index o; attributes := a;
                     binding_flags := binding_flags o |};
           has_pending_exception := false |}
  | finish_in_context context o' :
      finish c name flags o
        {| holder := context_handle context; out := o';
           has_pending_exception := false |}
  | finish_not_found :
      finish c name flags o (no_property_or_slot_found o).

(** The chain of [previous] links from the context at [a] reaches a native
    context, [n] contexts in all. *)
Inductive reaches_native (h : gmap Z HeapObject) : Address -> nat -> Prop :=
  | reaches_native_here a c :
      context_at h a = Ok c -> kind c = NativeContext ->
      reaches_native h a 1
  | reaches_native_on a c p n :
      context_at h a = Ok c -> previous c = Some p ->
      reaches_native h p n ->
      reaches_native h a (S n).

(** [walk h name flags follow a o b o']: the loop, entered at context [a]
    with out-parameters [o], comes round to context [b] with [o']. *)
Inductive walk (h : gmap Z HeapObject) (name : string) (flags : Z)
    (follow_context_chain : bool)
  : Address -> OutParams -> Address -> OutParams -> Prop :=
  | walk_here a o : walk h name flags follow_context_chain a o a o
  | walk_on a o p o1 b o2 :
      Lookup_iteration h a name flags follow_context_chain o
        = Ok (Advance p o1) ->
      walk h name flags follow_context_chain p o1 b o2 ->
      walk h name flags follow_context_chain a o b o2.

(** [chain h a l b]: following [previous] from the context at [a] leads to
    [b], passing the contexts [l] (from [a] on, [b] not included). *)
Inductive chain (h : gmap Z HeapObject)
  : Address -> list Address -> Address -> Prop :=
  | chain_end a : chain h a [] a
  | chain_step a c p l b :
      context_at h a = Ok c -> previous c = Some p ->
      chain h p l b ->
      chain h a (a :: l) b.

(** [linked links e l]: the list that starts with the slot value [e] and is
    threaded through [links] consists of the objects [l], in order, and ends
    with undefined. *)
Inductive linked (links : gmap Z Element) : Element -> list Address -> Prop :=
  | linked_end : linked links undefined_value []
  | linked_next a next l :
      links !! a = Some next ->
      linked links next l ->
      linked links (heap_object a) (a :: l).

(** The list [l] without the object [a]. *)
Fixpoint without (a : Address) (l : list Address) : list Address :=
  match l with
  | [] => []
  | x :: l' => if x =? a then l' else x :: without a l'
  end.

(** The pass at the context [c] stored at [a] finds nothing for [name]:
    phase 1 and phase 2 both fall through. *)
Definition yields_nothing (h : gmap Z HeapObject) (a : Address) (c : Context)
    (name : string) (flags : Z) : Prop :=
  Lookup_objects h c name flags initial_out = Ok (Continue initial_out)
  /\ Lookup_slots a c name (has_flag flags FOLLOW_CONTEXT_CHAIN) initial_out
     = Ok (Continue initial_out).

(** The modes for which [GetAttributesAndBindingFlags] has a case of its
    own. *)
Definition classified (m : VariableMode) : Prop :=
  m = VAR \/ m = LET \/ m = CONST_LEGACY \/ m = CONST.

(** Every descriptor that a lookup of [name] in the heap [h] can query
    reports a slot for [name] with a classified mode only. *)
Definition descriptors_classified (h : gmap Z HeapObject) (name : string)
  : Prop :=
  forall a c si,
    context_at h a = Ok c ->
    scope_info c = Ok si \/ si = closure_scope_info c ->
    0 <= sl_slot_index (ContextSlotIndex si name) ->
    classified (sl_mode (ContextSlotIndex si name)).

(** What the three kinds of handle that [Context::Lookup] returns come
    with. *)
Definition result_shape (r : LookupReturn) : Prop :=
  match holder r with
  | null_handle => out r = initial_out
  | receiver_handle _ =>
      index (out r) = kNotFound
      /\ binding_flags (out r) = MISSING_BINDING
      /\ attributes (out r) <> ABSENT
  | context_handle _ =>
      (0 <= index (out r) \/ index (out r) = THROWN_OBJECT_INDEX)
      /\ binding_flags (out r) <> MISSING_BINDING
      /\ (attributes (out r) = NONE \/ attributes (out r) = READ_ONLY)
  end.

End Notions.

(** * Properties *)

(** ** The binding classifier *)

Section Classifier.

Context `{HC : HeaderConstants}.

(** C5. The classifier is a total function on the modes that can reach it:
    [VAR] is read-write and always initialized whatever the flag; [LET] is
    read-write, [CONST_LEGACY] and [CONST] are read-only, each checked until
    initialized exactly when the flag is [kNeedsInitialization] and initialized
    otherwise, in the legacy and harmony variants respectively.  The other
    modes are fatal. *)
Theorem classifier_table :
  (forall i, GetAttributesAndBindingFlags VAR i
             = Ok (NONE, MUTABLE_IS_INITIALIZED))
  /\ GetAttributesAndBindingFlags LET kNeedsInitialization
     = Ok (NONE, MUTABLE_CHECK_INITIALIZED)
  /\ GetAttributesAndBindingFlags LET kCreatedInitialized
     = Ok (NONE, MUTABLE_IS_INITIALIZED)
  /\ GetAttributesAndBindingFlags CONST_LEGACY kNeedsInitialization
     = Ok (READ_ONLY, IMMUTABLE_CHECK_INITIALIZED)
  /\ GetAttributesAndBindingFlags CONST_LEGACY kCreatedInitialized
     = Ok (READ_ONLY, IMMUTABLE_IS_INITIALIZED)
  /\ GetAttributesAndBindingFlags CONST kNeedsInitialization
     = Ok (READ_ONLY, IMMUTABLE_CHECK_INITIALIZED_HARMONY)
  /\ GetAttributesAndBindingFlags CONST kCreatedInitialized
     = Ok (READ_ONLY, IMMUTABLE_IS_INITIALIZED_HARMONY)
  /\ (forall m i,
        m <> VAR -> m <> LET -> m <> CONST_LEGACY -> m <> CONST ->
        GetAttributesAndBindingFlags m i = Fatal).
Proof.
  repeat split; try reflexivity.
  intros m i ? ? ? ?. destruct m; first [reflexivity | congruence].
Qed.

End Classifier.

(** ** The script context table *)

Section TableProperties.

Context `{HC : HeaderConstants} `{SO : ScopeInfoOracle}.

Implicit Types (h : gmap Z HeapObject) (t : ScriptContextTable).

Lemma FixedArray_get_in_range t i :
  0 <= i < FixedArray_length t ->
  exists e, elements t !! Z.to_nat i = Some e /\ FixedArray_get t i = Ok e.
Proof.
  intros Hi. unfold FixedArray_get.
  destruct (elements t !! Z.to_nat i) as [e|] eqn:He.
  - exists e. split; [done|].
    replace ((0 <=? i) && (i <? FixedArray_length t)) with true; [done|].
    symmetry. apply andb_true_iff. split; [apply Z.leb_le | apply Z.ltb_lt]; lia.
  - apply lookup_ge_None in He. unfold FixedArray_length in Hi. lia.
Qed.

Lemma FixedArray_set_in_range t i e :
  0 <= i < FixedArray_length t ->
  FixedArray_set t i e
  = Ok {| used := used t; elements := <[Z.to_nat i := e]> (elements t) |}.
Proof.
  intros Hi. unfold FixedArray_set.
  replace ((0 <=? i) && (i <? FixedArray_length t)) with true; [done|].
  symmetry. apply andb_true_iff. split; [apply Z.leb_le | apply Z.ltb_lt]; lia.
Qed.

Lemma FixedArray_get_insert_eq t u i e :
  0 <= i < FixedArray_length t ->
  FixedArray_get {| used := u; elements := <[Z.to_nat i := e]> (elements t) |} i
  = Ok e.
Proof.
  intros Hi.
  destruct (FixedArray_get_in_range
              {| used := u; elements := <[Z.to_nat i := e]> (elements t) |} i)
    as (e' & He' & ->).
  - unfold FixedArray_length in *. simpl. rewrite length_insert. lia.
  - simpl in He'. rewrite list_lookup_insert_eq in He'; [congruence|].
    unfold FixedArray_length in Hi. lia.
Qed.

Lemma FixedArray_get_insert_ne t u i j e :
  i <> j -> 0 <= i ->
  FixedArray_get {| used := u; elements := <[Z.to_nat i := e]> (elements t) |} j
  = FixedArray_get t j.
Proof.
  intros Hne Hi. unfold FixedArray_get, FixedArray_length. simpl.
  rewrite length_insert.
  destruct ((0 <=? j) && (j <? Z.of_nat (length (elements t)))) eqn:Hj; [|done].
  apply andb_true_iff in Hj as [Hj1%Z.leb_le Hj2%Z.ltb_lt].
  rewrite list_lookup_insert_ne; [done|]. lia.
Qed.

Lemma CHECK_true b : b = true -> CHECK b = Ok tt.
Proof. by intros ->. Qed.

Lemma Extend_in_place_eq h table script_context t :
  h !! table = Some (script_context_table_object t) ->
  0 < kFirstContextSlot ->
  0 <= used t ->
  used t + kFirstContextSlot < FixedArray_length t ->
  ScriptContextTable_Extend h table script_context
  = Ok (table,
        <[table := script_context_table_object
                     (extended_in_place t script_context)]> h).
Proof.
  intros Ht Hk Hu Hroom.
  unfold ScriptContextTable_Extend, table_at. rewrite Ht. simpl.
  rewrite CHECK_true.
  2:{ rewrite !andb_true_iff, Z.leb_le, !Z.ltb_lt. lia. }
  simpl.
  replace (used t + kFirstContextSlot =? FixedArray_length t) with false
    by (symmetry; apply Z.eqb_neq; lia).
  simpl. rewrite Ht. simpl.
  rewrite FixedArray_set_in_range
    by (unfold FixedArray_length in *; simpl; lia).
  done.
Qed.

Lemma extended_in_place_other_slots t script_context i :
  0 <= used t + kFirstContextSlot ->
  i <> used t + kFirstContextSlot ->
  FixedArray_get (extended_in_place t script_context) i = FixedArray_get t i.
Proof. intros Hi Hne. apply FixedArray_get_insert_ne; lia. Qed.

(** C4. On a table with room left, [Extend] allocates nothing: it returns
    the handle it was given, the heap changes at that address only, entry
    [used] now holds the new script context, [used] has grown by one, and the
    backing store has the same length and the same other slots. *)
Theorem Extend_non_full_in_place h table script_context t :
  h !! table = Some (script_context_table_object t) ->
  0 < kFirstContextSlot ->
  0 <= used t ->
  used t + kFirstContextSlot < FixedArray_length t ->
  exists t',
    ScriptContextTable_Extend h table script_context
    = Ok (table, <[table := script_context_table_object t']> h)
    /\ used t' = used t + 1
    /\ FixedArray_length t' = FixedArray_length t
    /\ ScriptContextTable_GetContext t' (used t) = Ok script_context
    /\ (forall i, i <> used t + kFirstContextSlot ->
                  FixedArray_get t' i = FixedArray_get t i).
Proof.
  intros Ht Hk Hu Hroom.
  exists (extended_in_place t script_context).
  split; [by apply Extend_in_place_eq|]. split; [done|]. split; [|split].
  - unfold FixedArray_length, extended_in_place. simpl.
    by rewrite length_insert.
  - unfold ScriptContextTable_GetContext, extended_in_place.
    rewrite FixedArray_get_insert_eq by lia. done.
  - intros j Hj. apply extended_in_place_other_slots; lia.
Qed.

(** [Extend] takes no table whose [used] has reached the length of the
    backing store: the first [CHECK] fails. *)
Lemma Extend_rejects_used_at_length h table script_context t :
  h !! table = Some (script_context_table_object t) ->
  FixedArray_length t <= used t ->
  ScriptContextTable_Extend h table script_context = Fatal.
Proof.
  intros Ht Hu. unfold ScriptContextTable_Extend, table_at. rewrite Ht.
  cbn [bind].
  replace (used t <? FixedArray_length t) with false
    by (symmetry; apply Z.ltb_ge; lia).
  by rewrite andb_false_r.
Qed.

(** Nor one that is full at or above the growth ceiling. *)
Lemma Extend_rejects_growth_at_ceiling h table script_context t :
  h !! table = Some (script_context_table_object t) ->
  used t + kFirstContextSlot = FixedArray_length t ->
  Z.quot Smi_kMaxValue 2 <= FixedArray_length t ->
  ScriptContextTable_Extend h table script_context = Fatal.
Proof.
  intros Ht Hfull Hceil. unfold ScriptContextTable_Extend, table_at.
  rewrite Ht. cbn [bind]. unfold CHECK at 1.
  case_match; cbn [bind]; [|done].
  rewrite Hfull, Z.eqb_refl.
  replace (FixedArray_length t <? Z.quot Smi_kMaxValue 2) with false
    by (symmetry; apply Z.ltb_ge; lia).
  done.
Qed.

Lemma FixedArray_get_app_l t u l i :
  0 <= i < FixedArray_length t ->
  FixedArray_get {| used := u; elements := elements t ++ l |} i
  = FixedArray_get t i.
Proof.
  intros Hi.
  destruct (FixedArray_get_in_range t i Hi) as (e & He & ->).
  destruct (FixedArray_get_in_range {| used := u; elements := elements t ++ l |} i)
    as (e' & He' & ->).
  - unfold FixedArray_length in *. simpl. rewrite length_app. lia.
  - simpl in He'. rewrite lookup_app_l in He'; [congruence|].
    unfold FixedArray_length in Hi. lia.
Qed.

Lemma Extend_grown_eq h table script_context t :
  h !! table = Some (script_context_table_object t) ->
  0 < kFirstContextSlot ->
  0 <= used t ->
  used t + kFirstContextSlot = FixedArray_length t ->
  FixedArray_length t < Z.quot Smi_kMaxValue 2 ->
  ScriptContextTable_Extend h table script_context
  = Ok (fresh (dom h),
        <[fresh (dom h) := script_context_table_object
                             (extended_grown t script_context)]> h).
Proof.
  intros Ht Hk Hu Hfull Hceil.
  unfold ScriptContextTable_Extend, CopyFixedArrayAndGrow, table_at.
  rewrite Ht. simpl.
  rewrite CHECK_true.
  2:{ rewrite !andb_true_iff, Z.leb_le, !Z.ltb_lt. lia. }
  simpl. rewrite Hfull, Z.eqb_refl.
  rewrite CHECK_true by (apply Z.ltb_lt; lia).
  simpl. rewrite lookup_insert_eq. simpl.
  rewrite FixedArray_set_in_range.
  2:{ unfold FixedArray_length in *. simpl.
      rewrite length_app, length_replicate. lia. }
  simpl. rewrite insert_insert_eq. unfold extended_grown.
  by rewrite Hfull.
Qed.

Lemma extended_grown_old_slots t script_context i :
  used t + kFirstContextSlot = FixedArray_length t ->
  0 <= i < FixedArray_length t ->
  FixedArray_get (extended_grown t script_context) i = FixedArray_get t i.
Proof.
  intros Hfull Hi. unfold extended_grown.
  rewrite (FixedArray_get_insert_ne
             {| used := used t;
                elements := elements t
                            ++ replicate (Z.to_nat (FixedArray_length t))
                                 undefined_value |}) by lia.
  by apply FixedArray_get_app_l.
Qed.

(** C3. On a full table below the growth ceiling, [Extend] returns a handle
    that was not allocated before; the table behind it has at least twice
    the old length, every entry stored before is kept at its index (down to
    the slot of the backing store that holds it, from [kFirstContextSlot]
    on), entry [used] holds the new script context, and [used] has grown by
    one.  Nothing is said of the header slots, where the code keeps the
    count that it rewrites. *)
Theorem Extend_full_grows h table script_context t :
  h !! table = Some (script_context_table_object t) ->
  0 < kFirstContextSlot ->
  0 <= used t ->
  used t + kFirstContextSlot = FixedArray_length t ->
  FixedArray_length t < Z.quot Smi_kMaxValue 2 ->
  exists result t',
    ScriptContextTable_Extend h table script_context
    = Ok (result, <[result := script_context_table_object t']> h)
    /\ h !! result = None
    /\ result <> table
    /\ 2 * FixedArray_length t <= FixedArray_length t'
    /\ (forall i, kFirstContextSlot <= i < FixedArray_length t ->
                  FixedArray_get t' i = FixedArray_get t i)
    /\ (forall i, 0 <= i < used t ->
                  ScriptContextTable_GetContext t' i
                  = ScriptContextTable_GetContext t i)
    /\ ScriptContextTable_GetContext t' (used t) = Ok script_context
    /\ used t' = used t + 1.
Proof.
  intros Ht Hk Hu Hfull Hceil.
  assert (Hfresh : h !! fresh (dom h) = None).
  { apply not_elem_of_dom. apply is_fresh. }
  exists (fresh (dom h)), (extended_grown t script_context).
  split; [by apply Extend_grown_eq|]. split; [done|].
  split; [congruence|]. split; [|split; [|split; [|split]]].
  - unfold extended_grown. unfold FixedArray_length. cbn [elements].
    rewrite length_insert, length_app, length_replicate. lia.
  - intros i Hi. apply extended_grown_old_slots; [done|lia].
  - intros i Hi. unfold ScriptContextTable_GetContext.
    rewrite extended_grown_old_slots by lia. done.
  - unfold ScriptContextTable_GetContext, extended_grown.
    rewrite (FixedArray_get_insert_eq
               {| used := used t;
                  elements := elements t
                              ++ replicate (Z.to_nat (FixedArray_length t))
                                   undefined_value |}); [done|].
    unfold FixedArray_length in *. cbn [elements].
    rewrite length_app, length_replicate. lia.
  - done.
Qed.

(** The loop of [ScriptContextTable::Lookup], started at [i] with [n]
    iterations to go: what each outcome says about the entries scanned. *)
Lemma ScriptContextTable_Lookup_from_scan h t name n : forall i,
  match ScriptContextTable_Lookup_from h t name n i with
  | Ok (Some r) =>
      i <= context_index r < i + Z.of_nat n
      /\ entry_matches h t name (context_index r) r
      /\ (forall j, i <= j < context_index r -> entry_misses h t name j)
  | Ok None =>
      forall j, i <= j < i + Z.of_nat n -> entry_misses h t name j
  | Fatal =>
      exists j, i <= j < i + Z.of_nat n
                /\ entry_query h t name j = Fatal
                /\ (forall j', i <= j' < j -> entry_misses h t name j')
  | OutOfFuel => False
  end.
Proof.
  induction n as [|n IH]; intros i.
  - simpl. intros j Hj. lia.
  - cbn [ScriptContextTable_Lookup_from].
    assert (Hq : entry_query h t name i
                 = (do context <- ScriptContextTable_GetContext t i;
                    do c <- context_at h context;
                    do si <- scope_info c;
                    Ok (ContextSlotIndex si name))) by reflexivity.
    assert (Hfatal : entry_query h t name i = Fatal ->
                     exists j, i <= j < i + Z.of_nat (S n)
                               /\ entry_query h t name j = Fatal
                               /\ (forall j', i <= j' < j ->
                                              entry_misses h t name j')).
    { intros Hf. exists i. split; [lia|]. split; [done|]. intros j' Hj'. lia. }
    destruct (ScriptContextTable_GetContext t i) as [context| |] eqn:Hg;
      simpl in *; [|by auto|discriminate Hq || idtac].
    2:{ unfold ScriptContextTable_GetContext, FixedArray_get in Hg.
        repeat (match type of Hg with
                | context [match ?x with _ => _ end] => destruct x
                end; simpl in Hg; try discriminate). }
    destruct (context_at h context) as [c| |] eqn:Hc;
      simpl in *; [|by auto|].
    2:{ unfold context_at in Hc.
        repeat (match type of Hc with
                | context [match ?x with _ => _ end] => destruct x
                end; simpl in Hc; try discriminate). }
    destruct (scope_info c) as [si| |] eqn:Hsi; simpl in *; [|by auto|].
    2:{ unfold scope_info in Hsi. destruct (extension c); discriminate. }
    destruct (0 <=? sl_slot_index (ContextSlotIndex si name)) eqn:Hslot.
    + apply Z.leb_le in Hslot. simpl. split; [lia|]. split.
      * eexists. split; [exact Hq|]. split; [done|]. reflexivity.
      * intros j Hj. lia.
    + apply Z.leb_gt in Hslot.
      assert (Hmiss : entry_misses h t name i) by (eexists; eauto).
      specialize (IH (i + 1)).
      destruct (ScriptContextTable_Lookup_from h t name n (i + 1))
        as [[r|]| |].
      * destruct IH as (Hr & Hm & Hb). split; [lia|]. split; [done|].
        intros j Hj. destruct (decide (j = i)) as [->|]; [done|].
        apply Hb. lia.
      * intros j Hj. destruct (decide (j = i)) as [->|]; [done|].
        apply IH. lia.
      * destruct IH as (j & Hj & Hf & Hb). exists j. split; [lia|].
        split; [done|]. intros j' Hj'.
        destruct (decide (j' = i)) as [->|]; [done|]. apply Hb. lia.
      * done.
Qed.

(** C1. [ScriptContextTable::Lookup] scans the entries from index 0 up to
    [used] and answers with the first one whose descriptor declares the
    name: a hit reports an entry that declares it, with every earlier entry
    not declaring it; a miss means no entry declares it; the call is fatal
    only if an entry before any hit cannot be read.  So whenever an entry
    [i] declares the name, the entry reported is [i] or an earlier one,
    never a later one. *)
Theorem ScriptContextTable_Lookup_first_match h table name t :
  h !! table = Some (script_context_table_object t) ->
  match ScriptContextTable_Lookup h table name with
  | Ok (Some r) =>
      0 <= context_index r < used t
      /\ entry_matches h t name (context_index r) r
      /\ (forall j, 0 <= j < context_index r -> entry_misses h t name j)
      /\ (forall i q, 0 <= i < used t ->
                      entry_query h t name i = Ok q -> 0 <= sl_slot_index q ->
                      context_index r <= i)
  | Ok None =>
      forall j, 0 <= j < used t -> entry_misses h t name j
  | Fatal =>
      exists j, 0 <= j < used t
                /\ entry_query h t name j = Fatal
                /\ (forall j', 0 <= j' < j -> entry_misses h t name j')
  | OutOfFuel => False
  end.
Proof.
  intros Ht. unfold ScriptContextTable_Lookup, table_at. rewrite Ht. simpl.
  pose proof (ScriptContextTable_Lookup_from_scan h t name
                (Z.to_nat (used t)) 0) as Hscan.
  destruct (ScriptContextTable_Lookup_from h t name (Z.to_nat (used t)) 0)
    as [[r|]| |].
  - destruct Hscan as (Hr & Hm & Hb). split; [lia|]. split; [done|].
    split; [done|]. intros i q Hi Hq Hslot.
    destruct (Z_le_gt_dec (context_index r) i) as [|Hlt]; [done|].
    destruct (Hb i) as (q' & Hq' & Hneg); [lia|].
    rewrite Hq in Hq'. injection Hq' as ->. lia.
  - intros j Hj. apply Hscan. lia.
  - destruct Hscan as (j & Hj & Hf & Hb). exists j. split; [lia|]. done.
  - done.
Qed.

(** *** Lookup after [Extend]

    Appending a script context does not disturb what the table already
    answers: a name found before is found at the same entry afterwards,
    whatever the appended context declares. *)

Lemma ScriptContextTable_Lookup_from_agree h h' t t' name n : forall i r m,
  (forall x, context_at h' x = context_at h x) ->
  (forall j, i <= j < i + Z.of_nat n ->
             ScriptContextTable_GetContext t' j
             = ScriptContextTable_GetContext t j) ->
  ScriptContextTable_Lookup_from h t name n i = Ok (Some r) ->
  (n <= m)%nat ->
  ScriptContextTable_Lookup_from h' t' name m i = Ok (Some r).
Proof.
  induction n as [|n IH]; intros i r m Hctx Hget; [discriminate|].
  intros Hl Hm. destruct m as [|m]; [lia|].
  cbn [ScriptContextTable_Lookup_from] in *.
  rewrite Hget by lia.
  destruct (ScriptContextTable_GetContext t i) as [x| |];
    cbn [bind] in *; try discriminate.
  rewrite Hctx.
  destruct (context_at h x) as [c| |]; cbn [bind] in *; try discriminate.
  destruct (scope_info c) as [si| |]; cbn [bind] in *; try discriminate.
  destruct (0 <=? sl_slot_index (ContextSlotIndex si name)); [done|].
  apply IH; [done| |done|lia].
  intros j Hj. apply Hget. lia.
Qed.

(** X4. Appending a script context never changes an answer the table
    already gave: a name found at some entry before [Extend] is found at the
    same entry, with the same slot, mode and flags, in the table [Extend]
    returns, whatever the appended context declares. *)
Lemma Extend_keeps_earlier_match h table script_context t name r table' h' :
  h !! table = Some (script_context_table_object t) ->
  0 < kFirstContextSlot ->
  0 <= used t ->
  ScriptContextTable_Extend h table script_context = Ok (table', h') ->
  ScriptContextTable_Lookup h table name = Ok (Some r) ->
  ScriptContextTable_Lookup h' table' name = Ok (Some r).
Proof.
  intros Ht Hk Hu He Hl.
  assert (Hcases :
    exists t',
      h' = <[table' := script_context_table_object t']> h
      /\ (h !! table' = None \/ table' = table)
      /\ used t' = used t + 1
      /\ (forall i, 0 <= i < used t ->
                    ScriptContextTable_GetContext t' i
                    = ScriptContextTable_GetContext t i)).
  { destruct (Z.lt_total (used t + kFirstContextSlot) (FixedArray_length t))
      as [Hlt|[Heq|Hgt]].
    - rewrite (Extend_in_place_eq h table script_context t) in He by done.
      injection He as <- <-.
      exists (extended_in_place t script_context). repeat split; auto.
      intros i Hi. unfold ScriptContextTable_GetContext.
      rewrite extended_in_place_other_slots by lia. done.
    - destruct (Z_lt_le_dec (FixedArray_length t) (Z.quot Smi_kMaxValue 2))
        as [Hceil|Hceil].
      + rewrite (Extend_grown_eq h table script_context t) in He by done.
        injection He as <- <-.
        exists (extended_grown t script_context).
        split; [done|]. split.
        { left. apply not_elem_of_dom. apply is_fresh. }
        split; [done|].
        intros i Hi. unfold ScriptContextTable_GetContext.
        rewrite extended_grown_old_slots by lia. done.
      + rewrite (Extend_rejects_growth_at_ceiling h table script_context t)
          in He by done.
        discriminate.
    - exfalso. revert He. unfold ScriptContextTable_Extend, table_at.
      rewrite Ht. cbn [bind]. unfold CHECK at 1. case_match; [|done].
      cbn [bind].
      replace (used t + kFirstContextSlot =? FixedArray_length t) with false
        by (symmetry; apply Z.eqb_neq; lia).
      cbn [bind]. rewrite Ht. cbn [bind].
      unfold FixedArray_set.
      replace (used t + kFirstContextSlot
               <? FixedArray_length (set_used t (used t + 1))) with false
        by (symmetry; apply Z.ltb_ge; unfold FixedArray_length in *;
            simpl; lia).
      by rewrite andb_false_r. }
  destruct Hcases as (t' & -> & Hwhere & Hused & Hold).
  assert (Hctx : forall x,
            context_at (<[table' := script_context_table_object t']> h) x
            = context_at h x).
  { intros x. unfold context_at. rewrite lookup_insert.
    case_decide as Hx; [|done]. subst x.
    destruct Hwhere as [->| ->]; [done|by rewrite Ht]. }
  unfold ScriptContextTable_Lookup, table_at in *.
  rewrite lookup_insert_eq. rewrite Ht in Hl. cbn [bind] in *.
  eapply ScriptContextTable_Lookup_from_agree; [done| |done|lia].
  intros j Hj. apply Hold. lia.
Qed.

End TableProperties.

(** ** The resolver *)

Section ResolverProperties.

Context `{HC : HeaderConstants} `{SO : ScopeInfoOracle} `{OM : ObjectModel}.

Implicit Types (h : gmap Z HeapObject) (c : Context) (o : OutParams).

Lemma context_at_Some h a c :
  h !! a = Some (context_object c) -> context_at h a = Ok c.
Proof. unfold context_at. by intros ->. Qed.

Lemma context_at_Ok h a c :
  context_at h a = Ok c -> h !! a = Some (context_object c).
Proof.
  unfold context_at. destruct (h !! a) as [[c'|t]|]; try discriminate.
  by intros [= ->].
Qed.

(** Rewriting the kind tests of a context whose kind is known. *)
Ltac kind_tests Hk :=
  unfold IsNativeContext, IsScriptContext, IsFunctionContext, IsBlockContext,
    IsWithContext, IsCatchContext in *;
  rewrite ?Hk in *;
  repeat match goal with
    | |- context [bool_decide (?x = ?y)] =>
        first [ rewrite (bool_decide_eq_true_2 (x = y)) by reflexivity
              | rewrite (bool_decide_eq_false_2 (x = y)) by discriminate ]
    | H : context [bool_decide (?x = ?y)] |- _ =>
        first [ rewrite (bool_decide_eq_true_2 (x = y)) in H by reflexivity
              | rewrite (bool_decide_eq_false_2 (x = y)) in H by discriminate ]
    end.

Lemma is_declaration_context_kind c :
  is_declaration_context c =
  match kind c with
  | FunctionContext | NativeContext | ScriptContext => Ok true
  | BlockContext =>
      match extension c with
      | ext_SloppyBlockWithEvalContextExtension _ _ => Ok true
      | ext_ScopeInfo si => Ok (is_declaration_scope si)
      | _ => Fatal
      end
  | _ => Ok false
  end.
Proof.
  unfold is_declaration_context, IsFunctionContext, IsNativeContext,
    IsScriptContext, IsBlockContext.
  destruct (kind c); reflexivity.
Qed.

Lemma Lookup_iteration_phases h a c name flags follow o :
  context_at h a = Ok c ->
  Lookup_iteration h a name flags follow o =
  do s <- Lookup_objects h c name flags o;
  match s with
  | Return r => Ok (Finished r)
  | Continue o =>
      do s <- Lookup_slots a c name follow o;
      match s with
      | Return r => Ok (Finished r)
      | Continue o => Lookup_continuation c flags follow o
      end
  end.
Proof. intros Hc. unfold Lookup_iteration. rewrite Hc. reflexivity. Qed.

(** A context that is neither native nor a declaration context lets the walk
    through when the chain is followed, and ends it otherwise. *)
Lemma Lookup_continuation_passes c flags follow o :
  kind c <> NativeContext ->
  is_declaration_context c = Ok false ->
  Lookup_continuation c flags follow o =
  if follow
  then match previous c with
       | Some p => Ok (Advance p o)
       | None => Fatal
       end
  else Ok (Finished (no_property_or_slot_found o)).
Proof.
  intros Hk Hd. unfold Lookup_continuation, Lookup_stops, IsNativeContext.
  rewrite bool_decide_eq_false_2 by done. rewrite Hd.
  destruct (has_flag flags STOP_AT_DECLARATION_SCOPE); reflexivity.
Qed.

Lemma String_eqb_neq_false (s1 s2 : string) : s1 <> s2 -> String.eqb s1 s2 = false.
Proof. intros Hne. by apply String.eqb_neq. Qed.

(** The loop body at a catch context. *)
Lemma Lookup_iteration_catch h a c cn name flags follow o :
  h !! a = Some (context_object c) ->
  kind c = CatchContext ->
  extension c = ext_String cn ->
  Lookup_iteration h a name flags follow o =
  if String.eqb name cn
  then Ok (Finished {| holder := context_handle a;
                       out := {| index := THROWN_OBJECT_INDEX;
                                 attributes := NONE;
                                 binding_flags := MUTABLE_IS_INITIALIZED |};
                       has_pending_exception := false |})
  else if follow
       then match previous c with
            | Some p => Ok (Advance p o)
            | None => Fatal
            end
       else Ok (Finished (no_property_or_slot_found o)).
Proof.
  intros Ha Hk Hext.
  rewrite (Lookup_iteration_phases h a c) by by apply context_at_Some.
  unfold Lookup_objects, Lookup_slots, catch_name. kind_tests Hk.
  rewrite Hext. cbn [orb andb bind].
  destruct (String.eqb name cn); [done|].
  apply Lookup_continuation_passes.
  - congruence.
  - rewrite is_declaration_context_kind, Hk. done.
Qed.

(** C8. A catch context answers for its bound name only: looked up there,
    that name resolves to the context itself at the thrown-object slot,
    read-write and always initialized.  For any other name the catch context
    yields nothing and the walk goes on at the enclosing context: with the
    chain followed, the lookup is the lookup started at [previous]. *)
Theorem Lookup_catch_context fuel h a c cn name flags :
  h !! a = Some (context_object c) ->
  kind c = CatchContext ->
  extension c = ext_String cn ->
  (name = cn ->
   Context_Lookup (S fuel) h a name flags
   = Ok {| holder := context_handle a;
           out := {| index := THROWN_OBJECT_INDEX;
                     attributes := NONE;
                     binding_flags := MUTABLE_IS_INITIALIZED |};
           has_pending_exception := false |})
  /\ (name <> cn ->
      has_flag flags FOLLOW_CONTEXT_CHAIN = true ->
      forall p, previous c = Some p ->
      Context_Lookup (S fuel) h a name flags
      = Context_Lookup fuel h p name flags)
  /\ (name <> cn ->
      has_flag flags FOLLOW_CONTEXT_CHAIN = false ->
      Context_Lookup (S fuel) h a name flags
      = Ok (no_property_or_slot_found initial_out)).
Proof.
  intros Ha Hk Hext. unfold Context_Lookup. cbn [Lookup_loop].
  rewrite (Lookup_iteration_catch h a c cn) by done.
  split; [|split].
  - intros ->. by rewrite String.eqb_refl.
  - intros Hne Hf p Hp. rewrite String_eqb_neq_false, Hf, Hp by done. done.
  - intros Hne Hf. rewrite String_eqb_neq_false, Hf by done. done.
Qed.

(** The loop body at a with context when with contexts are to be skipped:
    neither the subject nor the object model is consulted. *)
Lemma Lookup_iteration_skips_with h a c name flags follow o :
  h !! a = Some (context_object c) ->
  kind c = WithContext ->
  has_flag flags SKIP_WITH_CONTEXT = true ->
  Lookup_iteration h a name flags follow o =
  if follow
  then match previous c with
       | Some p => Ok (Advance p o)
       | None => Fatal
       end
  else Ok (Finished (no_property_or_slot_found o)).
Proof.
  intros Ha Hk Hskip.
  rewrite (Lookup_iteration_phases h a c) by by apply context_at_Some.
  unfold Lookup_objects, Lookup_slots. kind_tests Hk.
  rewrite Hskip. cbn [orb andb negb bind].
  apply Lookup_continuation_passes.
  - congruence.
  - rewrite is_declaration_context_kind, Hk. done.
Qed.

(** C10. A block context whose extension is a plain descriptor has no
    extension object, so phase 1 falls through untouched whatever the name,
    the flags and the object model; a pass of the loop body at such a
    context can only come back with a binding found by the descriptor, in a
    slot of the context itself. *)
Theorem Lookup_block_plain_descriptor h a c si :
  h !! a = Some (context_object c) ->
  kind c = BlockContext ->
  extension c = ext_ScopeInfo si ->
  extension_object c = Ok None
  /\ extension_receiver c = Ok None
  /\ (forall name flags o,
        Lookup_objects h c name flags o = Ok (Continue o))
  /\ (forall name flags follow o r,
        Lookup_iteration h a name flags follow o = Ok (Finished r) ->
        holder r <> null_handle ->
        0 <= sl_slot_index (ContextSlotIndex si name)
        /\ holder r = context_handle a
        /\ index (out r) = sl_slot_index (ContextSlotIndex si name)
        /\ GetAttributesAndBindingFlags
             (sl_mode (ContextSlotIndex si name))
             (sl_init_flag (ContextSlotIndex si name))
           = Ok (attributes (out r), binding_flags (out r))
        /\ has_pending_exception r = false).
Proof.
  intros Ha Hk Hext.
  assert (Hobj : extension_object c = Ok None).
  { unfold extension_object. kind_tests Hk. by rewrite Hext. }
  assert (Hrec : extension_receiver c = Ok None).
  { unfold extension_receiver. kind_tests Hk. done. }
  assert (Hph1 : forall name flags o,
             Lookup_objects h c name flags o = Ok (Continue o)).
  { intros. unfold Lookup_objects. rewrite Hrec. kind_tests Hk.
    rewrite !orb_true_r. done. }
  split; [done|]. split; [done|]. split; [done|].
  intros name flags follow o r Hit Hnn.
  rewrite (Lookup_iteration_phases h a c) in Hit by by apply context_at_Some.
  rewrite Hph1 in Hit. cbn [bind] in Hit.
  unfold Lookup_slots, scope_info in Hit. kind_tests Hk.
  rewrite Hext in Hit. cbn [orb andb bind] in Hit.
  destruct (0 <=? sl_slot_index (ContextSlotIndex si name)) eqn:Hslot.
  - apply Z.leb_le in Hslot.
    destruct (GetAttributesAndBindingFlags _ _) as [[at' bf]| |];
      cbn [bind] in Hit; try discriminate.
    injection Hit as <-. done.
  - rewrite andb_false_r in Hit. cbn [bind] in Hit.
    unfold Lookup_continuation in Hit.
    destruct (Lookup_stops c flags) as [[|]| |]; cbn [bind] in Hit;
      try discriminate.
    + injection Hit as <-. done.
    + destruct follow; [destruct (previous c)|]; try discriminate.
      injection Hit as <-. done.
Qed.

(** *** How the phases end *)

Lemma OutParams_eta o :
  {| index := index o; attributes := attributes o;
     binding_flags := binding_flags o |} = o.
Proof. by destruct o. Qed.

Lemma Lookup_objects_ends h c name flags o s :
  Lookup_objects h c name flags o = Ok s ->
  attributes o = ABSENT ->
  match s with
  | Continue o' => o' = o
  | Return r => finish c name flags o r
  end.
Proof.
  unfold Lookup_objects. fold (objects_consulted c flags).
  destruct (objects_consulted c flags) eqn:Hcons.
  2:{ intros [= <-] _. done. }
  destruct (extension_receiver c) as [[object|]| |] eqn:Hrec;
    cbn [bind]; try discriminate.
  2:{ intros [= <-] _. done. }
  destruct (if IsNativeContext c then _ else _) as [[r|]| |];
    cbn [bind]; try discriminate.
  - destruct (GetAttributesAndBindingFlags _ _) as [[a b]| |];
      cbn [bind]; try discriminate.
    destruct (table_at _ _) as [t| |]; cbn [bind]; try discriminate.
    destruct (ScriptContextTable_GetContext _ _) as [found| |];
      cbn [bind]; try discriminate.
    intros [= <-] _. constructor.
  - destruct (Lookup_probe c flags object name) as [a|] eqn:Hprobe.
    + destruct (a =? ABSENT) eqn:Ha; cbn [negb].
      * apply Z.eqb_eq in Ha. intros [= <-] Ho. subst a.
        rewrite <- Ho. apply OutParams_eta.
      * apply Z.eqb_neq in Ha. intros [= <-] _.
        by eapply finish_on_object.
    + intros [= <-] _. by eapply finish_failure.
Qed.

Lemma Lookup_slots_ends a c name follow o s :
  Lookup_slots a c name follow o = Ok s ->
  match s with
  | Continue o' => o' = o
  | Return r => exists o', r = {| holder := context_handle a; out := o';
                                  has_pending_exception := false |}
  end.
Proof.
  unfold Lookup_slots.
  destruct (IsFunctionContext c || IsBlockContext c || IsScriptContext c).
  - destruct (if IsFunctionContext c then _ else _) as [si| |];
      cbn [bind]; try discriminate.
    destruct (0 <=? sl_slot_index (ContextSlotIndex si name)).
    + destruct (GetAttributesAndBindingFlags _ _) as [[at' bf]| |];
        cbn [bind]; try discriminate.
      intros [= <-]. eauto.
    + destruct (follow && IsFunctionContext c).
      * destruct (FunctionContextSlotIndex si name) as [fi m].
        destruct (0 <=? fi); intros [= <-]; eauto.
      * intros [= <-]. done.
  - destruct (IsCatchContext c).
    + destruct (catch_name c) as [cn| |]; cbn [bind]; try discriminate.
      destruct (String.eqb name cn); intros [= <-]; eauto.
    + intros [= <-]. done.
Qed.

Lemma Lookup_continuation_ends c flags follow o it :
  Lookup_continuation c flags follow o = Ok it ->
  match it with
  | Finished r => r = no_property_or_slot_found o
  | Advance p o' =>
      o' = o /\ previous c = Some p /\ follow = true
      /\ Lookup_stops c flags = Ok false
  end.
Proof.
  unfold Lookup_continuation.
  destruct (Lookup_stops c flags) as [[|]| |]; cbn [bind]; try discriminate.
  - intros [= <-]. done.
  - destruct follow; [destruct (previous c)|]; try discriminate;
      intros [= <-]; done.
Qed.

(** A pass of the loop body, entered with [*attributes] absent, either makes
    [Lookup] return in one of the four ways or goes on at [previous] with the
    out-parameters unchanged. *)
Lemma Lookup_iteration_ends h a name flags follow o it :
  Lookup_iteration h a name flags follow o = Ok it ->
  attributes o = ABSENT ->
  exists c, context_at h a = Ok c /\
    match it with
    | Finished r => finish c name flags o r
    | Advance p o' =>
        o' = o /\ previous c = Some p /\ follow = true
        /\ Lookup_stops c flags = Ok false
    end.
Proof.
  intros Hit Ho.
  destruct (context_at h a) as [c| |] eqn:Hc;
    [|unfold Lookup_iteration in Hit; rewrite Hc in Hit; discriminate..].
  exists c. split; [done|].
  rewrite (Lookup_iteration_phases h a c) in Hit by done.
  destruct (Lookup_objects h c name flags o) as [s1| |] eqn:H1;
    cbn [bind] in Hit; try discriminate.
  apply Lookup_objects_ends in H1; [|done].
  destruct s1 as [r1|o1].
  { injection Hit as <-. done. }
  subst o1.
  destruct (Lookup_slots a c name follow o) as [s2| |] eqn:H2;
    cbn [bind] in Hit; try discriminate.
  apply Lookup_slots_ends in H2.
  destruct s2 as [r2|o2].
  { injection Hit as <-. destruct H2 as [o' ->]. constructor. }
  subst o2.
  apply Lookup_continuation_ends in Hit.
  destruct it as [r|p o'].
  - subst r. constructor.
  - done.
Qed.

(** *** Walks and fuel *)

Lemma walk_out h name flags follow a o b o' :
  walk h name flags follow a o b o' -> attributes o = ABSENT -> o' = o.
Proof.
  induction 1 as [|a o p o1 b o2 Hit _ IH]; [done|].
  intros Ho. apply Lookup_iteration_ends in Hit as (c & _ & -> & _); auto.
Qed.

Lemma walk_snoc h name flags follow a o b o1 p o2 :
  walk h name flags follow a o b o1 ->
  Lookup_iteration h b name flags follow o1 = Ok (Advance p o2) ->
  walk h name flags follow a o p o2.
Proof.
  induction 1; intros Hit.
  - eapply walk_on; [done|]. constructor.
  - eapply walk_on; [done|]. auto.
Qed.

(** A lookup that returns did so in the pass at the last context of a
    walk. *)
Lemma Lookup_loop_returns_at fuel h name flags follow : forall a o r,
  Lookup_loop fuel h a name flags follow o = Ok r ->
  exists b o',
    walk h name flags follow a o b o'
    /\ Lookup_iteration h b name flags follow o' = Ok (Finished r).
Proof.
  induction fuel as [|fuel IH]; intros a o r; [discriminate|].
  cbn [Lookup_loop].
  destruct (Lookup_iteration h a name flags follow o) as [[r'|p o1]| |] eqn:Hit;
    cbn [bind]; try discriminate.
  - intros [= ->]. exists a, o. split; [constructor|done].
  - intros (b & o' & Hw & Hb)%IH. exists b, o'. split; [|done].
    by eapply walk_on.
Qed.


(** More fuel does not change a result. *)
Lemma Lookup_loop_fuel_mono fuel h name flags follow : forall a o r fuel',
  Lookup_loop fuel h a name flags follow o = Ok r ->
  (fuel <= fuel')%nat ->
  Lookup_loop fuel' h a name flags follow o = Ok r.
Proof.
  induction fuel as [|fuel IH]; intros a o r fuel'; [discriminate|].
  intros Hl Hf. destruct fuel' as [|fuel']; [lia|].
  cbn [Lookup_loop] in *.
  destruct (Lookup_iteration h a name flags follow o) as [[r'|p o1]| |];
    cbn [bind] in *; try discriminate; [done|].
  apply IH; [done|lia].
Qed.

(** What a returning [Context::Lookup] went through: a walk from [this] to
    some context, at which the pass returned in one of the four ways. *)
Lemma Context_Lookup_returns fuel h this name flags r :
  Context_Lookup fuel h this name flags = Ok r ->
  exists b c,
    walk h name flags (has_flag flags FOLLOW_CONTEXT_CHAIN)
      this initial_out b initial_out
    /\ context_at h b = Ok c
    /\ Lookup_iteration h b name flags (has_flag flags FOLLOW_CONTEXT_CHAIN)
         initial_out = Ok (Finished r)
    /\ finish c name flags initial_out r.
Proof.
  unfold Context_Lookup. fold initial_out.
  intros (b & o' & Hw & Hb)%Lookup_loop_returns_at.
  pose proof (walk_out _ _ _ _ _ _ _ _ Hw eq_refl) as ->.
  destruct (Lookup_iteration_ends _ _ _ _ _ _ _ Hb eq_refl) as (c & Hc & Hfin).
  by exists b, c.
Qed.

(** *** Failure and not-found *)


(** Each call [UnscopableLookup] makes into the object model hands its
    failure on. *)
Lemma UnscopableLookup_hands_on_failure object name :
  (JSReceiver_GetPropertyAttributes object name = None ->
   UnscopableLookup object name = None)
  /\ (forall attrs,
        JSReceiver_GetPropertyAttributes object name = Some attrs ->
        attrs <> ABSENT ->
        Object_GetProperty_unscopables object = None ->
        UnscopableLookup object name = None)
  /\ (forall attrs unscopables,
        JSReceiver_GetPropertyAttributes object name = Some attrs ->
        attrs <> ABSENT ->
        Object_GetProperty_unscopables object = Some unscopables ->
        IsSpecObject unscopables = true ->
        Object_GetProperty unscopables name = None ->
        UnscopableLookup object name = None).
Proof.
  unfold UnscopableLookup. split; [|split].
  - by intros ->.
  - intros attrs -> Ha ->.
    by replace (attrs =? ABSENT) with false by (symmetry; by apply Z.eqb_neq).
  - intros attrs unscopables -> Ha -> -> ->.
    by replace (attrs =? ABSENT) with false by (symmetry; by apply Z.eqb_neq).
Qed.







(** *** Skipping with contexts *)

(** C6. With [SKIP_WITH_CONTEXT] set, the pass at a with context consults
    neither its subject nor the object model: it goes straight on to
    [previous] when the chain is followed and ends the walk otherwise.  An
    object returned by the lookup is therefore never taken from a with
    context: it is the extension receiver of a context on the walk that is
    not a with context, and an object that the heap knows only as the subject
    of with contexts is never returned. *)
Theorem Lookup_skip_with fuel h this name flags :
  has_flag flags SKIP_WITH_CONTEXT = true ->
  (forall a c follow o,
     h !! a = Some (context_object c) ->
     kind c = WithContext ->
     Lookup_iteration h a name flags follow o =
     if follow
     then match previous c with
          | Some p => Ok (Advance p o)
          | None => Fatal
          end
     else Ok (Finished (no_property_or_slot_found o)))
  /\ (forall r object,
        Context_Lookup fuel h this name flags = Ok r ->
        holder r = receiver_handle object ->
        exists b c,
          walk h name flags (has_flag flags FOLLOW_CONTEXT_CHAIN)
            this initial_out b initial_out
          /\ h !! b = Some (context_object c)
          /\ kind c <> WithContext
          /\ extension_receiver c = Ok (Some object))
  /\ (forall r subject,
        Context_Lookup fuel h this name flags = Ok r ->
        (forall b c, h !! b = Some (context_object c) ->
                     extension_receiver c = Ok (Some subject) ->
                     kind c = WithContext) ->
        holder r <> receiver_handle subject).
Proof.
  intros Hskip.
  assert (Hfrom : forall r object,
            Context_Lookup fuel h this name flags = Ok r ->
            holder r = receiver_handle object ->
            exists b c,
              walk h name flags (has_flag flags FOLLOW_CONTEXT_CHAIN)
                this initial_out b initial_out
              /\ h !! b = Some (context_object c)
              /\ kind c <> WithContext
              /\ extension_receiver c = Ok (Some object)).
  { intros r object (b & c & Hw & Hc & _ & Hfin)%Context_Lookup_returns Hr.
    exists b, c. split; [done|]. split; [by apply context_at_Ok|].
    destruct Hfin as [| object' a Hcons Hrec _ _ | |]; try discriminate.
    injection Hr as ->. split; [|done].
    intros Hk. unfold objects_consulted in Hcons. kind_tests Hk.
    rewrite Hskip in Hcons. discriminate. }
  split; [|split; [done|]].
  - intros a c follow o Ha Hk. by apply Lookup_iteration_skips_with.
  - intros r subject Hr Honly Hh.
    destruct (Hfrom r subject Hr Hh) as (b & c & _ & Hb & Hk & Hrec).
    apply Hk. by eapply Honly.
Qed.

(** *** The loop body never runs out of fuel *)

Lemma bind_not_OutOfFuel {A B} (m : Result A) (f : A -> Result B) :
  m <> OutOfFuel -> (forall a, f a <> OutOfFuel) ->
  (do x <- m; f x) <> OutOfFuel.
Proof. intros Hm Hf. destruct m; cbn [bind]; [apply Hf|done|done]. Qed.

Lemma context_at_not_OutOfFuel h a : context_at h a <> OutOfFuel.
Proof. unfold context_at. by repeat case_match. Qed.

Lemma table_at_not_OutOfFuel h a : table_at h a <> OutOfFuel.
Proof. unfold table_at. by repeat case_match. Qed.

Lemma is_declaration_context_not_OutOfFuel c :
  is_declaration_context c <> OutOfFuel.
Proof. unfold is_declaration_context. by repeat case_match. Qed.

Lemma extension_receiver_not_OutOfFuel c : extension_receiver c <> OutOfFuel.
Proof.
  unfold extension_receiver, extension_object. by repeat case_match.
Qed.

Lemma GetContext_not_OutOfFuel t i :
  ScriptContextTable_GetContext t i <> OutOfFuel.
Proof.
  unfold ScriptContextTable_GetContext, FixedArray_get.
  repeat case_match; cbn [bind]; by repeat case_match.
Qed.

Lemma GetAttributesAndBindingFlags_not_OutOfFuel m i :
  GetAttributesAndBindingFlags m i <> OutOfFuel.
Proof. by destruct m. Qed.

Lemma ScriptContextTable_Lookup_not_OutOfFuel h table name :
  ScriptContextTable_Lookup h table name <> OutOfFuel.
Proof.
  unfold ScriptContextTable_Lookup.
  apply bind_not_OutOfFuel; [apply table_at_not_OutOfFuel|].
  intros t Hout.
  pose proof (ScriptContextTable_Lookup_from_scan h t name
                (Z.to_nat (used t)) 0) as Hscan.
  by rewrite Hout in Hscan.
Qed.

Lemma Lookup_objects_not_OutOfFuel h c name flags o :
  Lookup_objects h c name flags o <> OutOfFuel.
Proof.
  unfold Lookup_objects. case_match; [|done].
  apply bind_not_OutOfFuel; [apply extension_receiver_not_OutOfFuel|].
  intros [object|]; [|done].
  apply bind_not_OutOfFuel.
  { case_match; [apply ScriptContextTable_Lookup_not_OutOfFuel|done]. }
  intros [r|].
  - apply bind_not_OutOfFuel;
      [apply GetAttributesAndBindingFlags_not_OutOfFuel|].
    intros [a b].
    apply bind_not_OutOfFuel; [apply table_at_not_OutOfFuel|]. intros t.
    apply bind_not_OutOfFuel; [apply GetContext_not_OutOfFuel|]. done.
  - by repeat case_match.
Qed.

Lemma Lookup_slots_not_OutOfFuel a c name follow o :
  Lookup_slots a c name follow o <> OutOfFuel.
Proof.
  unfold Lookup_slots. case_match.
  - apply bind_not_OutOfFuel.
    { unfold scope_info. by repeat case_match. }
    intros si. case_match.
    + apply bind_not_OutOfFuel;
        [apply GetAttributesAndBindingFlags_not_OutOfFuel|].
      by intros [a' b].
    + by repeat case_match.
  - case_match; [|done].
    apply bind_not_OutOfFuel.
    { unfold catch_name. by repeat case_match. }
    intros cn. by case_match.
Qed.

Lemma Lookup_continuation_not_OutOfFuel c flags follow o :
  Lookup_continuation c flags follow o <> OutOfFuel.
Proof.
  unfold Lookup_continuation. apply bind_not_OutOfFuel.
  - unfold Lookup_stops. repeat case_match; try done.
    apply is_declaration_context_not_OutOfFuel.
  - intros stop. by repeat case_match.
Qed.

Lemma Lookup_iteration_not_OutOfFuel h a name flags follow o :
  Lookup_iteration h a name flags follow o <> OutOfFuel.
Proof.
  unfold Lookup_iteration.
  apply bind_not_OutOfFuel; [apply context_at_not_OutOfFuel|]. intros c.
  apply bind_not_OutOfFuel; [apply Lookup_objects_not_OutOfFuel|].
  intros [r|o1]; [done|].
  apply bind_not_OutOfFuel; [apply Lookup_slots_not_OutOfFuel|].
  intros [r|o2]; [done|].
  apply Lookup_continuation_not_OutOfFuel.
Qed.

(** *** Stopping at the declaration context *)

Lemma declaration_context_is_declaration n h : forall a d,
  declaration_context n h a = Ok d ->
  exists c, context_at h d = Ok c /\ is_declaration_context c = Ok true.
Proof.
  induction n as [|n IH]; intros a d; [discriminate|].
  cbn [declaration_context].
  destruct (context_at h a) as [c| |] eqn:Hc; cbn [bind]; try discriminate.
  destruct (is_declaration_context c) as [[|]| |] eqn:Hd;
    cbn [bind]; try discriminate.
  - intros [= <-]. eauto.
  - destruct (previous c) as [p|]; [apply IH|discriminate].
Qed.

Lemma Lookup_stops_declaration c flags :
  has_flag flags STOP_AT_DECLARATION_SCOPE = true ->
  is_declaration_context c = Ok true ->
  Lookup_stops c flags = Ok true.
Proof.
  intros Hstop Hd. unfold Lookup_stops. rewrite Hstop, Hd. by case_match.
Qed.

Lemma Lookup_iteration_advances_to_previous h a name flags follow o p o' :
  Lookup_iteration h a name flags follow o = Ok (Advance p o') ->
  exists c, context_at h a = Ok c /\ previous c = Some p
            /\ Lookup_stops c flags = Ok false.
Proof.
  intros Hit.
  destruct (context_at h a) as [c| |] eqn:Hc;
    [|unfold Lookup_iteration in Hit; rewrite Hc in Hit; discriminate..].
  exists c. split; [done|].
  rewrite (Lookup_iteration_phases h a c) in Hit by done.
  destruct (Lookup_objects h c name flags o) as [[r1|o1]| |];
    cbn [bind] in Hit; try discriminate.
  destruct (Lookup_slots a c name follow o1) as [[r2|o2]| |];
    cbn [bind] in Hit; try discriminate.
  apply Lookup_continuation_ends in Hit. tauto.
Qed.

(** With [STOP_AT_DECLARATION_SCOPE] set, the pass at a declaration context
    is the last one. *)
Lemma Lookup_iteration_stops_at_declaration h d c name flags follow o it :
  has_flag flags STOP_AT_DECLARATION_SCOPE = true ->
  context_at h d = Ok c ->
  is_declaration_context c = Ok true ->
  Lookup_iteration h d name flags follow o = Ok it ->
  exists r, it = Finished r.
Proof.
  intros Hstop Hc Hd Hit. destruct it as [r|p o']; [eauto|].
  apply Lookup_iteration_advances_to_previous in Hit as (c' & Hc' & _ & Hs).
  rewrite Hc in Hc'. injection Hc' as <-.
  rewrite Lookup_stops_declaration in Hs by done. discriminate.
Qed.

Section Redirect.

(** The heap [h] in which the declaration context at [d] has its [previous]
    link replaced by [p']. *)
Variables (h : gmap Z HeapObject) (d : Address) (cd : Context)
  (p' : option Address).
Hypothesis Hd : h !! d = Some (context_object cd).

Local Abbreviation h' := (<[d := context_object (redirect cd p')]> h).

Lemma context_at_redirect x :
  context_at h' x
  = if decide (x = d) then Ok (redirect cd p') else context_at h x.
Proof.
  unfold context_at. rewrite lookup_insert.
  destruct (decide (d = x)) as [->|Hne]; case_decide; congruence.
Qed.

Lemma table_at_redirect x : table_at h' x = table_at h x.
Proof.
  unfold table_at. rewrite lookup_insert.
  destruct (decide (d = x)) as [<-|Hne]; [by rewrite Hd|done].
Qed.

Lemma ScriptContextTable_Lookup_from_redirect t name n : forall i,
  ScriptContextTable_Lookup_from h' t name n i
  = ScriptContextTable_Lookup_from h t name n i.
Proof.
  induction n as [|n IH]; intros i; [done|].
  cbn [ScriptContextTable_Lookup_from].
  destruct (ScriptContextTable_GetContext t i) as [x| |]; cbn [bind]; try done.
  rewrite context_at_redirect. case_decide as Hx.
  - subst x. rewrite (context_at_Some h d cd) by done. cbn [bind].
    change (scope_info (redirect cd p')) with (scope_info cd).
    destruct (scope_info cd); cbn [bind]; try done.
    case_match; [done|apply IH].
  - destruct (context_at h x) as [c| |]; cbn [bind]; try done.
    destruct (scope_info c); cbn [bind]; try done.
    case_match; [done|apply IH].
Qed.

Lemma ScriptContextTable_Lookup_redirect table name :
  ScriptContextTable_Lookup h' table name
  = ScriptContextTable_Lookup h table name.
Proof.
  unfold ScriptContextTable_Lookup. rewrite table_at_redirect.
  destruct (table_at h table); cbn [bind]; [|done..].
  apply ScriptContextTable_Lookup_from_redirect.
Qed.

Lemma Lookup_objects_redirect c name flags o :
  Lookup_objects h' c name flags o = Lookup_objects h c name flags o.
Proof.
  unfold Lookup_objects.
  rewrite ScriptContextTable_Lookup_redirect, table_at_redirect. done.
Qed.

Lemma Lookup_iteration_redirect_other x name flags follow o :
  x <> d ->
  Lookup_iteration h' x name flags follow o
  = Lookup_iteration h x name flags follow o.
Proof.
  intros Hx. unfold Lookup_iteration.
  rewrite context_at_redirect. case_decide; [done|].
  destruct (context_at h x) as [c| |]; cbn [bind]; [|done..].
  by rewrite Lookup_objects_redirect.
Qed.

Lemma Lookup_iteration_redirect_at name flags follow o :
  Lookup_stops cd flags = Ok true ->
  Lookup_iteration h' d name flags follow o
  = Lookup_iteration h d name flags follow o.
Proof.
  intros Hs. unfold Lookup_iteration.
  rewrite context_at_redirect, (context_at_Some h d cd) by done.
  case_decide; [|done]. cbn [bind].
  rewrite Lookup_objects_redirect.
  change (Lookup_objects h (redirect cd p') name flags o)
    with (Lookup_objects h cd name flags o).
  destruct (Lookup_objects h cd name flags o) as [[r1|o1]| |];
    cbn [bind]; try done.
  change (Lookup_slots d (redirect cd p') name follow o1)
    with (Lookup_slots d cd name follow o1).
  destruct (Lookup_slots d cd name follow o1) as [[r2|o2]| |];
    cbn [bind]; try done.
  unfold Lookup_continuation.
  change (Lookup_stops (redirect cd p') flags) with (Lookup_stops cd flags).
  by rewrite Hs.
Qed.

(** Cutting the chain behind the declaration context is not observed. *)
Lemma Lookup_loop_redirect name flags follow n :
  has_flag flags STOP_AT_DECLARATION_SCOPE = true ->
  forall start o fuel,
    declaration_context n h start = Ok d ->
    Lookup_loop fuel h' start name flags follow o
    = Lookup_loop fuel h start name flags follow o.
Proof.
  intros Hstop. induction n as [|n IH]; intros start o fuel; [discriminate|].
  cbn [declaration_context].
  destruct (context_at h start) as [c| |] eqn:Hc; cbn [bind]; try discriminate.
  destruct (is_declaration_context c) as [[|]| |] eqn:Hdc;
    cbn [bind]; try discriminate.
  - intros [= Heq]. subst start.
    rewrite (context_at_Some h d cd) in Hc by done.
    injection Hc as Heq. subst c.
    destruct fuel as [|fuel]; [done|]. cbn [Lookup_loop].
    rewrite Lookup_iteration_redirect_at
      by by apply Lookup_stops_declaration.
    destruct (Lookup_iteration h d name flags follow o) as [[r|q o1]| |] eqn:Hit;
      cbn [bind]; try done.
    eapply Lookup_iteration_stops_at_declaration in Hit as [r [=]];
      eauto using context_at_Some.
  - destruct (previous c) as [p|] eqn:Hp; [|discriminate]. intros Hrec.
    assert (start <> d) as Hne.
    { intros Heq. subst start.
      rewrite (context_at_Some h d cd) in Hc by done.
      injection Hc as Heq. subst c.
      apply declaration_context_is_declaration in Hrec as (c' & Hc' & Hd').
      rewrite (context_at_Some h d cd) in Hc' by done. congruence. }
    destruct fuel as [|fuel]; [done|]. cbn [Lookup_loop].
    rewrite Lookup_iteration_redirect_other by done.
    destruct (Lookup_iteration h start name flags follow o)
      as [[r|q o1]| |] eqn:Hit; cbn [bind]; try done.
    apply Lookup_iteration_advances_to_previous in Hit as (c' & Hc' & Hq & _).
    assert (q = p) as -> by congruence.
    by apply IH.
Qed.

End Redirect.

(** The walk ends no later than [declaration_context]'s own loop. *)
Lemma Lookup_loop_stops_in_time h name flags follow n :
  has_flag flags STOP_AT_DECLARATION_SCOPE = true ->
  forall start d o,
    declaration_context n h start = Ok d ->
    Lookup_loop n h start name flags follow o <> OutOfFuel.
Proof.
  intros Hstop. induction n as [|n IH]; intros start d o; [discriminate|].
  cbn [declaration_context Lookup_loop].
  destruct (context_at h start) as [c| |] eqn:Hc; cbn [bind]; try discriminate.
  destruct (is_declaration_context c) as [[|]| |] eqn:Hdc;
    cbn [bind]; try discriminate.
  - intros _.
    destruct (Lookup_iteration h start name flags follow o)
      as [[r|q o1]| |] eqn:Hit; cbn [bind]; try done.
    + eapply Lookup_iteration_stops_at_declaration in Hit as [r [=]]; eauto.
    + by apply Lookup_iteration_not_OutOfFuel in Hit.
  - destruct (previous c) as [p|] eqn:Hp; [|discriminate]. intros Hrec.
    destruct (Lookup_iteration h start name flags follow o)
      as [[r|q o1]| |] eqn:Hit; cbn [bind]; try done.
    + apply Lookup_iteration_advances_to_previous in Hit as (c' & Hc' & Hq & _).
      assert (q = p) as -> by congruence. by eapply IH.
    + by apply Lookup_iteration_not_OutOfFuel in Hit.
Qed.

(** On a chain that reaches a native context the lookup needs no more
    passes than the chain has contexts. *)
Lemma Lookup_loop_terminates h name flags follow a n :
  reaches_native h a n ->
  forall o, Lookup_loop n h a name flags follow o <> OutOfFuel.
Proof.
  induction 1 as [a c Hc Hk|a c p n Hc Hp _ IH]; intros o;
    cbn [Lookup_loop];
    destruct (Lookup_iteration h a name flags follow o)
      as [[r|q o1]| |] eqn:Hit; cbn [bind]; try done;
    try (by apply Lookup_iteration_not_OutOfFuel in Hit).
  - apply Lookup_iteration_advances_to_previous in Hit as (c' & Hc' & _ & Hs).
    assert (c' = c) as -> by congruence.
    unfold Lookup_stops, IsNativeContext in Hs.
    rewrite bool_decide_eq_true_2 in Hs by done. discriminate.
  - apply Lookup_iteration_advances_to_previous in Hit as (c' & Hc' & Hq & _).
    assert (q = p) as -> by congruence. apply IH.
Qed.

(** The contexts that [declaration_context] passes on its way to the one it
    returns: none of them is a declaration context. *)
Lemma declaration_context_path n h : forall a d,
  declaration_context n h a = Ok d ->
  exists l,
    chain h a l d
    /\ (length l < n)%nat
    /\ (forall x, x ∈ l ->
          exists c, context_at h x = Ok c
                    /\ is_declaration_context c = Ok false).
Proof.
  induction n as [|n IH]; intros a d; [discriminate|].
  cbn [declaration_context].
  destruct (context_at h a) as [c| |] eqn:Hc; cbn [bind]; try discriminate.
  destruct (is_declaration_context c) as [[|]| |] eqn:Hd;
    cbn [bind]; try discriminate.
  - intros [= <-]. exists []. split; [constructor|]. split; [simpl; lia|].
    intros x Hx. by apply not_elem_of_nil in Hx.
  - destruct (previous c) as [p|] eqn:Hp; [|discriminate].
    intros (l & Hl & Hlen & Hnot)%IH. exists (a :: l).
    split; [by apply (chain_step h a c p)|]. split; [simpl; lia|].
    intros x [->|Hx]%elem_of_cons; eauto.
Qed.

(** A context that is no declaration context is no native context. *)
Lemma not_declaration_not_native c :
  is_declaration_context c = Ok false -> kind c <> NativeContext.
Proof.
  rewrite is_declaration_context_kind. intros Hd Hk.
  rewrite Hk in Hd. discriminate.
Qed.

(** Passes that find nothing at contexts that are no declaration contexts
    take the walk along the chain, one context per pass. *)
Lemma Lookup_loop_passes h name flags l a b :
  chain h a l b ->
  (forall x, x ∈ l ->
     exists c, context_at h x = Ok c
               /\ is_declaration_context c = Ok false
               /\ Lookup_objects h c name flags initial_out
                  = Ok (Continue initial_out)
               /\ Lookup_slots x c name true initial_out
                  = Ok (Continue initial_out)) ->
  walk h name flags true a initial_out b initial_out
  /\ forall fuel,
       Lookup_loop (length l + fuel) h a name flags true initial_out
       = Lookup_loop fuel h b name flags true initial_out.
Proof.
  induction 1 as [a|a c p l b Hc Hp _ IH]; intros Hmiss.
  { split; [constructor|done]. }
  destruct (Hmiss a) as (c' & Hc' & Hd & H1 & H2); [by left|].
  assert (c' = c) as -> by congruence.
  assert (Hit : Lookup_iteration h a name flags true initial_out
                = Ok (Advance p initial_out)).
  { rewrite (Lookup_iteration_phases h a c) by done.
    rewrite H1. cbn [bind]. rewrite H2. cbn [bind].
    rewrite Lookup_continuation_passes
      by auto using not_declaration_not_native.
    by rewrite Hp. }
  destruct IH as [Hw Hloop].
  { intros x Hx. apply Hmiss. by right. }
  split; [by eapply walk_on|].
  intros fuel. cbn [length Nat.add Lookup_loop]. rewrite Hit. cbn [bind].
  apply Hloop.
Qed.

(** With [STOP_AT_DECLARATION_SCOPE] set, a walk along a chain that ends
    at a declaration context visits the contexts of the chain and that
    context, and no other. *)
Lemma walk_within_chain h name flags follow d cd l a :
  has_flag flags STOP_AT_DECLARATION_SCOPE = true ->
  context_at h d = Ok cd ->
  is_declaration_context cd = Ok true ->
  chain h a l d ->
  forall o b o',
    walk h name flags follow a o b o' -> b ∈ l \/ b = d.
Proof.
  intros Hstop Hcd Hd Hchain. revert Hcd.
  induction Hchain as [a|a c p l b' Hc Hp _ IH]; intros Hcd o b o' Hw.
  - inversion Hw as [|? ? q o1 ? ? Hit _]; subst; [by right|].
    apply Lookup_iteration_advances_to_previous in Hit as (c' & Hc' & _ & Hs).
    assert (c' = cd) as -> by congruence.
    rewrite Lookup_stops_declaration in Hs by done. discriminate.
  - inversion Hw as [|? ? q o1 ? ? Hit Hw']; subst; [left; by left|].
    apply Lookup_iteration_advances_to_previous in Hit as (c' & Hc' & Hq & _).
    assert (q = p) as -> by congruence.
    destruct (IH Hcd _ _ _ Hw') as [Hin| ->]; [left; by right|by right].
Qed.

(** C7. With [STOP_AT_DECLARATION_SCOPE] set, a lookup started at [start]
    walks to [d], the nearest declaration context, the one that
    [declaration_context] finds for [start], and stops there.  The contexts
    on the way are no declaration contexts and the flag does not stop the
    walk at them; the walk visits them and [d] and no other context.  A pass
    that finds nothing on the way goes on to [previous], so
    when none of them resolves the name the walk arrives at [d] and the
    lookup returns what the pass at [d] returns.  The pass at [d] never goes
    on to [previous], the lookup is over within the steps
    [declaration_context] took, and its result is the same whatever [d]'s
    [previous] link leads to, so nothing beyond [d] is inspected.  Function,
    native and script contexts are declaration contexts; a block context is
    one exactly when its extension is the sloppy-eval wrapper or its
    descriptor says so; with, catch and the remaining kinds are not. *)
Theorem Lookup_stops_at_declaration_context
    n fuel h start d cd name flags p' :
  has_flag flags STOP_AT_DECLARATION_SCOPE = true ->
  declaration_context n h start = Ok d ->
  h !! d = Some (context_object cd) ->
  is_declaration_context cd = Ok true
  /\ (exists l,
        chain h start l d
        /\ (length l < n)%nat
        /\ (forall x, x ∈ l ->
              exists c,
                context_at h x = Ok c
                /\ is_declaration_context c = Ok false
                /\ (forall o,
                      Lookup_continuation c flags true o
                      = match previous c with
                        | Some p => Ok (Advance p o)
                        | None => Fatal
                        end))
        /\ (forall follow o b o',
              walk h name flags follow start o b o' -> b ∈ l \/ b = d))
  /\ (forall l,
        chain h start l d ->
        (forall x, x ∈ l ->
           exists c, context_at h x = Ok c
                     /\ is_declaration_context c = Ok false
                     /\ yields_nothing h x c name flags) ->
        has_flag flags FOLLOW_CONTEXT_CHAIN = true ->
        walk h name flags true start initial_out d initial_out
        /\ (forall fuel', (length l < fuel')%nat ->
              (forall r,
                 Lookup_iteration h d name flags true initial_out
                 = Ok (Finished r) ->
                 Context_Lookup fuel' h start name flags = Ok r)
              /\ (Lookup_iteration h d name flags true initial_out = Fatal ->
                  Context_Lookup fuel' h start name flags = Fatal)))
  /\ (forall follow o it,
        Lookup_iteration h d name flags follow o = Ok it ->
        exists r, it = Finished r)
  /\ Context_Lookup n h start name flags <> OutOfFuel
  /\ Context_Lookup fuel (<[d := context_object (redirect cd p')]> h)
       start name flags
     = Context_Lookup fuel h start name flags
  /\ (forall c,
        is_declaration_context c =
        match kind c with
        | FunctionContext | NativeContext | ScriptContext => Ok true
        | BlockContext =>
            match extension c with
            | ext_SloppyBlockWithEvalContextExtension _ _ => Ok true
            | ext_ScopeInfo si => Ok (is_declaration_scope si)
            | _ => Fatal
            end
        | WithContext | CatchContext | ModuleContext => Ok false
        end).
Proof.
  intros Hstop Hdecl Hd.
  assert (Hcd : is_declaration_context cd = Ok true).
  { apply declaration_context_is_declaration in Hdecl as (c & Hc & Hdc).
    rewrite (context_at_Some h d cd) in Hc by done. congruence. }
  split; [done|]. split; [|split; [|split; [|split; [|split]]]].
  - destruct (declaration_context_path _ _ _ _ Hdecl) as (l & Hl & Hlen & Hnot).
    exists l. split; [done|]. split; [done|]. split.
    + intros x Hx. destruct (Hnot x Hx) as (c & Hc & Hdc).
      exists c. split; [done|]. split; [done|]. intros o.
      by rewrite Lookup_continuation_passes
        by auto using not_declaration_not_native.
    + intros follow o b o' Hw.
      eapply walk_within_chain; eauto using context_at_Some.
  - intros l Hl Hmiss Hfollow.
    destruct (Lookup_loop_passes h name flags l start d Hl) as [Hw Hloop].
    { intros x Hx. destruct (Hmiss x Hx) as (c & Hc & Hdc & H1 & H2).
      rewrite Hfollow in H2. eauto 6. }
    split; [done|]. intros fuel' Hf.
    unfold Context_Lookup. fold initial_out. rewrite Hfollow.
    replace fuel' with (length l + S (fuel' - length l - 1))%nat by lia.
    rewrite Hloop. cbn [Lookup_loop].
    split; [intros r Hit|intros Hit]; by rewrite Hit.
  - intros follow o it Hit.
    eapply Lookup_iteration_stops_at_declaration; eauto using context_at_Some.
  - unfold Context_Lookup. by eapply Lookup_loop_stops_in_time.
  - unfold Context_Lookup. by eapply Lookup_loop_redirect.
  - intros c. rewrite is_declaration_context_kind. by destruct (kind c).
Qed.

(** *** ["this"] and with contexts *)

(** On the path that follows prototype chains, the subject of a with context
    is not asked for ["this"]: the pass goes on as if the subject had no such
    property. *)
Lemma Lookup_iteration_with_this_guarded h a c object flags follow o :
  h !! a = Some (context_object c) ->
  kind c = WithContext ->
  extension c = ext_JSReceiver object ->
  has_flag flags FOLLOW_PROTOTYPE_CHAIN = true ->
  IsJSContextExtensionObject object = false ->
  attributes o = ABSENT ->
  Lookup_iteration h a this_string flags follow o =
  if follow
  then match previous c with
       | Some p => Ok (Advance p o)
       | None => Fatal
       end
  else Ok (Finished (no_property_or_slot_found o)).
Proof.
  intros Ha Hk Hext Hproto Hce Ho.
  rewrite (Lookup_iteration_phases h a c) by by apply context_at_Some.
  assert (H1 : Lookup_objects h c this_string flags o = Ok (Continue o)).
  { unfold Lookup_objects, extension_receiver, Lookup_probe. kind_tests Hk.
    rewrite Hext. cbn [orb andb negb].
    destruct (has_flag flags SKIP_WITH_CONTEXT); cbn [orb andb negb bind];
      [done|].
    rewrite Hproto, Hce. cbn [orb negb].
    rewrite String.eqb_refl, Z.eqb_refl. cbn [negb].
    by rewrite <- Ho, OutParams_eta. }
  rewrite H1. cbn [bind].
  unfold Lookup_slots. kind_tests Hk. cbn [orb].
  apply Lookup_continuation_passes.
  - congruence.
  - rewrite is_declaration_context_kind, Hk. done.
Qed.

(** On the path that probes own properties only, nothing sets ["this"]
    apart: a subject with an own property of that name is returned as its
    holder. *)
Lemma Lookup_with_own_this_is_bound fuel h a c object flags follow o attrs :
  h !! a = Some (context_object c) ->
  kind c = WithContext ->
  extension c = ext_JSReceiver object ->
  has_flag flags SKIP_WITH_CONTEXT = false ->
  has_flag flags FOLLOW_PROTOTYPE_CHAIN = false ->
  JSReceiver_GetOwnPropertyAttributes object this_string = Some attrs ->
  attrs <> ABSENT ->
  Lookup_loop (S fuel) h a this_string flags follow o
  = Ok {| holder := receiver_handle object;
          out := {| index := index o; attributes := attrs;
                    binding_flags := binding_flags o |};
          has_pending_exception := false |}.
Proof.
  intros Ha Hk Hext Hskip Hproto Hown Hattrs.
  cbn [Lookup_loop].
  rewrite (Lookup_iteration_phases h a c) by by apply context_at_Some.
  unfold Lookup_objects, extension_receiver, Lookup_probe. kind_tests Hk.
  rewrite Hext, Hskip. cbn [orb andb negb bind].
  rewrite Hproto. cbn [orb negb]. rewrite Hown.
  replace (attrs =? ABSENT) with false by (symmetry; by apply Z.eqb_neq).
  done.
Qed.

End ResolverProperties.

(** * Further properties *)

(** ** Extending and searching the script context table *)

Section MoreTableProperties.

Context `{HC : HeaderConstants} `{SO : ScopeInfoOracle}.

Implicit Types (h : gmap Z HeapObject) (t : ScriptContextTable).

(** What a call of [Extend] that returns has done. *)
Lemma Extend_returns h table script_context table' h' :
  ScriptContextTable_Extend h table script_context = Ok (table', h') ->
  exists t t',
    h !! table = Some (script_context_table_object t)
    /\ 0 <= used t < FixedArray_length t
    /\ 0 <= used t + kFirstContextSlot < FixedArray_length t'
    /\ h' = <[table' := script_context_table_object t']> h
    /\ ((used t + kFirstContextSlot <> FixedArray_length t
         /\ table' = table
         /\ t' = extended_in_place t script_context)
        \/ (used t + kFirstContextSlot = FixedArray_length t
            /\ FixedArray_length t < Z.quot Smi_kMaxValue 2
            /\ table' = fresh (dom h)
            /\ t' = extended_grown t script_context)).
Proof.
  unfold ScriptContextTable_Extend, table_at.
  destruct (h !! table) as [[c|t]|] eqn:Ht; cbn [bind]; try discriminate.
  unfold CHECK at 1. case_match eqn:Hcheck; cbn [bind]; [|discriminate].
  apply andb_true_iff in Hcheck as [Hcheck Hlt%Z.ltb_lt].
  apply andb_true_iff in Hcheck as [Hu%Z.leb_le _].
  destruct (used t + kFirstContextSlot =? FixedArray_length t) eqn:Hfull.
  - apply Z.eqb_eq in Hfull.
    unfold CHECK. case_match eqn:Hceil; cbn [bind]; [|discriminate].
    apply Z.ltb_lt in Hceil.
    unfold CopyFixedArrayAndGrow, table_at. rewrite Ht. cbn [bind].
    rewrite lookup_insert_eq. cbn [bind].
    unfold FixedArray_set.
    case_match eqn:Hrange; cbn [bind]; [|discriminate].
    intros [= <- <-]. apply andb_true_iff in Hrange as [H0%Z.leb_le H1%Z.ltb_lt].
    exists t, (extended_grown t script_context).
    split; [done|]. split; [lia|]. split.
    { unfold extended_grown, set_used, FixedArray_length in *.
      cbn [elements] in *. rewrite length_insert. lia. }
    split; [by rewrite insert_insert_eq|]. right. done.
  - apply Z.eqb_neq in Hfull. cbn [bind]. rewrite Ht. cbn [bind].
    unfold FixedArray_set.
    case_match eqn:Hrange; cbn [bind]; [|discriminate].
    intros [= <- <-]. apply andb_true_iff in Hrange as [H0%Z.leb_le H1%Z.ltb_lt].
    exists t, (extended_in_place t script_context).
    split; [done|]. split; [lia|]. split.
    { unfold extended_in_place, set_used, FixedArray_length in *.
      cbn [elements] in *. rewrite length_insert. lia. }
    split; [done|]. left. done.
Qed.

(** The entries of the table a returning [Extend] leaves behind. *)
Lemma Extend_returns_entries h table script_context table' h' :
  0 < kFirstContextSlot ->
  ScriptContextTable_Extend h table script_context = Ok (table', h') ->
  exists t t',
    h !! table = Some (script_context_table_object t)
    /\ h' = <[table' := script_context_table_object t']> h
    /\ (table' = table \/ h !! table' = None)
    /\ 0 <= used t
    /\ used t' = used t + 1
    /\ used t' + kFirstContextSlot <= FixedArray_length t'
    /\ (forall i, 0 <= i < used t ->
                  ScriptContextTable_GetContext t' i
                  = ScriptContextTable_GetContext t i)
    /\ ScriptContextTable_GetContext t' (used t) = Ok script_context.
Proof.
  intros Hk (t & t' & Ht & Hu & Hin & -> & Hcase)%Extend_returns.
  exists t, t'. split; [done|]. split; [done|].
  destruct Hcase as [(Hne & -> & ->)|(Hfull & Hceil & -> & ->)].
  - split; [by left|]. split; [lia|]. split; [done|]. split.
    { unfold extended_in_place, FixedArray_length in *. cbn [elements used] in *.
      rewrite length_insert in *. lia. }
    split.
    + intros i Hi. unfold ScriptContextTable_GetContext.
      rewrite extended_in_place_other_slots by lia. done.
    + unfold ScriptContextTable_GetContext, extended_in_place.
      rewrite FixedArray_get_insert_eq; [done|].
      unfold extended_in_place, FixedArray_length in *.
      cbn [elements] in *. rewrite length_insert in Hin. lia.
  - split; [right; apply not_elem_of_dom, is_fresh|]. split; [lia|].
    split; [done|]. split.
    { unfold extended_grown, FixedArray_length in *. cbn [elements used] in *.
      rewrite length_insert, length_app, length_replicate in *. lia. }
    split.
    + intros i Hi. unfold ScriptContextTable_GetContext.
      rewrite extended_grown_old_slots by lia. done.
    + unfold ScriptContextTable_GetContext, extended_grown.
      rewrite (FixedArray_get_insert_eq
                 {| used := used t;
                    elements := elements t
                                ++ replicate (Z.to_nat (FixedArray_length t))
                                     undefined_value |}); [done|].
      unfold extended_grown, FixedArray_length in *. cbn [elements] in *.
      rewrite length_insert in Hin. lia.
Qed.

(** X1. [Extend] aborts on a table outside its preconditions: one whose
    [used] is negative or has reached the length of the backing store, and
    one that is full when its length has reached half of [Smi::kMaxValue].
    No table is returned and the heap is not changed. *)
Theorem Extend_aborts_outside_preconditions h table script_context t :
  h !! table = Some (script_context_table_object t) ->
  used t < 0
  \/ FixedArray_length t <= used t
  \/ (used t + kFirstContextSlot = FixedArray_length t
      /\ Z.quot Smi_kMaxValue 2 <= FixedArray_length t) ->
  ScriptContextTable_Extend h table script_context = Fatal.
Proof.
  intros Ht [Hneg|[Hlen|[Hfull Hceil]]].
  - unfold ScriptContextTable_Extend, table_at. rewrite Ht. cbn [bind].
    replace (0 <=? used t) with false by (symmetry; apply Z.leb_gt; lia).
    done.
  - by eapply Extend_rejects_used_at_length.
  - by eapply Extend_rejects_growth_at_ceiling.
Qed.

(** X2. A call of [Extend] that returns changes the heap at the returned
    address only.  Every context is as before, and when the table has grown
    the table behind the old handle is still there, untouched, and the new
    handle was free before. *)
Theorem Extend_changes_returned_table_only
    h table script_context table' h' :
  ScriptContextTable_Extend h table script_context = Ok (table', h') ->
  (forall a, a <> table' -> h' !! a = h !! a)
  /\ (forall a, context_at h' a = context_at h a)
  /\ (table' <> table -> h' !! table = h !! table /\ h !! table' = None).
Proof.
  intros (t & t' & Ht & _ & _ & -> & Hcase)%Extend_returns.
  assert (Hwhere : table' = table \/ h !! table' = None).
  { destruct Hcase as [(_ & -> & _)|(_ & _ & -> & _)]; [by left|].
    right. apply not_elem_of_dom, is_fresh. }
  split; [|split].
  - intros a Ha. by rewrite lookup_insert_ne.
  - intros a. unfold context_at. rewrite lookup_insert.
    case_decide as Hx; [|done]. subst a.
    destruct Hwhere as [->| ->]; [by rewrite Ht|done].
  - intros Hne. split; [by rewrite lookup_insert_ne|].
    by destruct Hwhere.
Qed.

(** X3. The table a returning [Extend] leaves behind meets the first
    [CHECK] again: its [used] is positive and its entries fit in the backing
    store.  So [Extend] can be called on the returned handle again, and that
    call returns as long as the length is below the growth ceiling. *)
Theorem Extend_can_be_repeated h table script_context table' h' :
  0 < kFirstContextSlot ->
  ScriptContextTable_Extend h table script_context = Ok (table', h') ->
  exists t',
    h' !! table' = Some (script_context_table_object t')
    /\ 0 < used t'
    /\ used t' + kFirstContextSlot <= FixedArray_length t'
    /\ (FixedArray_length t' < Z.quot Smi_kMaxValue 2 ->
        forall next_context, exists table'' h'',
          ScriptContextTable_Extend h' table' next_context
          = Ok (table'', h'')).
Proof.
  intros Hk (t & t' & Ht & -> & _ & Hu & Hused & Hfit & _)
    %Extend_returns_entries; [|done].
  exists t'. split; [by rewrite lookup_insert_eq|]. split; [lia|].
  split; [done|]. intros Hceil next_context.
  destruct (Z_lt_le_dec (used t' + kFirstContextSlot) (FixedArray_length t'))
    as [Hroom|Hfull].
  - eexists _, _. apply Extend_in_place_eq; [by rewrite lookup_insert_eq|..];
      lia.
  - eexists _, _. apply Extend_grown_eq; [by rewrite lookup_insert_eq|..];
      lia.
Qed.

(** The loop of [ScriptContextTable::Lookup] depends on the contexts and on
    the entries it scans only. *)
Lemma ScriptContextTable_Lookup_from_same h h' t t' name n : forall i,
  (forall x, context_at h' x = context_at h x) ->
  (forall j, i <= j < i + Z.of_nat n ->
             ScriptContextTable_GetContext t' j
             = ScriptContextTable_GetContext t j) ->
  ScriptContextTable_Lookup_from h' t' name n i
  = ScriptContextTable_Lookup_from h t name n i.
Proof.
  induction n as [|n IH]; intros i Hctx Hget; [done|].
  cbn [ScriptContextTable_Lookup_from].
  rewrite Hget by lia.
  destruct (ScriptContextTable_GetContext t i) as [x| |]; cbn [bind]; try done.
  rewrite Hctx.
  destruct (context_at h x) as [c| |]; cbn [bind]; try done.
  destruct (scope_info c) as [si| |]; cbn [bind]; try done.
  case_match; [done|].
  apply IH; [done|]. intros j Hj. apply Hget. lia.
Qed.

(** After [n] misses the loop goes on at entry [i + n]. *)
Lemma ScriptContextTable_Lookup_from_misses h t name m n : forall i,
  ScriptContextTable_Lookup_from h t name n i = Ok None ->
  ScriptContextTable_Lookup_from h t name (n + m) i
  = ScriptContextTable_Lookup_from h t name m (i + Z.of_nat n).
Proof.
  induction n as [|n IH]; intros i.
  - intros _. cbn [Nat.add]. f_equal. lia.
  - cbn [ScriptContextTable_Lookup_from Nat.add].
    destruct (ScriptContextTable_GetContext t i) as [x| |];
      cbn [bind]; try discriminate.
    destruct (context_at h x) as [c| |]; cbn [bind]; try discriminate.
    destruct (scope_info c) as [si| |]; cbn [bind]; try discriminate.
    case_match; [discriminate|].
    intros Hn. rewrite IH by done. f_equal. lia.
Qed.

(** X5. Appending and then searching: when no entry of the table declares a
    name, the lookup in the table returned by [Extend] is decided by the
    appended context alone.  If its descriptor declares the name, the hit is
    reported at the index the old [used] gave, with the slot, mode and flags
    of that descriptor; if not, the lookup still misses. *)
Theorem Extend_then_Lookup_finds_appended
    h table script_context table' h' c si name :
  0 < kFirstContextSlot ->
  ScriptContextTable_Extend h table script_context = Ok (table', h') ->
  ScriptContextTable_Lookup h table name = Ok None ->
  context_at h script_context = Ok c ->
  scope_info c = Ok si ->
  exists t,
    h !! table = Some (script_context_table_object t)
    /\ ScriptContextTable_Lookup h' table' name
       = Ok (if 0 <=? sl_slot_index (ContextSlotIndex si name)
             then Some {| context_index := used t;
                          slot_index := sl_slot_index (ContextSlotIndex si name);
                          mode := sl_mode (ContextSlotIndex si name);
                          init_flag := sl_init_flag (ContextSlotIndex si name);
                          maybe_assigned_flag :=
                            sl_maybe_assigned_flag (ContextSlotIndex si name) |}
             else None).
Proof.
  intros Hk He Hmiss Hc Hsi.
  destruct (Extend_returns_entries _ _ _ _ _ Hk He)
    as (t & t' & Ht & -> & Hwhere & Hu & Hused & _ & Hold & Hnew).
  assert (Hctx : forall x,
            context_at (<[table' := script_context_table_object t']> h) x
            = context_at h x).
  { intros x. unfold context_at. rewrite lookup_insert.
    case_decide as Hx; [|done]. subst x.
    destruct Hwhere as [->| ->]; [by rewrite Ht|done]. }
  exists t. split; [done|].
  unfold ScriptContextTable_Lookup, table_at in *.
  rewrite lookup_insert_eq. rewrite Ht in Hmiss. cbn [bind] in *.
  rewrite Hused.
  replace (Z.to_nat (used t + 1)) with (Z.to_nat (used t) + 1)%nat by lia.
  rewrite ScriptContextTable_Lookup_from_misses.
  2:{ rewrite <- Hmiss. apply ScriptContextTable_Lookup_from_same; [done|].
      intros j Hj. apply Hold. lia. }
  cbn [ScriptContextTable_Lookup_from].
  replace (0 + Z.of_nat (Z.to_nat (used t))) with (used t) by lia.
  rewrite Hnew. cbn [bind]. rewrite Hctx, Hc. cbn [bind]. rewrite Hsi.
  cbn [bind]. by case_match.
Qed.

(** X6. [ScriptContextTable::Lookup] reads the entries below [used] and
    nothing else of the table: two tables with the same [used] and the same
    entries below it answer alike, whatever their lengths and their other
    slots; and a table whose [used] is not positive answers no for every
    name. *)
Theorem ScriptContextTable_Lookup_reads_used_entries
    h table1 table2 t1 t2 name :
  h !! table1 = Some (script_context_table_object t1) ->
  h !! table2 = Some (script_context_table_object t2) ->
  used t1 = used t2 ->
  (forall i, 0 <= i < used t1 ->
             ScriptContextTable_GetContext t1 i
             = ScriptContextTable_GetContext t2 i) ->
  ScriptContextTable_Lookup h table1 name
  = ScriptContextTable_Lookup h table2 name
  /\ (used t1 <= 0 -> ScriptContextTable_Lookup h table1 name = Ok None).
Proof.
  intros H1 H2 Hused Hsame.
  unfold ScriptContextTable_Lookup, table_at. rewrite H1, H2. cbn [bind].
  split.
  - rewrite <- Hused. apply ScriptContextTable_Lookup_from_same; [done|].
    intros j Hj. apply Hsame. lia.
  - intros Hempty. by replace (Z.to_nat (used t1)) with 0%nat by lia.
Qed.

End MoreTableProperties.

(** ** Walking up to the declaration context and the script context *)

Section ChainProperties.

Context `{SO : ScopeInfoOracle}.

Implicit Types (h : gmap Z HeapObject) (c : Context).

(** X7. [declaration_context] returns the nearest declaration context: it
    returns [d] exactly when following [previous] from the start leads to
    [d], [d] is a declaration context, and no context passed on the way is
    one (the steps allowed covering the way). *)
Theorem declaration_context_nearest n h a d :
  declaration_context n h a = Ok d <->
  exists l,
    chain h a l d
    /\ (length l < n)%nat
    /\ (forall x, x ∈ l ->
          exists c, context_at h x = Ok c
                    /\ is_declaration_context c = Ok false)
    /\ (exists c, context_at h d = Ok c
                  /\ is_declaration_context c = Ok true).
Proof.
  split.
  - revert a. induction n as [|n IH]; intros a; [discriminate|].
    cbn [declaration_context].
    destruct (context_at h a) as [c| |] eqn:Hc; cbn [bind]; try discriminate.
    destruct (is_declaration_context c) as [[|]| |] eqn:Hd;
      cbn [bind]; try discriminate.
    + intros [= <-]. exists []. split; [constructor|]. split; [simpl; lia|].
      split; [|eauto]. intros x Hx. by apply not_elem_of_nil in Hx.
    + destruct (previous c) as [p|] eqn:Hp; [|discriminate].
      intros (l & Hl & Hlen & Hnot & Hdecl)%IH.
      exists (a :: l). split; [by econstructor|]. split; [simpl; lia|].
      split; [|done]. intros x [->|Hx]%elem_of_cons; eauto.
  - intros (l & Hl & Hlen & Hnot & (cd & Hcd & Hdecl)).
    revert n Hlen Hnot.
    induction Hl as [a|a c p l b Hc Hp Hl IH]; intros n Hlen Hnot.
    + destruct n as [|n]; [simpl in Hlen; lia|].
      cbn [declaration_context]. rewrite Hcd. cbn [bind]. by rewrite Hdecl.
    + destruct n as [|n]; [simpl in Hlen; lia|].
      cbn [declaration_context]. rewrite Hc. cbn [bind].
      destruct (Hnot a) as (c' & Hc' & Hn); [by left|].
      assert (c' = c) as -> by congruence.
      rewrite Hn. cbn [bind]. rewrite Hp.
      apply IH; [done|simpl in Hlen; lia|].
      intros x Hx. apply Hnot. by right.
Qed.

Lemma declaration_context_at_declaration n h d c :
  context_at h d = Ok c ->
  is_declaration_context c = Ok true ->
  declaration_context (S n) h d = Ok d.
Proof.
  intros Hc Hd. cbn [declaration_context]. rewrite Hc. cbn [bind].
  by rewrite Hd.
Qed.

Lemma declaration_context_more_fuel n h : forall a d m,
  declaration_context n h a = Ok d -> (n <= m)%nat ->
  declaration_context m h a = Ok d.
Proof.
  induction n as [|n IH]; intros a d m; [discriminate|].
  intros Hd Hm. destruct m as [|m]; [lia|].
  cbn [declaration_context] in *.
  destruct (context_at h a) as [c| |]; cbn [bind] in *; try discriminate.
  destruct (is_declaration_context c) as [[|]| |];
    cbn [bind] in *; try discriminate; [done|].
  destruct (previous c) as [p|]; [|discriminate].
  apply IH; [done|lia].
Qed.

Lemma declaration_context_result n h : forall a d,
  declaration_context n h a = Ok d ->
  exists c, context_at h d = Ok c /\ is_declaration_context c = Ok true.
Proof.
  induction n as [|n IH]; intros a d; [discriminate|].
  cbn [declaration_context].
  destruct (context_at h a) as [c| |] eqn:Hc; cbn [bind]; try discriminate.
  destruct (is_declaration_context c) as [[|]| |] eqn:Hd;
    cbn [bind]; try discriminate.
  - intros [= <-]. eauto.
  - destruct (previous c) as [p|]; [apply IH|discriminate].
Qed.

(** X8. [declaration_context] is idempotent: called on the context it
    returned, it returns that context at once.  A result does not depend on
    how many steps were allowed beyond those needed. *)
Theorem declaration_context_idempotent n h a d :
  declaration_context n h a = Ok d ->
  (forall m, declaration_context (S m) h d = Ok d)
  /\ (forall m, (n <= m)%nat -> declaration_context m h a = Ok d).
Proof.
  intros Hd. split.
  - intros m. apply declaration_context_result in Hd as (c & Hc & Hdc).
    by eapply declaration_context_at_declaration.
  - intros m Hm. by eapply declaration_context_more_fuel.
Qed.

(** X9. On a chain that reaches a native context, [declaration_context]
    comes to an end within as many steps as the chain has contexts; it
    returns a context provided no context of the heap makes
    [is_declaration_context] abort (a block context does when its extension
    is neither a descriptor nor the sloppy-eval wrapper). *)
Theorem declaration_context_returns h a n :
  reaches_native h a n ->
  (forall x c, context_at h x = Ok c -> is_declaration_context c <> Fatal) ->
  exists d, declaration_context n h a = Ok d.
Proof.
  intros Hreach Hwf.
  induction Hreach as [a c Hc Hk|a c p n Hc Hp _ IH];
    cbn [declaration_context]; rewrite Hc; cbn [bind].
  - unfold is_declaration_context, IsFunctionContext, IsNativeContext.
    rewrite Hk.
    rewrite (bool_decide_eq_false_2 (NativeContext = FunctionContext))
      by discriminate.
    rewrite (bool_decide_eq_true_2 (NativeContext = NativeContext))
      by reflexivity.
    cbn [orb bind]. eauto.
  - pose proof (Hwf a c Hc) as Hnf.
    destruct (is_declaration_context c) as [[|]| |] eqn:Hd; cbn [bind].
    + eauto.
    + rewrite Hp. exact IH.
    + done.
    + unfold is_declaration_context in Hd. by repeat case_match.
Qed.

(** X10. [script_context] returns the nearest script context: it returns
    [s] exactly when following [previous] from the start leads to [s], [s]
    is a script context, and no context passed on the way is one. *)
Theorem script_context_nearest n h a s :
  script_context n h a = Ok s <->
  exists l,
    chain h a l s
    /\ (length l < n)%nat
    /\ (forall x, x ∈ l ->
          exists c, context_at h x = Ok c /\ kind c <> ScriptContext)
    /\ (exists c, context_at h s = Ok c /\ kind c = ScriptContext).
Proof.
  split.
  - revert a. induction n as [|n IH]; intros a; [discriminate|].
    cbn [script_context].
    destruct (context_at h a) as [c| |] eqn:Hc; cbn [bind]; try discriminate.
    unfold IsScriptContext. case_bool_decide as Hk.
    + intros [= <-]. exists []. split; [constructor|]. split; [simpl; lia|].
      split; [|eauto]. intros x Hx. by apply not_elem_of_nil in Hx.
    + destruct (previous c) as [p|] eqn:Hp; [|discriminate].
      intros (l & Hl & Hlen & Hnot & Hs)%IH.
      exists (a :: l). split; [by econstructor|]. split; [simpl; lia|].
      split; [|done]. intros x [->|Hx]%elem_of_cons; eauto.
  - intros (l & Hl & Hlen & Hnot & (cs & Hcs & Hs)).
    revert n Hlen Hnot.
    induction Hl as [a|a c p l b Hc Hp Hl IH]; intros n Hlen Hnot.
    + destruct n as [|n]; [simpl in Hlen; lia|].
      cbn [script_context]. rewrite Hcs. cbn [bind].
      unfold IsScriptContext. by rewrite bool_decide_eq_true_2.
    + destruct n as [|n]; [simpl in Hlen; lia|].
      cbn [script_context]. rewrite Hc. cbn [bind].
      destruct (Hnot a) as (c' & Hc' & Hn); [by left|].
      assert (c' = c) as -> by congruence.
      unfold IsScriptContext. rewrite bool_decide_eq_false_2 by done.
      rewrite Hp.
      apply IH; [done|simpl in Hlen; lia|].
      intros x Hx. apply Hnot. by right.
Qed.

Lemma script_context_more_fuel n h : forall a s m,
  script_context n h a = Ok s -> (n <= m)%nat ->
  script_context m h a = Ok s.
Proof.
  induction n as [|n IH]; intros a s m; [discriminate|].
  intros Hs Hm. destruct m as [|m]; [lia|].
  cbn [script_context] in *.
  destruct (context_at h a) as [c| |]; cbn [bind] in *; try discriminate.
  destruct (IsScriptContext c); [done|].
  destruct (previous c) as [p|]; [|discriminate].
  apply IH; [done|lia].
Qed.

(** X11. Script contexts are declaration contexts, so the script context of
    a context is that of its declaration context: whenever
    [declaration_context] returns [d] and [script_context] returns [s] for
    the same start, [script_context] started at [d] returns [s] too. *)
Theorem script_context_of_declaration_context n m h a d s :
  declaration_context n h a = Ok d ->
  script_context m h a = Ok s ->
  script_context m h d = Ok s.
Proof.
  revert a m. induction n as [|n IH]; intros a m; [discriminate|].
  cbn [declaration_context].
  destruct (context_at h a) as [c| |] eqn:Hc; cbn [bind]; try discriminate.
  destruct (is_declaration_context c) as [[|]| |] eqn:Hd;
    cbn [bind]; try discriminate.
  - by intros [= <-].
  - destruct (previous c) as [p|] eqn:Hp; [|discriminate].
    intros Hrec Hs. destruct m as [|m]; [discriminate|].
    cbn [script_context] in Hs. rewrite Hc in Hs. cbn [bind] in Hs.
    destruct (IsScriptContext c) eqn:Hscript.
    + unfold is_declaration_context in Hd. rewrite Hscript in Hd.
      rewrite !orb_true_r in Hd. discriminate.
    + rewrite Hp in Hs.
      eapply script_context_more_fuel; [by eapply IH|lia].
Qed.

End ChainProperties.

(** ** More on the resolver *)

Section MoreResolverProperties.

Context `{HC : HeaderConstants} `{SO : ScopeInfoOracle} `{OM : ObjectModel}.

Implicit Types (h : gmap Z HeapObject) (c : Context) (o : OutParams).

Ltac kind_cases Hk :=
  unfold IsNativeContext, IsScriptContext, IsFunctionContext, IsBlockContext,
    IsWithContext, IsCatchContext in *;
  rewrite ?Hk in *;
  repeat match goal with
    | |- context [bool_decide (?x = ?y)] =>
        first [ rewrite (bool_decide_eq_true_2 (x = y)) by reflexivity
              | rewrite (bool_decide_eq_false_2 (x = y)) by discriminate ]
    | H : context [bool_decide (?x = ?y)] |- _ =>
        first [ rewrite (bool_decide_eq_true_2 (x = y)) in H by reflexivity
              | rewrite (bool_decide_eq_false_2 (x = y)) in H by discriminate ]
    end.

(** *** Termination *)

Lemma Lookup_loop_same_with_more_fuel n h name flags follow : forall a o m,
  Lookup_loop n h a name flags follow o <> OutOfFuel ->
  (n <= m)%nat ->
  Lookup_loop m h a name flags follow o
  = Lookup_loop n h a name flags follow o.
Proof.
  induction n as [|n IH]; intros a o m; [done|].
  intros Hl Hm. destruct m as [|m]; [lia|].
  cbn [Lookup_loop] in *.
  destruct (Lookup_iteration h a name flags follow o) as [[r|p o1]| |];
    cbn [bind] in *; try done.
  apply IH; [done|lia].
Qed.

(** X12. [Context::Lookup] terminates on every chain that reaches a native
    context, whatever the flags: it is over after at most as many passes of
    the loop as the chain has contexts, and allowing more passes gives the
    same outcome. *)
Theorem Context_Lookup_terminates h this n name flags :
  reaches_native h this n ->
  Context_Lookup n h this name flags <> OutOfFuel
  /\ (forall m, (n <= m)%nat ->
        Context_Lookup m h this name flags
        = Context_Lookup n h this name flags).
Proof.
  intros Hreach. unfold Context_Lookup.
  assert (Hn : Lookup_loop n h this name flags
                 (has_flag flags FOLLOW_CONTEXT_CHAIN)
                 {| index := kNotFound; attributes := ABSENT;
                    binding_flags := MISSING_BINDING |} <> OutOfFuel)
    by by apply Lookup_loop_terminates.
  split; [done|]. intros m Hm.
  by apply Lookup_loop_same_with_more_fuel.
Qed.

(** *** Lookup in a single context *)




(** *** The native context *)

Lemma ScriptContextTable_Lookup_hit h table name r :
  ScriptContextTable_Lookup h table name = Ok (Some r) ->
  exists t found,
    table_at h table = Ok t
    /\ ScriptContextTable_GetContext t (context_index r) = Ok found
    /\ 0 <= slot_index r.
Proof.
  intros Hl.
  destruct (table_at h table) as [t| |] eqn:Ht;
    [|unfold ScriptContextTable_Lookup in Hl; rewrite Ht in Hl;
      discriminate..].
  pose proof (ScriptContextTable_Lookup_from_scan h t name
                (Z.to_nat (used t)) 0) as Hscan.
  unfold ScriptContextTable_Lookup in Hl. rewrite Ht in Hl. cbn [bind] in Hl.
  rewrite Hl in Hscan. destruct Hscan as (_ & (q & Hq & Hslot & ->) & _).
  cbn [context_index slot_index] in *.
  unfold entry_query in Hq.
  destruct (ScriptContextTable_GetContext t _) as [found| |] eqn:Hfound;
    cbn [bind] in Hq; try discriminate.
  exists t, found. split; [reflexivity|]. split; [exact Hfound|exact Hslot].
Qed.

(** X14. At the native context the script context table is asked before
    the global object: a name that a script context of the table declares
    resolves to that script context and its slot, classified by its mode,
    and the object model is not consulted, so a property of the same name on
    the global object does not matter.  A native context without a global
    object answers nothing, whatever its table holds. *)
Theorem Lookup_native_context fuel h a c name flags :
  h !! a = Some (context_object c) ->
  kind c = NativeContext ->
  (forall global r attrs flags',
     extension c = ext_JSReceiver global ->
     ScriptContextTable_Lookup h (script_context_table c) name = Ok (Some r) ->
     GetAttributesAndBindingFlags (mode r) (init_flag r) = Ok (attrs, flags') ->
     exists t found,
       table_at h (script_context_table c) = Ok t
       /\ ScriptContextTable_GetContext t (context_index r) = Ok found
       /\ Context_Lookup (S fuel) h a name flags
          = Ok {| holder := context_handle found;
                  out := {| index := slot_index r; attributes := attrs;
                            binding_flags := flags' |};
                  has_pending_exception := false |})
  /\ (extension c = ext_nullptr ->
      Context_Lookup (S fuel) h a name flags
      = Ok (no_property_or_slot_found initial_out)).
Proof.
  intros Ha Hk. split.
  - intros global r attrs flags' Hext Hhit Hclass.
    destruct (ScriptContextTable_Lookup_hit _ _ _ _ Hhit)
      as (t & found & Ht & Hfound & _).
    exists t, found. split; [done|]. split; [done|].
    unfold Context_Lookup. cbn [Lookup_loop].
    rewrite (Lookup_iteration_phases h a c) by by apply context_at_Some.
    unfold Lookup_objects, extension_receiver, extension_object.
    kind_cases Hk. rewrite Hext. cbn [orb bind].
    rewrite Hhit. cbn [bind]. rewrite Hclass. cbn [bind].
    rewrite Ht. cbn [bind]. rewrite Hfound. done.
  - intros Hext. unfold Context_Lookup. cbn [Lookup_loop].
    rewrite (Lookup_iteration_phases h a c) by by apply context_at_Some.
    unfold Lookup_objects, extension_receiver, extension_object.
    kind_cases Hk. rewrite Hext. cbn [orb bind].
    unfold Lookup_slots. kind_cases Hk. cbn [orb bind].
    unfold Lookup_continuation, Lookup_stops. kind_cases Hk. done.
Qed.

(** *** With contexts on the path that follows prototype chains *)

(** X15. A with context honours the unscopables of its subject.  When the
    chain of the subject has the property, the subject's unscopables object
    is an object and lists the name with a true value, the with context
    yields nothing and the lookup goes on at [previous]; when it lists the
    name with a false value, the subject is returned with the attributes of
    the property. *)
Theorem Lookup_with_unscopables
    fuel h a c object name flags attrs unscopables blacklist :
  h !! a = Some (context_object c) ->
  kind c = WithContext ->
  extension c = ext_JSReceiver object ->
  has_flag flags SKIP_WITH_CONTEXT = false ->
  has_flag flags FOLLOW_PROTOTYPE_CHAIN = true ->
  IsJSContextExtensionObject object = false ->
  name <> this_string ->
  JSReceiver_GetPropertyAttributes object name = Some attrs ->
  attrs <> ABSENT ->
  Object_GetProperty_unscopables object = Some unscopables ->
  IsSpecObject unscopables = true ->
  Object_GetProperty unscopables name = Some blacklist ->
  (BooleanValue blacklist = true ->
   has_flag flags FOLLOW_CONTEXT_CHAIN = true ->
   forall p, previous c = Some p ->
   Context_Lookup (S fuel) h a name flags
   = Context_Lookup fuel h p name flags)
  /\ (BooleanValue blacklist = false ->
      Context_Lookup (S fuel) h a name flags
      = Ok {| holder := receiver_handle object;
              out := {| index := kNotFound; attributes := attrs;
                        binding_flags := MISSING_BINDING |};
              has_pending_exception := false |}).
Proof.
  intros Ha Hk Hext Hskip Hproto Hce Hname Hattrs Hpresent Hun Hspec Hbl.
  assert (Hprobe : Lookup_probe c flags object name
                   = Some (if BooleanValue blacklist then ABSENT else attrs)).
  { unfold Lookup_probe, UnscopableLookup. kind_cases Hk.
    rewrite Hproto, Hce. cbn [negb orb].
    rewrite String_eqb_neq_false by done.
    rewrite Hattrs.
    replace (attrs =? ABSENT) with false by (symmetry; by apply Z.eqb_neq).
    rewrite Hun, Hspec. cbn [negb]. rewrite Hbl. by case_match. }
  assert (Hobjects : forall o,
            Lookup_objects h c name flags o
            = match Lookup_probe c flags object name with
              | None => Ok (Return (probe_failed o))
              | Some a =>
                  if negb (a =? ABSENT)
                  then Ok (Return {| holder := receiver_handle object;
                                     out := {| index := index o;
                                               attributes := a;
                                               binding_flags :=
                                                 binding_flags o |};
                                     has_pending_exception := false |})
                  else Ok (Continue {| index := index o; attributes := a;
                                       binding_flags := binding_flags o |})
              end).
  { intros o. unfold Lookup_objects, extension_receiver. kind_cases Hk.
    rewrite Hext, Hskip. cbn [orb andb negb bind]. done. }
  unfold Context_Lookup. cbn [Lookup_loop].
  rewrite (Lookup_iteration_phases h a c) by by apply context_at_Some.
  rewrite Hobjects, Hprobe. split.
  - intros Hb Hfollow p Hp. rewrite Hb, Z.eqb_refl. cbn [negb bind].
    unfold Lookup_slots. kind_cases Hk. cbn [orb bind].
    rewrite Lookup_continuation_passes.
    + rewrite Hfollow, Hp. cbn [bind]. done.
    + congruence.
    + rewrite is_declaration_context_kind, Hk. done.
  - intros Hb. rewrite Hb.
    replace (attrs =? ABSENT) with false by (symmetry; by apply Z.eqb_neq).
    done.
Qed.

(** X16. On the path that follows prototype chains a with context never
    resolves ["this"]: whatever properties its subject has, and whatever the
    object model answers, the with context yields nothing; the lookup goes
    on at [previous] when the context chain is followed and ends not-found
    otherwise. *)
Theorem Lookup_with_passes_this fuel h a c object flags :
  h !! a = Some (context_object c) ->
  kind c = WithContext ->
  extension c = ext_JSReceiver object ->
  has_flag flags FOLLOW_PROTOTYPE_CHAIN = true ->
  IsJSContextExtensionObject object = false ->
  (has_flag flags FOLLOW_CONTEXT_CHAIN = true ->
   forall p, previous c = Some p ->
   Context_Lookup (S fuel) h a this_string flags
   = Context_Lookup fuel h p this_string flags)
  /\ (has_flag flags FOLLOW_CONTEXT_CHAIN = false ->
      Context_Lookup (S fuel) h a this_string flags
      = Ok (no_property_or_slot_found initial_out)).
Proof.
  intros Ha Hk Hext Hproto Hce. unfold Context_Lookup. cbn [Lookup_loop].
  rewrite (Lookup_iteration_with_this_guarded h a c object) by done.
  split.
  - intros -> p ->. done.
  - intros ->. done.
Qed.

(** *** What a result looks like *)

Lemma GetAttributesAndBindingFlags_classifies m i a b :
  classified m ->
  GetAttributesAndBindingFlags m i = Ok (a, b) ->
  b <> MISSING_BINDING /\ (a = NONE \/ a = READ_ONLY).
Proof.
  intros [-> | [-> | [-> | ->]]]; cbn [GetAttributesAndBindingFlags];
    intros [= <- <-]; (split; [first [done|by case_decide]|auto]).
Qed.

(** A hit in the script context table reports the mode that the descriptor
    of a script context of the heap gave for the name. *)
Lemma ScriptContextTable_Lookup_hit_mode h table name r :
  ScriptContextTable_Lookup h table name = Ok (Some r) ->
  exists a c si,
    context_at h a = Ok c
    /\ scope_info c = Ok si
    /\ 0 <= sl_slot_index (ContextSlotIndex si name)
    /\ mode r = sl_mode (ContextSlotIndex si name).
Proof.
  intros Hl.
  destruct (table_at h table) as [t| |] eqn:Ht;
    [|unfold ScriptContextTable_Lookup in Hl; rewrite Ht in Hl;
      discriminate..].
  pose proof (ScriptContextTable_Lookup_from_scan h t name
                (Z.to_nat (used t)) 0) as Hscan.
  unfold ScriptContextTable_Lookup in Hl. rewrite Ht in Hl. cbn [bind] in Hl.
  rewrite Hl in Hscan. destruct Hscan as (_ & (q & Hq & Hslot & ->) & _).
  cbn [mode]. unfold entry_query in Hq.
  destruct (ScriptContextTable_GetContext t _) as [found| |];
    cbn [bind] in Hq; try discriminate.
  destruct (context_at h found) as [c| |] eqn:Hc;
    cbn [bind] in Hq; try discriminate.
  destruct (scope_info c) as [si| |] eqn:Hsi;
    cbn [bind] in Hq; try discriminate.
  injection Hq as <-. by exists found, c, si.
Qed.

Lemma Lookup_objects_result_shape h c name flags s :
  descriptors_classified h name ->
  Lookup_objects h c name flags initial_out = Ok s ->
  match s with
  | Return r => result_shape r
  | Continue o => o = initial_out
  end.
Proof.
  intros Hmodes.
  unfold Lookup_objects. case_match; [|by intros [= <-]].
  destruct (extension_receiver c) as [[object|]| |];
    cbn [bind]; try discriminate; [|by intros [= <-]].
  destruct (if IsNativeContext c then _ else _) as [[r|]| |] eqn:Htable;
    cbn [bind]; try discriminate.
  - destruct (IsNativeContext c); [|discriminate].
    pose proof (ScriptContextTable_Lookup_hit _ _ _ _ Htable)
      as (_ & _ & _ & _ & Hslot).
    apply ScriptContextTable_Lookup_hit_mode in Htable
      as (a' & c' & si & Hc' & Hsi & Hdeclared & Hmode).
    destruct (GetAttributesAndBindingFlags _ _) as [[a b]| |] eqn:Hclass;
      cbn [bind]; try discriminate.
    apply GetAttributesAndBindingFlags_classifies in Hclass as [Hb Ha].
    2:{ rewrite Hmode. eapply Hmodes; eauto. }
    destruct (table_at _ _) as [t| |]; cbn [bind]; try discriminate.
    destruct (ScriptContextTable_GetContext _ _) as [found| |];
      cbn [bind]; try discriminate.
    intros [= <-]. unfold result_shape. cbn. auto.
  - destruct (Lookup_probe c flags object name) as [a|].
    + destruct (a =? ABSENT) eqn:Ha; cbn [negb]; intros [= <-].
      * apply Z.eqb_eq in Ha. by subst a.
      * apply Z.eqb_neq in Ha. unfold result_shape. cbn. auto.
    + intros [= <-]. reflexivity.
Qed.

Lemma Lookup_slots_result_shape h a c name follow o r :
  descriptors_classified h name ->
  context_at h a = Ok c ->
  Lookup_slots a c name follow o = Ok (Return r) ->
  holder r = context_handle a /\ result_shape r.
Proof.
  intros Hmodes Hc.
  unfold Lookup_slots. case_match.
  - destruct (if IsFunctionContext c then _ else _) as [si| |] eqn:Hsi;
      cbn [bind]; try discriminate.
    assert (Hwhich : scope_info c = Ok si \/ si = closure_scope_info c).
    { destruct (IsFunctionContext c); [right; congruence|by left]. }
    destruct (0 <=? sl_slot_index (ContextSlotIndex si name)) eqn:Hslot.
    + apply Z.leb_le in Hslot.
      destruct (GetAttributesAndBindingFlags _ _) as [[a' b]| |] eqn:Hclass;
        cbn [bind]; try discriminate.
      apply GetAttributesAndBindingFlags_classifies in Hclass as [Hb Ha];
        [|by eapply Hmodes].
      intros [= <-]. split; [done|]. unfold result_shape. cbn. auto.
    + destruct (follow && IsFunctionContext c); [|discriminate].
      destruct (FunctionContextSlotIndex si name) as [fi m].
      destruct (0 <=? fi) eqn:Hfi; [|discriminate].
      apply Z.leb_le in Hfi. intros [= <-]. split; [done|].
      unfold result_shape. cbn. split; [auto|]. split; [|auto].
      by case_decide.
  - destruct (IsCatchContext c); [|discriminate].
    destruct (catch_name c) as [cn| |]; cbn [bind]; try discriminate.
    destruct (String.eqb name cn); [|discriminate].
    intros [= <-]. split; [done|].
    unfold result_shape. cbn. auto.
Qed.

(** X17. Whatever [Context::Lookup] returns has one of three shapes,
    provided the descriptors of the heap report a slot for the name with
    the modes [VAR], [LET], [CONST_LEGACY] and [CONST] only, the ones the
    classifier has a case for.  The null handle comes with the
    out-parameters as set on entry.  An object comes with no index, binding
    flags missing and the attributes of a property that is present.  A
    context comes with a slot index (not negative, or the thrown-object
    slot), with binding flags that are not missing and with attributes
    [NONE] or [READ_ONLY]. *)
Theorem Context_Lookup_result_shape fuel h this name flags r :
  descriptors_classified h name ->
  Context_Lookup fuel h this name flags = Ok r ->
  match holder r with
  | null_handle => out r = initial_out
  | receiver_handle _ =>
      index (out r) = kNotFound
      /\ binding_flags (out r) = MISSING_BINDING
      /\ attributes (out r) <> ABSENT
  | context_handle _ =>
      (0 <= index (out r) \/ index (out r) = THROWN_OBJECT_INDEX)
      /\ binding_flags (out r) <> MISSING_BINDING
      /\ (attributes (out r) = NONE \/ attributes (out r) = READ_ONLY)
  end.
Proof.
  intros Hmodes (b & c & _ & Hc & Hit & _)%Context_Lookup_returns.
  change (result_shape r).
  rewrite (Lookup_iteration_phases h b c) in Hit by done.
  destruct (Lookup_objects h c name flags initial_out) as [s1| |] eqn:H1;
    cbn [bind] in Hit; try discriminate.
  apply Lookup_objects_result_shape in H1; [|done].
  destruct s1 as [r1|o1]; [by injection Hit as <-|]. subst o1.
  destruct (Lookup_slots b c name _ initial_out) as [[r2|o2]| |] eqn:H2;
    cbn [bind] in Hit; try discriminate.
  - injection Hit as <-.
    by eapply Lookup_slots_result_shape in H2 as [_ ?].
  - apply Lookup_slots_ends in H2. subst o2.
    apply Lookup_continuation_ends in Hit. subst r. reflexivity.
Qed.

(** *** The function name *)

(** X18. The slot that holds the name of a function expression is looked
    at only when the context chain is followed.  In a function context
    without extension object whose descriptor does not declare the name, a
    name that [FunctionContextSlotIndex] knows resolves to that slot of the
    context, read-only and initialized, in the legacy variant exactly for
    mode [CONST_LEGACY]; without [FOLLOW_CONTEXT_CHAIN] the same lookup finds
    nothing. *)
Theorem Lookup_function_name_slot
    fuel h a c name flags function_index function_mode :
  h !! a = Some (context_object c) ->
  kind c = FunctionContext ->
  extension c = ext_nullptr ->
  sl_slot_index (ContextSlotIndex (closure_scope_info c) name) < 0 ->
  FunctionContextSlotIndex (closure_scope_info c) name
  = (function_index, function_mode) ->
  0 <= function_index ->
  (has_flag flags FOLLOW_CONTEXT_CHAIN = true ->
   Context_Lookup (S fuel) h a name flags
   = Ok {| holder := context_handle a;
           out := {| index := function_index;
                     attributes := READ_ONLY;
                     binding_flags :=
                       if decide (function_mode = CONST_LEGACY)
                       then IMMUTABLE_IS_INITIALIZED
                       else IMMUTABLE_IS_INITIALIZED_HARMONY |};
           has_pending_exception := false |})
  /\ (has_flag flags FOLLOW_CONTEXT_CHAIN = false ->
      Context_Lookup (S fuel) h a name flags
      = Ok (no_property_or_slot_found initial_out)).
Proof.
  intros Ha Hk Hext Hmiss Hfn Hfi.
  unfold Context_Lookup. cbn [Lookup_loop].
  rewrite (Lookup_iteration_phases h a c) by by apply context_at_Some.
  unfold Lookup_objects, extension_receiver, extension_object.
  kind_cases Hk. rewrite Hext. cbn [orb bind].
  unfold Lookup_slots. kind_cases Hk. cbn [orb bind].
  replace (0 <=? sl_slot_index (ContextSlotIndex (closure_scope_info c) name))
    with false by (symmetry; apply Z.leb_gt; lia).
  rewrite Hfn.
  replace (0 <=? function_index) with true by (symmetry; apply Z.leb_le; lia).
  split.
  - intros ->. done.
  - intros ->. cbn [andb bind].
    unfold Lookup_continuation, Lookup_stops. kind_cases Hk.
    destruct (has_flag flags STOP_AT_DECLARATION_SCOPE); [|done].
    rewrite is_declaration_context_kind, Hk. done.
Qed.

End MoreResolverProperties.

(** ** The lists of optimized functions and code *)

Section ListProperties.

Context `{CF : CodeFlusher}.

Implicit Types (links : gmap Z Element) (l : list Address)
  (s : NativeContextLists).

Lemma linked_functional links e l1 :
  linked links e l1 -> forall l2, linked links e l2 -> l1 = l2.
Proof.
  induction 1 as [|a next l1 Ha _ IH]; intros l2 H2; inversion H2; subst.
  - done.
  - f_equal. apply IH. congruence.
Qed.

Lemma linked_from_member links e l a :
  linked links e l -> a ∈ l ->
  exists l', linked links (heap_object a) (a :: l')
             /\ (length l' < length l)%nat.
Proof.
  induction 1 as [|x next l Hx Hl IH]; intros Ha.
  - by apply not_elem_of_nil in Ha.
  - apply elem_of_cons in Ha as [->|Ha].
    + exists l. split; [by apply (linked_next _ _ next)|simpl; lia].
    + destruct (IH Ha) as (l' & Hl' & Hlen). exists l'.
      split; [done|simpl; lia].
Qed.

(** A list that ends is free of repetitions. *)
Lemma linked_NoDup links e l : linked links e l -> NoDup l.
Proof.
  induction 1 as [|a next l Ha Hl IH]; constructor; [|done].
  intros Hin.
  destruct (linked_from_member _ _ _ _ Hl Hin) as (l' & Hl' & Hlen).
  assert (a :: l = a :: l') as [= ->].
  { apply (linked_functional links (heap_object a));
      [by apply (linked_next _ a next)|done]. }
  lia.
Qed.

Lemma linked_insert_other links e l a v :
  linked links e l -> a ∉ l -> linked (<[a := v]> links) e l.
Proof.
  induction 1 as [|x next l Hx Hl IH]; intros Ha; [constructor|].
  apply not_elem_of_cons in Ha as [Hne Ha].
  apply (linked_next _ _ next); [by rewrite lookup_insert_ne|auto].
Qed.

Lemma set_next_link_Some links a e old :
  links !! a = Some old -> set_next_link links a e = Ok (<[a := e]> links).
Proof. unfold set_next_link. by intros ->. Qed.

(** X19. [AddOptimizedFunction] puts the function at the head of the list:
    for a function that is not a flushing candidate (its link is undefined)
    and not yet on the list, the head afterwards is the function, the list
    is the function followed by the old list, no link other than the
    function's has changed, and the code lists are as before. *)
Theorem AddOptimizedFunction_pushes s links function l :
  linked links (OPTIMIZED_FUNCTIONS_LIST s) l ->
  links !! function = Some undefined_value ->
  function ∉ l ->
  exists s' links',
    AddOptimizedFunction s links function = Ok (s', links')
    /\ OptimizedFunctionsListHead s' = heap_object function
    /\ linked links' (OPTIMIZED_FUNCTIONS_LIST s') (function :: l)
    /\ (forall a, a <> function -> links' !! a = links !! a)
    /\ OptimizedCodeListHead s' = OptimizedCodeListHead s
    /\ DeoptimizedCodeListHead s' = DeoptimizedCodeListHead s.
Proof.
  intros Hl Hf Hnew.
  exists (SetOptimizedFunctionsListHead s (heap_object function)),
    (<[function := OPTIMIZED_FUNCTIONS_LIST s]> links).
  split.
  { unfold AddOptimizedFunction, next_link. rewrite Hf. cbn [bind IsUndefined negb].
    by rewrite (set_next_link_Some _ _ _ undefined_value). }
  split; [done|]. split.
  { cbn. apply (linked_next _ _ (OPTIMIZED_FUNCTIONS_LIST s));
      [by rewrite lookup_insert_eq|].
    by apply linked_insert_other. }
  split; [|done]. intros a Ha. by rewrite lookup_insert_ne.
Qed.

(** The loop of [RemoveOptimizedFunction] at an element of the list whose
    remainder holds the function: [cell] is where the pointer to the element
    is kept, the head slot or the link of the previous function. *)
Lemma RemoveOptimizedFunction_loop_unlinks function links0 :
  forall l element, linked links0 element l ->
  forall fuel s links prev,
    links = links0 ->
    function ∈ l ->
    (length l <= fuel)%nat ->
    match prev with
    | None => OPTIMIZED_FUNCTIONS_LIST s = element
    | Some p => links !! p = Some element /\ p ∉ l
    end ->
    exists s' links' element',
      RemoveOptimizedFunction_loop fuel s links function element prev
      = Ok (s', links')
      /\ match prev with
         | None => s' = SetOptimizedFunctionsListHead s element'
         | Some p => s' = s /\ links' !! p = Some element'
         end
      /\ linked links' element' (without function l)
      /\ links' !! function = Some undefined_value
      /\ (forall a, a ∉ l -> Some a <> prev -> links' !! a = links !! a).
Proof.
  intros l element Hl.
  pose proof (linked_NoDup _ _ _ Hl) as Hnodup.
  induction Hl as [|x next l Hx Hl IH];
    intros fuel s links prev -> Hin Hfuel Hprev.
  { by apply not_elem_of_nil in Hin. }
  apply NoDup_cons in Hnodup as [Hxl Hnodup].
  destruct fuel as [|fuel]; [simpl in Hfuel; lia|].
  cbn [RemoveOptimizedFunction_loop without].
  unfold next_link at 1. rewrite Hx. cbn [bind].
  destruct (x =? function) eqn:Heq.
  - apply Z.eqb_eq in Heq. subst x.
    destruct prev as [p|].
    + destruct Hprev as [Hp Hpl].
      apply not_elem_of_cons in Hpl as [Hpf Hpl].
      rewrite (set_next_link_Some _ _ _ (heap_object function)) by done.
      cbn [bind].
      rewrite (set_next_link_Some _ _ _ next)
        by by rewrite lookup_insert_ne.
      exists s, (<[function := undefined_value]> (<[p := next]> links0)), next.
      split; [done|]. split.
      { split; [done|]. rewrite lookup_insert_ne by done.
        by rewrite lookup_insert_eq. }
      split; [apply linked_insert_other; [|done];
              by apply linked_insert_other|].
      split; [by rewrite lookup_insert_eq|].
      intros a Ha Hap. apply not_elem_of_cons in Ha as [Haf _].
      rewrite !lookup_insert_ne; [done|congruence|congruence].
    + cbn [bind]. rewrite (set_next_link_Some _ _ _ next) by done.
      exists (SetOptimizedFunctionsListHead s next),
        (<[function := undefined_value]> links0), next.
      split; [done|]. split; [done|].
      split; [by apply linked_insert_other|].
      split; [by rewrite lookup_insert_eq|].
      intros a Ha _. apply not_elem_of_cons in Ha as [Haf _].
      by rewrite lookup_insert_ne.
  - apply Z.eqb_neq in Heq.
    apply elem_of_cons in Hin as [->|Hin]; [done|].
    destruct (IH Hnodup fuel s links0 (Some x) eq_refl Hin)
      as (s' & links' & element' & Hloop & [-> Hcell] & Hrest & Hfun & Hframe).
    { simpl in Hfuel. lia. }
    { done. }
    exists s, links', (heap_object x).
    split; [done|]. split; [|split; [|split]].
    + destruct prev as [p|]; [|by rewrite <- Hprev; destruct s].
      destruct Hprev as [Hp Hpl]. split; [done|].
      apply not_elem_of_cons in Hpl as [Hpx Hpl].
      rewrite Hframe; [done|done|congruence].
    + by apply (linked_next _ _ element').
    + done.
    + intros a Ha Hap. apply not_elem_of_cons in Ha as [Hax Ha].
      apply Hframe; [done|congruence].
Qed.

(** X20. [RemoveOptimizedFunction] unlinks the function: for a function on
    the list, the list afterwards is the old one without it, in the same
    order, the function's own link is undefined again, the links of all
    functions outside the list are untouched, and the code lists are as
    before. *)
Theorem RemoveOptimizedFunction_unlinks fuel s links function l :
  linked links (OPTIMIZED_FUNCTIONS_LIST s) l ->
  function ∈ l ->
  (length l <= fuel)%nat ->
  exists s' links',
    RemoveOptimizedFunction fuel s links function = Ok (s', links')
    /\ linked links' (OPTIMIZED_FUNCTIONS_LIST s') (without function l)
    /\ links' !! function = Some undefined_value
    /\ (forall a, a ∉ l -> links' !! a = links !! a)
    /\ OptimizedCodeListHead s' = OptimizedCodeListHead s
    /\ DeoptimizedCodeListHead s' = DeoptimizedCodeListHead s.
Proof.
  intros Hl Hin Hfuel.
  destruct (RemoveOptimizedFunction_loop_unlinks function links l _ Hl
              fuel s links None eq_refl Hin Hfuel eq_refl)
    as (s' & links' & element' & Hloop & -> & Hrest & Hfun & Hframe).
  exists (SetOptimizedFunctionsListHead s element'), links'.
  split; [done|]. split; [done|]. split; [done|].
  split; [|done]. intros a Ha. by apply Hframe.
Qed.

(** X21. Removing a function right after adding it undoes the addition:
    for a function whose link is undefined, the slots and all links are
    exactly as they were before the two calls. *)
Theorem RemoveOptimizedFunction_undoes_Add fuel s links function :
  links !! function = Some undefined_value ->
  (do '(s', links') <- AddOptimizedFunction s links function;
   RemoveOptimizedFunction (S fuel) s' links' function)
  = Ok (s, links).
Proof.
  intros Hf. unfold AddOptimizedFunction, next_link. rewrite Hf.
  cbn [bind IsUndefined negb].
  rewrite (set_next_link_Some _ _ _ undefined_value) by done. cbn [bind].
  unfold RemoveOptimizedFunction. cbn [RemoveOptimizedFunction_loop
    SetOptimizedFunctionsListHead OPTIMIZED_FUNCTIONS_LIST].
  unfold next_link. rewrite lookup_insert_eq. cbn [bind].
  rewrite Z.eqb_refl. cbn [bind].
  rewrite (set_next_link_Some _ _ _ (OPTIMIZED_FUNCTIONS_LIST s))
    by by rewrite lookup_insert_eq.
  cbn [bind]. rewrite insert_insert_eq, insert_id by done.
  by destruct s.
Qed.

(** X22. [RemoveOptimizedFunction] of a function that is not on the list
    changes nothing: the loop runs through the whole list without touching
    the head or a link, and the function returns with both as they were
    ([UNREACHABLE()] after the loop does nothing in the build followed
    here). *)
Theorem RemoveOptimizedFunction_absent_changes_nothing
    fuel s links function l :
  linked links (OPTIMIZED_FUNCTIONS_LIST s) l ->
  function ∉ l ->
  (length l < fuel)%nat ->
  RemoveOptimizedFunction fuel s links function = Ok (s, links).
Proof.
  unfold RemoveOptimizedFunction. generalize (@None Z).
  generalize (OPTIMIZED_FUNCTIONS_LIST s) at 1 2.
  intros element prev Hl. revert fuel prev.
  induction Hl as [|x next l Hx Hl IH]; intros fuel prev Hnot Hfuel.
  - destruct fuel as [|fuel]; [simpl in Hfuel; lia|]. done.
  - destruct fuel as [|fuel]; [simpl in Hfuel; lia|].
    apply not_elem_of_cons in Hnot as [Hne Hnot].
    cbn [RemoveOptimizedFunction_loop]. unfold next_link. rewrite Hx.
    cbn [bind].
    replace (x =? function) with false by (symmetry; apply Z.eqb_neq; done).
    apply IH; [done|simpl in Hfuel; lia].
Qed.

(** X23. [AddOptimizedCode] puts the code object at the head of the list of
    optimized code: for a code object that is not yet on the list, the list
    afterwards is the code object followed by the old list, no other link
    has changed, and the heads of the other two lists are as before. *)
Theorem AddOptimizedCode_pushes s links code l old :
  linked links (OPTIMIZED_CODE_LIST s) l ->
  links !! code = Some old ->
  code ∉ l ->
  exists s' links',
    AddOptimizedCode s links code = Ok (s', links')
    /\ OptimizedCodeListHead s' = heap_object code
    /\ linked links' (OPTIMIZED_CODE_LIST s') (code :: l)
    /\ (forall a, a <> code -> links' !! a = links !! a)
    /\ OptimizedFunctionsListHead s' = OptimizedFunctionsListHead s
    /\ DeoptimizedCodeListHead s' = DeoptimizedCodeListHead s.
Proof.
  intros Hl Hc Hnew.
  exists (SetOptimizedCodeListHead s (heap_object code)),
    (<[code := OPTIMIZED_CODE_LIST s]> links).
  split.
  { unfold AddOptimizedCode. by rewrite (set_next_link_Some _ _ _ old). }
  split; [done|]. split.
  { cbn. apply (linked_next _ _ (OPTIMIZED_CODE_LIST s));
      [by rewrite lookup_insert_eq|].
    by apply linked_insert_other. }
  split; [|done]. intros a Ha. by rewrite lookup_insert_ne.
Qed.

End ListProperties.

(** ** Global slots and field indices *)

Section SlotProperties.

Context `{HC : HeaderConstants} `{SO : ScopeInfoOracle}
  `{GL : !GlobalSlotLayout} `{NF : NativeContextFields}.

Lemma Context_set_run_sets value n : forall slots index,
  0 <= index ->
  index + Z.of_nat n <= Z.of_nat (length slots) ->
  exists slots',
    Context_set_run slots index n value = Ok slots'
    /\ length slots' = length slots
    /\ (forall i : nat,
          slots' !! i
          = if decide (index <= Z.of_nat i < index + Z.of_nat n)
            then Some value else slots !! i).
Proof.
  induction n as [|n IH]; intros slots index Hlo Hhi.
  - exists slots. split; [done|]. split; [done|].
    intros i. case_decide; [lia|done].
  - cbn [Context_set_run]. unfold Context_set.
    replace ((0 <=? index) && (index <? Z.of_nat (length slots))) with true.
    2:{ symmetry. apply andb_true_iff.
        split; [apply Z.leb_le|apply Z.ltb_lt]; lia. }
    cbn [bind].
    destruct (IH (<[Z.to_nat index := value]> slots) (index + 1))
      as (slots' & Hrun & Hlen & Hget).
    { lia. }
    { rewrite length_insert. lia. }
    exists slots'. split; [done|]. split.
    { by rewrite Hlen, length_insert. }
    intros i. rewrite Hget.
    destruct (decide (Z.of_nat i = index)) as [Hi|Hi].
    + repeat case_decide; try lia.
      replace i with (Z.to_nat index) by lia.
      apply list_lookup_insert_eq. lia.
    + rewrite list_lookup_insert_ne by lia.
      repeat case_decide; try lia; done.
Qed.

(** X24. [InitializeGlobalSlots] sets the slots of the context globals, and
    only those: for a context whose descriptor counts [n] globals after
    [k] locals, the slots from [MIN_CONTEXT_SLOTS + k] up to
    [MIN_CONTEXT_SLOTS + k + n] hold the empty property cell afterwards,
    every other slot holds what it held, and the number of slots is the
    same.  With no globals nothing changes. *)
Theorem InitializeGlobalSlots_sets_globals_only c si slots :
  scope_info c = Ok si ->
  0 <= MIN_CONTEXT_SLOTS + ContextLocalCount si ->
  MIN_CONTEXT_SLOTS + ContextLocalCount si + ContextGlobalCount si
  <= Z.of_nat (length slots) ->
  exists slots',
    InitializeGlobalSlots c slots = Ok slots'
    /\ length slots' = length slots
    /\ (forall i : nat,
          slots' !! i
          = if decide (MIN_CONTEXT_SLOTS + ContextLocalCount si <= Z.of_nat i
                       < MIN_CONTEXT_SLOTS + ContextLocalCount si
                         + ContextGlobalCount si)
            then Some (heap_object empty_property_cell)
            else slots !! i)
    /\ (ContextGlobalCount si <= 0 -> slots' = slots).
Proof.
  intros Hsi Hlo Hhi. unfold InitializeGlobalSlots. rewrite Hsi. cbn [bind].
  destruct (0 <? ContextGlobalCount si) eqn:Hn.
  - apply Z.ltb_lt in Hn.
    destruct (Context_set_run_sets (heap_object empty_property_cell)
                (Z.to_nat (ContextGlobalCount si)) slots
                (MIN_CONTEXT_SLOTS + ContextLocalCount si))
      as (slots' & -> & Hlen & Hget); [lia|lia|].
    exists slots'. split; [done|]. split; [done|]. split; [|lia].
    intros i. rewrite Hget. repeat case_decide; try lia; done.
  - apply Z.ltb_ge in Hn. exists slots. split; [done|]. split; [done|].
    split; [|done]. intros i. case_decide; [lia|done].
Qed.

Lemma COMPARE_NAME_first fields string :
  match COMPARE_NAME fields string with
  | Some index =>
      exists before after,
        fields = before ++ (index, string) :: after
        /\ (forall i, (i, string) ∉ before)
  | None => forall i, (i, string) ∉ fields
  end.
Proof.
  induction fields as [|[index name] fields IH]; cbn [COMPARE_NAME].
  - intros i. apply not_elem_of_nil.
  - destruct (String.eqb string name) eqn:Heq.
    + apply String.eqb_eq in Heq. subst name.
      exists [], fields. split; [done|]. intros i. apply not_elem_of_nil.
    + apply String.eqb_neq in Heq.
      destruct (COMPARE_NAME fields string) as [found|].
      * destruct IH as (before & after & -> & Hnot).
        exists ((index, name) :: before), after. split; [done|].
        intros i [[=]|Hin]%elem_of_cons; [done|]. by eapply Hnot.
      * intros i [[=]|Hin]%elem_of_cons; [done|]. by eapply IH.
Qed.

(** X25. [ImportedFieldIndexForName] and [IntrinsicIndexForName] answer with
    the index of the first field of their list that bears the name, and with
    [kNotFound] exactly when the list has no field of that name (taking it
    that [kNotFound] is no field index). *)
Theorem IndexForName_first_field string :
  (forall before index after,
     NATIVE_CONTEXT_IMPORTED_FIELDS = before ++ (index, string) :: after ->
     (forall i, (i, string) ∉ before) ->
     ImportedFieldIndexForName string = index)
  /\ ((forall i, (i, string) ∉ NATIVE_CONTEXT_IMPORTED_FIELDS) ->
      ImportedFieldIndexForName string = kNotFound)
  /\ ((forall name, (kNotFound, name) ∉ NATIVE_CONTEXT_IMPORTED_FIELDS) ->
      ImportedFieldIndexForName string = kNotFound ->
      forall i, (i, string) ∉ NATIVE_CONTEXT_IMPORTED_FIELDS)
  /\ (forall before index after,
        NATIVE_CONTEXT_INTRINSIC_FUNCTIONS
        = before ++ (index, string) :: after ->
        (forall i, (i, string) ∉ before) ->
        IntrinsicIndexForName string = index)
  /\ ((forall i, (i, string) ∉ NATIVE_CONTEXT_INTRINSIC_FUNCTIONS) ->
      IntrinsicIndexForName string = kNotFound)
  /\ ((forall name, (kNotFound, name) ∉ NATIVE_CONTEXT_INTRINSIC_FUNCTIONS) ->
      IntrinsicIndexForName string = kNotFound ->
      forall i, (i, string) ∉ NATIVE_CONTEXT_INTRINSIC_FUNCTIONS).
Proof.
  assert (Hgen : forall fields,
    (forall before index after,
       fields = before ++ (index, string) :: after ->
       (forall i, (i, string) ∉ before) ->
       COMPARE_NAME fields string = Some index)
    /\ ((forall i, (i, string) ∉ fields) ->
        COMPARE_NAME fields string = None)
    /\ ((forall name, (kNotFound, name) ∉ fields) ->
        match COMPARE_NAME fields string with
        | Some index => index
        | None => kNotFound
        end = kNotFound ->
        forall i, (i, string) ∉ fields)).
  { intros fields. pose proof (COMPARE_NAME_first fields string) as Hfirst.
    split; [|split].
    - intros before index after -> Hnot.
      destruct (COMPARE_NAME _ string) as [found|].
      + destruct Hfirst as (before' & after' & Heq & Hnot').
        f_equal.
        assert (Hmid : forall (l1 l2 l1' l2' : list (Z * String.string)) x y,
                  l1 ++ (x, string) :: l2 = l1' ++ (y, string) :: l2' ->
                  (forall i, (i, string) ∉ l1) ->
                  (forall i, (i, string) ∉ l1') -> x = y).
        { clear. induction l1 as [|[a n] l1 IH];
            intros l2 [|[a' n'] l1'] l2' x y Heq H1 H2;
            simplify_eq/=; try done.
          - exfalso. eapply H2. by left.
          - exfalso. eapply H1. by left.
          - eapply IH; [done| |].
            + intros i Hi. eapply H1. by right.
            + intros i Hi. eapply H2. by right. }
        symmetry. by eapply Hmid.
      + exfalso. eapply Hfirst. apply elem_of_app. right. by left.
    - intros Hnot. destruct (COMPARE_NAME fields string) as [found|]; [|done].
      destruct Hfirst as (before & after & -> & _).
      exfalso. eapply Hnot. apply elem_of_app. right. by left.
    - intros Hk Hres.
      destruct (COMPARE_NAME fields string) as [found|]; [|done].
      destruct Hfirst as (before & after & -> & _). subst found.
      exfalso. eapply Hk. apply elem_of_app. right. by left. }
  unfold ImportedFieldIndexForName, IntrinsicIndexForName.
  destruct (Hgen NATIVE_CONTEXT_IMPORTED_FIELDS) as (H1 & H2 & H3).
  destruct (Hgen NATIVE_CONTEXT_INTRINSIC_FUNCTIONS) as (H4 & H5 & H6).
  split; [|split; [|split; [|split; [|split]]]].
  - intros before index after Heq Hnot. by rewrite (H1 _ _ _ Heq Hnot).
  - intros Hnot. by rewrite H2.
  - done.
  - intros before index after Heq Hnot. by rewrite (H4 _ _ _ Heq Hnot).
  - intros Hnot. by rewrite H5.
  - done.
Qed.

End SlotProperties.

(** * The properties at work on the example heap *)

Section Witnesses.

#[local] Existing Instance example_constants.
#[local] Existing Instance example_descriptors.
#[local] Existing Instance demo_objects.

(** C2. Looked up at the with context 8 without [FOLLOW_PROTOTYPE_CHAIN]
    (here with [FOLLOW_CONTEXT_CHAIN] alone), ["this"] resolves to the
    subject of the with context, object 100, which has an own property of
    that name. *)
Theorem Lookup_this_resolves_to_with_subject :
  Context_Lookup 1 demo_heap 8 "this" FOLLOW_CONTEXT_CHAIN
  = Ok {| holder := receiver_handle 100;
          out := {| index := kNotFound; attributes := NONE;
                    binding_flags := MISSING_BINDING |};
          has_pending_exception := false |}.
Proof. vm_compute. reflexivity. Qed.

(** The table at 2 holds two script contexts that both declare ["x"], at
    slots 3 and 5: the first one answers. *)
Lemma ScriptContextTable_Lookup_first_match_witness :
  demo_heap !! 2 = Some (script_context_table_object demo_table)
  /\ ScriptContextTable_Lookup demo_heap 2 "x"
     = Ok (Some {| context_index := 0; slot_index := 3; mode := LET;
                   init_flag := kNeedsInitialization;
                   maybe_assigned_flag := kNotAssigned |})
  /\ (forall i q, 0 <= i < 2 ->
                  entry_query demo_heap demo_table "x" i = Ok q ->
                  0 <= sl_slot_index q -> 0 <= i).
Proof.
  split; [reflexivity|]. split; [reflexivity|].
  pose proof (ScriptContextTable_Lookup_first_match
                demo_heap 2 "x" demo_table eq_refl) as H.
  change (ScriptContextTable_Lookup demo_heap 2 "x")
    with (Ok (Some {| context_index := 0; slot_index := 3; mode := LET;
                      init_flag := kNeedsInitialization;
                      maybe_assigned_flag := kNotAssigned |})) in H.
  exact (proj2 (proj2 (proj2 H))).
Defined.

(** The table at 10 has length 4 and three entries: appending a fourth
    allocates a table of length at least 8. *)
Lemma Extend_full_grows_witness :
  demo_heap !! 10 = Some (script_context_table_object demo_full_table)
  /\ 0 < kFirstContextSlot
  /\ 0 <= used demo_full_table
  /\ used demo_full_table + kFirstContextSlot
     = FixedArray_length demo_full_table
  /\ FixedArray_length demo_full_table < Z.quot Smi_kMaxValue 2
  /\ exists result t',
       ScriptContextTable_Extend demo_heap 10 4
       = Ok (result, <[result := script_context_table_object t']> demo_heap)
       /\ result <> 10
       /\ 2 * FixedArray_length demo_full_table <= FixedArray_length t'
       /\ ScriptContextTable_GetContext t' 3 = Ok 4
       /\ used t' = 4.
Proof.
  assert (H1 : demo_heap !! 10
               = Some (script_context_table_object demo_full_table))
    by reflexivity.
  assert (H2 : 0 < kFirstContextSlot) by reflexivity.
  assert (H3 : 0 <= used demo_full_table) by (vm_compute; discriminate).
  assert (H4 : used demo_full_table + kFirstContextSlot
               = FixedArray_length demo_full_table) by reflexivity.
  assert (H5 : FixedArray_length demo_full_table < Z.quot Smi_kMaxValue 2)
    by reflexivity.
  repeat (split; [assumption|]).
  destruct (Extend_full_grows demo_heap 10 4 demo_full_table H1 H2 H3 H4 H5)
    as (result & t' & He & _ & Hne & Hlen & _ & _ & Hnew & Hused).
  exists result, t'. repeat split; assumption.
Defined.

(** The table at 2 has length 4 and two entries: a third one is written in
    place. *)
Lemma Extend_non_full_in_place_witness :
  demo_heap !! 2 = Some (script_context_table_object demo_table)
  /\ 0 < kFirstContextSlot
  /\ 0 <= used demo_table
  /\ used demo_table + kFirstContextSlot < FixedArray_length demo_table
  /\ exists t',
       ScriptContextTable_Extend demo_heap 2 4
       = Ok (2, <[2 := script_context_table_object t']> demo_heap)
       /\ used t' = 3
       /\ FixedArray_length t' = 4
       /\ ScriptContextTable_GetContext t' 2 = Ok 4.
Proof.
  assert (H1 : demo_heap !! 2 = Some (script_context_table_object demo_table))
    by reflexivity.
  assert (H2 : 0 < kFirstContextSlot) by reflexivity.
  assert (H3 : 0 <= used demo_table) by (vm_compute; discriminate).
  assert (H4 : used demo_table + kFirstContextSlot
               < FixedArray_length demo_table) by reflexivity.
  repeat (split; [assumption|]).
  destruct (Extend_non_full_in_place demo_heap 2 4 demo_table H1 H2 H3 H4)
    as (t' & He & Hused & Hlen & Hnew & _).
  exists t'. repeat split; assumption.
Defined.

(** From the with context 8, whose subject has a property ["x"], a lookup
    that skips with contexts finds ["x"] in the script context 4. *)
Lemma Lookup_skip_with_witness :
  has_flag 11 SKIP_WITH_CONTEXT = true
  /\ Context_Lookup 10 demo_heap 8 "x" 11
     = Ok {| holder := context_handle 4;
             out := {| index := 5; attributes := READ_ONLY;
                       binding_flags := IMMUTABLE_IS_INITIALIZED_HARMONY |};
             has_pending_exception := false |}
  /\ (forall r subject,
        Context_Lookup 10 demo_heap 8 "x" 11 = Ok r ->
        (forall b c, demo_heap !! b = Some (context_object c) ->
                     extension_receiver c = Ok (Some subject) ->
                     kind c = WithContext) ->
        holder r <> receiver_handle subject).
Proof.
  assert (H1 : has_flag 11 SKIP_WITH_CONTEXT = true) by reflexivity.
  split; [assumption|]. split; [vm_compute; reflexivity|].
  exact (proj2 (proj2 (Lookup_skip_with 10 demo_heap 8 "x" 11 H1))).
Defined.

(** From the with context 8 the declaration context is the function
    context 5, past the catch context 7 and the block context 6.  None of
    the three knows ["f"], so the lookup of ["f"] arrives at 5 and finds it
    there, in slot 4.  The global object behind the native context has a
    property ["g"]: the lookup does not get there, and cutting the chain
    behind 5 changes nothing. *)
Lemma Lookup_stops_at_declaration_context_witness :
  has_flag 5 STOP_AT_DECLARATION_SCOPE = true
  /\ declaration_context 4 demo_heap 8 = Ok 5
  /\ demo_heap !! 5 = Some (context_object demo_function)
  /\ chain demo_heap 8 [8; 7; 6] 5
  /\ walk demo_heap "f" 5 true 8 initial_out 5 initial_out
  /\ Lookup_iteration demo_heap 5 "f" 5 true initial_out
     = Ok (Finished
             {| holder := context_handle 5;
                out := {| index := 4; attributes := NONE;
                          binding_flags := MUTABLE_IS_INITIALIZED |};
                has_pending_exception := false |})
  /\ Context_Lookup 4 demo_heap 8 "f" 5
     = Ok {| holder := context_handle 5;
             out := {| index := 4; attributes := NONE;
                       binding_flags := MUTABLE_IS_INITIALIZED |};
             has_pending_exception := false |}
  /\ Context_Lookup 6 demo_heap 8 "g" 1
     = Ok {| holder := receiver_handle 200;
             out := {| index := kNotFound; attributes := NONE;
                       binding_flags := MISSING_BINDING |};
             has_pending_exception := false |}
  /\ Context_Lookup 4 demo_heap 8 "g" 5
     = Ok (no_property_or_slot_found initial_out)
  /\ Context_Lookup 10
       (<[5 := context_object (redirect demo_function None)]> demo_heap)
       8 "g" 5
     = Context_Lookup 10 demo_heap 8 "g" 5.
Proof.
  assert (H1 : has_flag 5 STOP_AT_DECLARATION_SCOPE = true) by reflexivity.
  assert (H2 : declaration_context 4 demo_heap 8 = Ok 5)
    by (vm_compute; reflexivity).
  assert (H3 : demo_heap !! 5 = Some (context_object demo_function))
    by reflexivity.
  assert (H4 : chain demo_heap 8 [8; 7; 6] 5).
  { apply (chain_step _ 8 demo_with 7); [reflexivity|reflexivity|].
    apply (chain_step _ 7 demo_catch 6); [reflexivity|reflexivity|].
    apply (chain_step _ 6 demo_block 5); [reflexivity|reflexivity|].
    apply chain_end. }
  assert (H5 : forall x, x ∈ [8; 7; 6] ->
            exists c, context_at demo_heap x = Ok c
                      /\ is_declaration_context c = Ok false
                      /\ yields_nothing demo_heap x c "f" 5).
  { intros x Hx. rewrite !elem_of_cons, elem_of_nil in Hx.
    destruct Hx as [->|[->|[->|[]]]];
      [exists demo_with|exists demo_catch|exists demo_block];
      (split; [reflexivity|]; split; [reflexivity|];
       split; vm_compute; reflexivity). }
  do 4 (split; [assumption|]).
  destruct (Lookup_stops_at_declaration_context
              4 10 demo_heap 8 5 demo_function "f" 5 None H1 H2 H3)
    as (_ & _ & Hpass & _).
  destruct (Hpass [8; 7; 6] H4 H5 eq_refl) as [Hwalk Hsame].
  split; [assumption|].
  assert (H6 : Lookup_iteration demo_heap 5 "f" 5 true initial_out
               = Ok (Finished
                       {| holder := context_handle 5;
                          out := {| index := 4; attributes := NONE;
                                    binding_flags := MUTABLE_IS_INITIALIZED |};
                          has_pending_exception := false |}))
    by (vm_compute; reflexivity).
  split; [assumption|].
  split; [apply (Hsame 4%nat); [simpl; lia|exact H6]|].
  do 2 (split; [vm_compute; reflexivity|]).
  destruct (Lookup_stops_at_declaration_context
              4 10 demo_heap 8 5 demo_function "g" 5 None H1 H2 H3)
    as (_ & _ & _ & _ & _ & Hcut & _).
  assumption.
Defined.

(** The catch context 7 binds ["e"]; for ["x"] the lookup is the one
    started at the block context 6. *)
Lemma Lookup_catch_context_witness :
  demo_heap !! 7 = Some (context_object demo_catch)
  /\ kind demo_catch = CatchContext
  /\ extension demo_catch = ext_String "e"
  /\ previous demo_catch = Some 6
  /\ Context_Lookup 5 demo_heap 7 "e" 3
     = Ok {| holder := context_handle 7;
             out := {| index := THROWN_OBJECT_INDEX; attributes := NONE;
                       binding_flags := MUTABLE_IS_INITIALIZED |};
             has_pending_exception := false |}
  /\ Context_Lookup 5 demo_heap 7 "x" 3 = Context_Lookup 4 demo_heap 6 "x" 3.
Proof.
  assert (H1 : demo_heap !! 7 = Some (context_object demo_catch))
    by reflexivity.
  do 4 (split; [reflexivity|]).
  split.
  - exact (proj1 (Lookup_catch_context 4 demo_heap 7 demo_catch "e"
                    "e" 3 H1 eq_refl eq_refl) eq_refl).
  - apply (proj1 (proj2 (Lookup_catch_context 4 demo_heap 7 demo_catch "e"
                           "x" 3 H1 eq_refl eq_refl))).
    + discriminate.
    + reflexivity.
    + reflexivity.
Defined.


(** The block context 6 has a plain descriptor declaring ["b"] at slot 4. *)
Lemma Lookup_block_plain_descriptor_witness :
  demo_heap !! 6 = Some (context_object demo_block)
  /\ kind demo_block = BlockContext
  /\ extension demo_block
     = ext_ScopeInfo
         (false, [("b"%string, example_slot 4 LET kNeedsInitialization)])
  /\ extension_object demo_block = Ok None
  /\ (forall name flags o,
        Lookup_objects demo_heap demo_block name flags o = Ok (Continue o))
  /\ exists r,
       Lookup_iteration demo_heap 6 "b" 3 true initial_out = Ok (Finished r)
       /\ holder r = context_handle 6
       /\ index (out r) = 4
       /\ binding_flags (out r) = MUTABLE_CHECK_INITIALIZED.
Proof.
  assert (H1 : demo_heap !! 6 = Some (context_object demo_block))
    by reflexivity.
  do 3 (split; [reflexivity|]).
  destruct (Lookup_block_plain_descriptor demo_heap 6 demo_block _
              H1 eq_refl eq_refl) as (Hobj & _ & Hskip & Hslot).
  split; [assumption|]. split; [assumption|].
  destruct (Lookup_iteration demo_heap 6 "b" 3 true initial_out)
    as [[r|p o]| |] eqn:Hit; try (vm_compute in Hit; discriminate).
  exists r. split; [reflexivity|].
  assert (Hnn : holder r <> null_handle).
  { vm_compute in Hit. injection Hit as <-. discriminate. }
  destruct (Hslot "b"%string 3 true initial_out r Hit Hnn)
    as (_ & Hholder & Hindex & Hclass & _).
  split; [assumption|]. split; [assumption|].
  change (Ok (NONE, MUTABLE_CHECK_INITIALIZED)
          = Ok (attributes (out r), binding_flags (out r))) in Hclass.
  injection Hclass as _ Hbf. symmetry. exact Hbf.
Defined.

End Witnesses.

(** * The further properties at work on the examples *)

Section MoreWitnesses.

#[local] Existing Instance example_constants.
#[local] Existing Instance example_descriptors.
#[local] Existing Instance demo_objects.

(** The chain from the with context 8 has six contexts: 8, 7, 6, 5, 4 and
    the native context 1. *)
Lemma demo_reaches_native : reaches_native demo_heap 8 6.
Proof.
  do 5 (eapply reaches_native_on; [reflexivity|reflexivity|]).
  eapply reaches_native_here; reflexivity.
Qed.

(** No context of the example heap makes [is_declaration_context] abort. *)
Lemma demo_declaration_contexts x c :
  context_at demo_heap x = Ok c -> is_declaration_context c <> Fatal.
Proof.
  unfold context_at. intros Hc.
  destruct (demo_heap !! x) as [[c'|t]|] eqn:Hx; try discriminate.
  injection Hc as ->.
  apply elem_of_map_to_list in Hx.
  revert Hx. vm_compute map_to_list.
  rewrite !elem_of_cons, elem_of_nil.
  intros H. repeat (destruct H as [H|H]); try done;
    simplify_eq; vm_compute; discriminate.
Qed.

(** The table at 11 has length 4 and [used] 4: [Extend] aborts on it. *)
Lemma Extend_aborts_outside_preconditions_witness :
  demo_more_heap !! 11 = Some (script_context_table_object demo_overfull_table)
  /\ FixedArray_length demo_overfull_table <= used demo_overfull_table
  /\ ScriptContextTable_Extend demo_more_heap 11 12 = Fatal.
Proof.
  assert (H1 : demo_more_heap !! 11
               = Some (script_context_table_object demo_overfull_table))
    by reflexivity.
  assert (H2 : FixedArray_length demo_overfull_table
               <= used demo_overfull_table) by (vm_compute; discriminate).
  do 2 (split; [assumption|]).
  exact (Extend_aborts_outside_preconditions demo_more_heap 11 12
           demo_overfull_table H1 (or_intror (or_introl H2))).
Defined.

(** Appending to the full table at 10 allocates a table elsewhere: the
    table at 10 is still what it was. *)
Lemma Extend_changes_returned_table_only_witness :
  exists table' h',
    ScriptContextTable_Extend demo_more_heap 10 12 = Ok (table', h')
    /\ (forall a, context_at h' a = context_at demo_more_heap a)
    /\ (table' <> 10 ->
        h' !! 10 = Some (script_context_table_object demo_full_table)).
Proof.
  destruct (ScriptContextTable_Extend demo_more_heap 10 12)
    as [[table' h']| |] eqn:He; try (vm_compute in He; discriminate).
  exists table', h'. split; [reflexivity|].
  destruct (Extend_changes_returned_table_only demo_more_heap 10 12 table' h' He)
    as (_ & Hcontexts & Hold).
  split; [assumption|].
  intros Hne. destruct (Hold Hne) as [-> _]. reflexivity.
Defined.

(** After a third script context is appended to the table at 2, a fourth one
    can be appended. *)
Lemma Extend_can_be_repeated_witness :
  0 < kFirstContextSlot
  /\ exists table' h',
       ScriptContextTable_Extend demo_more_heap 2 12 = Ok (table', h')
       /\ exists table'' h'',
            ScriptContextTable_Extend h' table' 3 = Ok (table'', h'').
Proof.
  assert (H1 : 0 < kFirstContextSlot) by reflexivity.
  split; [assumption|].
  destruct (ScriptContextTable_Extend demo_more_heap 2 12)
    as [[table' h']| |] eqn:He; try (vm_compute in He; discriminate).
  exists table', h'. split; [reflexivity|].
  destruct (Extend_can_be_repeated demo_more_heap 2 12 table' h' H1 He)
    as (t' & Ht' & _ & _ & Hagain).
  apply Hagain.
  assert (Hr : Ok (table', h')
               = Ok (2, <[2 := script_context_table_object
                                 (extended_in_place demo_table 12)]>
                          demo_more_heap))
    by (rewrite <- He; vm_compute; reflexivity).
  injection Hr as -> ->.
  rewrite lookup_insert_eq in Ht'. injection Ht' as <-.
  vm_compute. reflexivity.
Defined.

(** ["x"] is found at entry 0 of the table at 2, before and after a script
    context is appended. *)
Lemma Extend_keeps_earlier_match_witness :
  exists table' h',
    ScriptContextTable_Extend demo_more_heap 2 12 = Ok (table', h')
    /\ ScriptContextTable_Lookup demo_more_heap 2 "x"
       = Ok (Some {| context_index := 0; slot_index := 3; mode := LET;
                     init_flag := kNeedsInitialization;
                     maybe_assigned_flag := kNotAssigned |})
    /\ ScriptContextTable_Lookup h' table' "x"
       = Ok (Some {| context_index := 0; slot_index := 3; mode := LET;
                     init_flag := kNeedsInitialization;
                     maybe_assigned_flag := kNotAssigned |}).
Proof.
  destruct (ScriptContextTable_Extend demo_more_heap 2 12)
    as [[table' h']| |] eqn:He; try (vm_compute in He; discriminate).
  exists table', h'. split; [reflexivity|].
  assert (H1 : demo_more_heap !! 2
               = Some (script_context_table_object demo_table))
    by reflexivity.
  assert (H2 : 0 < kFirstContextSlot) by reflexivity.
  assert (H3 : 0 <= used demo_table) by (vm_compute; discriminate).
  assert (H4 : ScriptContextTable_Lookup demo_more_heap 2 "x"
               = Ok (Some {| context_index := 0; slot_index := 3; mode := LET;
                             init_flag := kNeedsInitialization;
                             maybe_assigned_flag := kNotAssigned |}))
    by (vm_compute; reflexivity).
  split; [assumption|].
  exact (Extend_keeps_earlier_match demo_more_heap 2 12 demo_table "x" _
           table' h' H1 H2 H3 He H4).
Defined.

(** No script context of the table at 2 declares ["y"]; once the script
    context 12 is appended, ["y"] is found at entry 2, in its slot 2. *)
Lemma Extend_then_Lookup_finds_appended_witness :
  0 < kFirstContextSlot
  /\ ScriptContextTable_Lookup demo_more_heap 2 "y" = Ok None
  /\ context_at demo_more_heap 12 = Ok demo_script_3
  /\ exists table' h',
       ScriptContextTable_Extend demo_more_heap 2 12 = Ok (table', h')
       /\ ScriptContextTable_Lookup h' table' "y"
          = Ok (Some {| context_index := 2; slot_index := 2; mode := VAR;
                        init_flag := kCreatedInitialized;
                        maybe_assigned_flag := kNotAssigned |}).
Proof.
  assert (H1 : 0 < kFirstContextSlot) by reflexivity.
  assert (H2 : ScriptContextTable_Lookup demo_more_heap 2 "y" = Ok None)
    by (vm_compute; reflexivity).
  assert (H3 : context_at demo_more_heap 12 = Ok demo_script_3)
    by reflexivity.
  do 3 (split; [assumption|]).
  destruct (ScriptContextTable_Extend demo_more_heap 2 12)
    as [[table' h']| |] eqn:He; try (vm_compute in He; discriminate).
  exists table', h'. split; [reflexivity|].
  destruct (Extend_then_Lookup_finds_appended demo_more_heap 2 12 table' h'
              demo_script_3 _ "y" H1 He H2 H3 eq_refl)
    as (t & Ht & Hfound).
  assert (Heq : t = demo_table).
  { change (demo_more_heap !! 2)
      with (Some (script_context_table_object demo_table)) in Ht.
    injection Ht as <-. reflexivity. }
  subst t. exact Hfound.
Defined.

(** The tables at 2 and 13 have the same two entries and differ in length
    and in the slots beyond: they answer alike. *)
Lemma ScriptContextTable_Lookup_reads_used_entries_witness :
  demo_more_heap !! 2 = Some (script_context_table_object demo_table)
  /\ demo_more_heap !! 13 = Some (script_context_table_object demo_long_table)
  /\ used demo_table = used demo_long_table
  /\ FixedArray_length demo_table <> FixedArray_length demo_long_table
  /\ ScriptContextTable_Lookup demo_more_heap 2 "y"
     = ScriptContextTable_Lookup demo_more_heap 13 "y".
Proof.
  assert (H1 : demo_more_heap !! 2
               = Some (script_context_table_object demo_table))
    by reflexivity.
  assert (H2 : demo_more_heap !! 13
               = Some (script_context_table_object demo_long_table))
    by reflexivity.
  assert (H3 : used demo_table = used demo_long_table) by reflexivity.
  assert (H4 : forall i, 0 <= i < used demo_table ->
                 ScriptContextTable_GetContext demo_table i
                 = ScriptContextTable_GetContext demo_long_table i).
  { intros i Hi. assert (Hcases : i = 0 \/ i = 1) by (cbn in Hi; lia).
    destruct Hcases as [-> | ->]; reflexivity. }
  do 3 (split; [assumption|]). split; [vm_compute; discriminate|].
  exact (proj1 (ScriptContextTable_Lookup_reads_used_entries
                  demo_more_heap 2 13 demo_table demo_long_table "y"
                  H1 H2 H3 H4)).
Defined.

(** The declaration context of the with context 8 is the function context
    5, which is its own declaration context. *)
Lemma declaration_context_idempotent_witness :
  declaration_context 4 demo_heap 8 = Ok 5
  /\ declaration_context 1 demo_heap 5 = Ok 5
  /\ declaration_context 9 demo_heap 8 = Ok 5.
Proof.
  assert (H1 : declaration_context 4 demo_heap 8 = Ok 5)
    by (vm_compute; reflexivity).
  split; [assumption|].
  destruct (declaration_context_idempotent 4 demo_heap 8 5 H1) as [Hd Hm].
  split; [apply Hd|apply Hm; lia].
Defined.

(** From the with context 8, [declaration_context] returns within six
    steps. *)
Lemma declaration_context_returns_witness :
  reaches_native demo_heap 8 6
  /\ exists d, declaration_context 6 demo_heap 8 = Ok d.
Proof.
  split; [exact demo_reaches_native|].
  exact (declaration_context_returns demo_heap 8 6 demo_reaches_native
           demo_declaration_contexts).
Defined.

(** From the with context 8 the declaration context is 5 and the script
    context is 4, which is the script context of 5 as well. *)
Lemma script_context_of_declaration_context_witness :
  declaration_context 4 demo_heap 8 = Ok 5
  /\ script_context 5 demo_heap 8 = Ok 4
  /\ script_context 5 demo_heap 5 = Ok 4.
Proof.
  assert (H1 : declaration_context 4 demo_heap 8 = Ok 5)
    by (vm_compute; reflexivity).
  assert (H2 : script_context 5 demo_heap 8 = Ok 4)
    by (vm_compute; reflexivity).
  do 2 (split; [assumption|]).
  exact (script_context_of_declaration_context 4 5 demo_heap 8 5 4 H1 H2).
Defined.

(** A lookup from the with context 8 is over within six passes. *)
Lemma Context_Lookup_terminates_witness :
  reaches_native demo_heap 8 6
  /\ Context_Lookup 6 demo_heap 8 "g" 3 <> OutOfFuel
  /\ Context_Lookup 20 demo_heap 8 "g" 3 = Context_Lookup 6 demo_heap 8 "g" 3.
Proof.
  split; [exact demo_reaches_native|].
  destruct (Context_Lookup_terminates demo_heap 8 6 "g" 3 demo_reaches_native)
    as [Hend Hmore].
  split; [assumption|apply Hmore; lia].
Defined.


(** At the native context 1, ["x"] resolves to the script context 3 of the
    table, slot 3. *)
Lemma Lookup_native_context_witness :
  demo_heap !! 1 = Some (context_object demo_native)
  /\ kind demo_native = NativeContext
  /\ exists t found,
       table_at demo_heap 2 = Ok t
       /\ ScriptContextTable_GetContext t 0 = Ok found
       /\ Context_Lookup 1 demo_heap 1 "x" 3
          = Ok {| holder := context_handle found;
                  out := {| index := 3; attributes := NONE;
                            binding_flags := MUTABLE_CHECK_INITIALIZED |};
                  has_pending_exception := false |}.
Proof.
  assert (H1 : demo_heap !! 1 = Some (context_object demo_native))
    by reflexivity.
  assert (H2 : kind demo_native = NativeContext) by reflexivity.
  do 2 (split; [assumption|]).
  exact (proj1 (Lookup_native_context 0 demo_heap 1 demo_native "x" 3 H1 H2)
           200
           {| context_index := 0; slot_index := 3; mode := LET;
              init_flag := kNeedsInitialization;
              maybe_assigned_flag := kNotAssigned |}
           NONE MUTABLE_CHECK_INITIALIZED eq_refl eq_refl eq_refl).
Defined.

(** With [FOLLOW_PROTOTYPE_CHAIN] the with context 8 passes ["this"] on to
    the catch context 7, although its subject has a property of that
    name. *)
Lemma Lookup_with_passes_this_witness :
  demo_heap !! 8 = Some (context_object demo_with)
  /\ kind demo_with = WithContext
  /\ extension demo_with = ext_JSReceiver 100
  /\ has_flag 3 FOLLOW_PROTOTYPE_CHAIN = true
  /\ JSReceiver_GetPropertyAttributes 100 "this" = Some NONE
  /\ Context_Lookup 6 demo_heap 8 "this" 3
     = Context_Lookup 5 demo_heap 7 "this" 3.
Proof.
  assert (H1 : demo_heap !! 8 = Some (context_object demo_with))
    by reflexivity.
  assert (H2 : has_flag 3 FOLLOW_PROTOTYPE_CHAIN = true) by reflexivity.
  do 5 (split; [reflexivity|]).
  exact (proj1 (Lookup_with_passes_this 5 demo_heap 8 demo_with 100 3
                  H1 eq_refl eq_refl H2 eq_refl) eq_refl 7 eq_refl).
Defined.

(** The descriptors of the example heap give ["x"] the modes [LET] and
    [CONST]. *)
Lemma demo_descriptors_classified : descriptors_classified demo_heap "x".
Proof.
  intros a c si Hc Hsi Hslot. unfold context_at in Hc.
  destruct (demo_heap !! a) as [[c'|t]|] eqn:Ha; try discriminate.
  injection Hc as ->.
  apply elem_of_map_to_list in Ha.
  revert Ha. vm_compute map_to_list.
  rewrite !elem_of_cons, elem_of_nil.
  intros H. repeat (destruct H as [H|H]); try done; simplify_eq;
    (destruct Hsi as [Hsi|Hsi];
     [vm_compute in Hsi; try discriminate; injection Hsi as <-|subst si]);
    vm_compute in Hslot;
    try (exfalso; apply Hslot; reflexivity);
    unfold classified; vm_compute; auto.
Qed.

(** A lookup of ["x"] from the function context 5 returns the script
    context 4, in the shape of a context result. *)
Lemma Context_Lookup_result_shape_witness :
  descriptors_classified demo_heap "x"
  /\ Context_Lookup 10 demo_heap 5 "x" 1
     = Ok {| holder := context_handle 4;
             out := {| index := 5; attributes := READ_ONLY;
                       binding_flags := IMMUTABLE_IS_INITIALIZED_HARMONY |};
             has_pending_exception := false |}
  /\ (0 <= 5 \/ 5 = THROWN_OBJECT_INDEX)
  /\ IMMUTABLE_IS_INITIALIZED_HARMONY <> MISSING_BINDING
  /\ (READ_ONLY = NONE \/ READ_ONLY = READ_ONLY).
Proof.
  assert (H1 : Context_Lookup 10 demo_heap 5 "x" 1
               = Ok {| holder := context_handle 4;
                       out := {| index := 5; attributes := READ_ONLY;
                                 binding_flags :=
                                   IMMUTABLE_IS_INITIALIZED_HARMONY |};
                       has_pending_exception := false |})
    by (vm_compute; reflexivity).
  split; [exact demo_descriptors_classified|]. split; [assumption|].
  exact (Context_Lookup_result_shape 10 demo_heap 5 "x" 1 _
           demo_descriptors_classified H1).
Defined.

End MoreWitnesses.

Section UnscopablesWitnesses.

#[local] Existing Instance example_constants.
#[local] Existing Instance example_descriptors.
#[local] Existing Instance unscopables_objects.

(** The subject of the with context 8 has the properties ["values"] and
    ["x"], and its unscopables object hides ["values"]: the with context
    passes ["values"] on and answers for ["x"]. *)
Lemma Lookup_with_unscopables_witness :
  demo_heap !! 8 = Some (context_object demo_with)
  /\ JSReceiver_GetPropertyAttributes 100 "values" = Some NONE
  /\ JSReceiver_GetPropertyAttributes 100 "x" = Some NONE
  /\ Context_Lookup 6 demo_heap 8 "values" 3
     = Context_Lookup 5 demo_heap 7 "values" 3
  /\ Context_Lookup 6 demo_heap 8 "x" 3
     = Ok {| holder := receiver_handle 100;
             out := {| index := kNotFound; attributes := NONE;
                       binding_flags := MISSING_BINDING |};
             has_pending_exception := false |}.
Proof.
  assert (H1 : demo_heap !! 8 = Some (context_object demo_with))
    by reflexivity.
  assert (H2 : NONE <> ABSENT) by discriminate.
  do 3 (split; [reflexivity|]).
  split.
  - refine (proj1 (Lookup_with_unscopables 5 demo_heap 8 demo_with 100
                     "values" 3 NONE (value_object ["values"%string])
                     (value_boolean true)
                     H1 eq_refl eq_refl eq_refl eq_refl eq_refl _ eq_refl H2
                     eq_refl eq_refl eq_refl) eq_refl eq_refl 7 eq_refl).
    discriminate.
  - refine (proj2 (Lookup_with_unscopables 5 demo_heap 8 demo_with 100
                     "x" 3 NONE (value_object ["values"%string])
                     (value_boolean false)
                     H1 eq_refl eq_refl eq_refl eq_refl eq_refl _ eq_refl H2
                     eq_refl eq_refl eq_refl) eq_refl).
    discriminate.
Defined.

End UnscopablesWitnesses.

Section FunctionNameWitnesses.

#[local] Existing Instance example_constants.
#[local] Existing Instance function_name_descriptors.
#[local] Existing Instance demo_objects.

(** In the function context 3 of the function expression ["fact"], the name
    ["fact"] resolves to slot 4 of that context when the chain is followed,
    and to nothing when it is not. *)
Lemma Lookup_function_name_slot_witness :
  demo_function_heap !! 3
  = Some (context_object
            {| kind := FunctionContext; extension := ext_nullptr;
               previous := Some 1; closure_scope_info := "fact"%string;
               script_context_table := 2 |})
  /\ Context_Lookup 3 demo_function_heap 3 "fact" 1
     = Ok {| holder := context_handle 3;
             out := {| index := 4; attributes := READ_ONLY;
                       binding_flags := IMMUTABLE_IS_INITIALIZED |};
             has_pending_exception := false |}
  /\ Context_Lookup 3 demo_function_heap 3 "fact" 0
     = Ok (no_property_or_slot_found initial_out).
Proof.
  assert (H1 : demo_function_heap !! 3
               = Some (context_object
                         {| kind := FunctionContext; extension := ext_nullptr;
                            previous := Some 1;
                            closure_scope_info := "fact"%string;
                            script_context_table := 2 |}))
    by reflexivity.
  assert (H2 : 0 <= 4) by lia.
  split; [assumption|].
  split.
  - refine (proj1 (Lookup_function_name_slot 2 demo_function_heap 3 _
                     "fact" 1 4 CONST_LEGACY H1 eq_refl eq_refl _ eq_refl H2)
              eq_refl).
    reflexivity.
  - refine (proj2 (Lookup_function_name_slot 2 demo_function_heap 3 _
                     "fact" 0 4 CONST_LEGACY H1 eq_refl eq_refl _ eq_refl H2)
              eq_refl).
    reflexivity.
Defined.

End FunctionNameWitnesses.

Section ListWitnesses.

#[local] Existing Instance example_constants.
#[local] Existing Instance example_descriptors.
#[local] Existing Instance example_flusher.
#[local] Existing Instance example_layout.

(** The list of optimized functions of the example is 20, 21. *)
Lemma demo_functions_linked :
  linked demo_function_links (OPTIMIZED_FUNCTIONS_LIST demo_lists) [20; 21].
Proof.
  apply (linked_next _ _ (heap_object 21)); [reflexivity|].
  apply (linked_next _ _ undefined_value); [reflexivity|].
  apply linked_end.
Qed.

(** The list of optimized code of the example is 30. *)
Lemma demo_code_linked :
  linked demo_code_links (OPTIMIZED_CODE_LIST demo_lists) [30].
Proof.
  apply (linked_next _ _ undefined_value); [reflexivity|]. apply linked_end.
Qed.

Lemma demo_function_22_new : 22 ∉ [20; 21].
Proof. rewrite !not_elem_of_cons. repeat split; [lia|lia|apply not_elem_of_nil]. Qed.

Lemma demo_function_21_listed : 21 ∈ [20; 21].
Proof. rewrite !elem_of_cons. right. left. reflexivity. Qed.

Lemma demo_code_31_new : 31 ∉ [30].
Proof. rewrite !not_elem_of_cons. split; [lia|apply not_elem_of_nil]. Qed.

(** Adding the function 22 gives the list 22, 20, 21. *)
Lemma AddOptimizedFunction_pushes_witness :
  demo_function_links !! 22 = Some undefined_value
  /\ exists s' links',
       AddOptimizedFunction demo_lists demo_function_links 22
       = Ok (s', links')
       /\ linked links' (OPTIMIZED_FUNCTIONS_LIST s') [22; 20; 21].
Proof.
  assert (H1 : demo_function_links !! 22 = Some undefined_value)
    by reflexivity.
  split; [assumption|].
  destruct (AddOptimizedFunction_pushes demo_lists demo_function_links 22
              [20; 21] demo_functions_linked H1 demo_function_22_new)
    as (s' & links' & Hadd & _ & Hlinked & _).
  exists s', links'. split; assumption.
Defined.

(** Removing the function 21 leaves the list 20. *)
Lemma RemoveOptimizedFunction_unlinks_witness :
  exists s' links',
    RemoveOptimizedFunction 2 demo_lists demo_function_links 21
    = Ok (s', links')
    /\ linked links' (OPTIMIZED_FUNCTIONS_LIST s') [20]
    /\ links' !! 21 = Some undefined_value.
Proof.
  assert (H1 : (length [20; 21] <= 2)%nat) by (cbn; lia).
  destruct (RemoveOptimizedFunction_unlinks 2 demo_lists demo_function_links
              21 [20; 21] demo_functions_linked demo_function_21_listed H1)
    as (s' & links' & Hremove & Hlinked & Hlink & _).
  exists s', links'. repeat split; assumption.
Defined.

(** Adding the function 22 and removing it again leaves everything as it
    was. *)
Lemma RemoveOptimizedFunction_undoes_Add_witness :
  demo_function_links !! 22 = Some undefined_value
  /\ (do '(s', links') <-
        AddOptimizedFunction demo_lists demo_function_links 22;
      RemoveOptimizedFunction 1 s' links' 22)
     = Ok (demo_lists, demo_function_links).
Proof.
  assert (H1 : demo_function_links !! 22 = Some undefined_value)
    by reflexivity.
  split; [assumption|].
  exact (RemoveOptimizedFunction_undoes_Add 0 demo_lists demo_function_links
           22 H1).
Defined.

(** Removing the function 22, which is not on the list, leaves the list
    20, 21 and all links as they are. *)
Lemma RemoveOptimizedFunction_absent_changes_nothing_witness :
  RemoveOptimizedFunction 3 demo_lists demo_function_links 22
  = Ok (demo_lists, demo_function_links).
Proof.
  assert (H1 : (length [20; 21] < 3)%nat) by (cbn; lia).
  exact (RemoveOptimizedFunction_absent_changes_nothing 3 demo_lists
           demo_function_links 22 [20; 21] demo_functions_linked
           demo_function_22_new H1).
Defined.

(** Adding the code object 31 gives the list 31, 30. *)
Lemma AddOptimizedCode_pushes_witness :
  demo_code_links !! 31 = Some undefined_value
  /\ exists s' links',
       AddOptimizedCode demo_lists demo_code_links 31 = Ok (s', links')
       /\ linked links' (OPTIMIZED_CODE_LIST s') [31; 30]
       /\ OptimizedFunctionsListHead s' = heap_object 20.
Proof.
  assert (H1 : demo_code_links !! 31 = Some undefined_value) by reflexivity.
  split; [assumption|].
  destruct (AddOptimizedCode_pushes demo_lists demo_code_links 31 [30]
              undefined_value demo_code_linked H1 demo_code_31_new)
    as (s' & links' & Hadd & _ & Hlinked & _ & Hfunctions & _).
  exists s', links'. repeat split; assumption.
Defined.

(** The script context 12 declares one context local and, being a
    declaration scope, has two context globals: of eight slots, the slots 5
    and 6 are set. *)
Lemma InitializeGlobalSlots_sets_globals_only_witness :
  scope_info demo_script_3
  = Ok (true, [("y"%string, example_slot 2 VAR kCreatedInitialized)])
  /\ exists slots',
       InitializeGlobalSlots demo_script_3 (replicate 8 undefined_value)
       = Ok slots'
       /\ slots' !! 4%nat = Some undefined_value
       /\ slots' !! 5%nat = Some (heap_object 50)
       /\ slots' !! 6%nat = Some (heap_object 50)
       /\ slots' !! 7%nat = Some undefined_value.
Proof.
  assert (H1 : scope_info demo_script_3
               = Ok (true, [("y"%string,
                             example_slot 2 VAR kCreatedInitialized)]))
    by reflexivity.
  split; [assumption|].
  destruct (InitializeGlobalSlots_sets_globals_only demo_script_3 _
              (replicate 8 undefined_value) H1)
    as (slots' & Hinit & _ & Hget & _).
  { vm_compute. discriminate. }
  { vm_compute. discriminate. }
  exists slots'. split; [assumption|].
  rewrite !Hget. repeat split.
Defined.

End ListWitnesses.
